(** * The agent's planning pipeline: tool selection, tools, memory

    A shallow embedding of [planning.py], [tools.py] and [memory.py], and
    of [get_embedding] and [add_custom_documents] of [ingest_data.py].

    Conventions of the embedding.
    - A Python [str] is a [string]; a character is a code point below 256.
    - A Python function is a computation in the monad [M]: it reads and
      changes a [world] (the memory collection, the log of generation
      requests, the number of external calls made so far) and either
      returns or raises.  [try: ... except Exception] is [try_except].
    - What the process does not own (the generation service, the database
      server, the clock, [json.loads], [str], [eval] outside the integer
      fragment) is a field of the environment [env]; external calls are
      numbered, so the same call may answer differently the second time. *)

From Stdlib Require Import String Ascii List ZArith NArith Bool Arith Lia.
From Stdlib Require Import DecimalString Sorting.Sorted.
From Stdlib Require Import Floats.PrimFloat.
From Stdlib Require DecimalFacts DecimalN.
Import ListNotations.

Local Open Scope string_scope.
Local Open Scope list_scope.

(* ================================================================== *)
(** * Python strings *)
(* ================================================================== *)

Module PyStr.

Definition in_range (lo hi n : N) : bool := (N.leb lo n && N.leb n hi)%bool.

(** [str.lower] on one code point: A-Z and the Latin-1 capitals. *)
Definition lower_char (c : ascii) : ascii :=
  let n := N_of_ascii c in
  if (in_range 65 90 n || (in_range 192 222 n && negb (N.eqb n 215)))%bool
  then ascii_of_N (n + 32) else c.

Fixpoint lower (s : string) : string :=
  match s with
  | EmptyString => EmptyString
  | String c t => String (lower_char c) (lower t)
  end.

(** [needle in hay] *)
Fixpoint contains (needle hay : string) : bool :=
  if String.prefix needle hay then true
  else match hay with
       | EmptyString => false
       | String _ t => contains needle t
       end.

(** [any(k in s for k in keys)] *)
Definition any_in (keys : list string) (s : string) : bool :=
  existsb (fun k => contains k s) keys.

(** [str.isspace] on one code point. *)
Definition is_space (c : ascii) : bool :=
  let n := N_of_ascii c in
  (in_range 9 13 n || in_range 28 32 n || N.eqb n 133 || N.eqb n 160)%bool.

Fixpoint lstrip (s : string) : string :=
  match s with
  | EmptyString => EmptyString
  | String c t => if is_space c then lstrip t else s
  end.

Fixpoint rstrip (s : string) : string :=
  match s with
  | EmptyString => EmptyString
  | String c t =>
      match rstrip t with
      | EmptyString => if is_space c then EmptyString else String c EmptyString
      | t' => String c t'
      end
  end.

(** [s.strip()] *)
Definition strip (s : string) : string := lstrip (rstrip s).

(** [not s or not s.strip()] *)
Definition is_blank (s : string) : bool :=
  (String.eqb s "" || String.eqb (strip s) "")%bool.

Fixpoint chars (s : string) : list ascii :=
  match s with
  | EmptyString => []
  | String c t => c :: chars t
  end.

(** [str(z)] for an int *)
Definition decimal (z : Z) : string := NilEmpty.string_of_int (Z.to_int z).

(** [sep.join(parts)] *)
Definition join (sep : string) (parts : list string) : string :=
  String.concat sep parts.

Definition quote : string := String (ascii_of_nat 34) "".
Definition newline : string := String (ascii_of_nat 10) "".

(** [s.split(sep)] for a separator of one character: the pieces between
    the separators, empty ones included. *)
Fixpoint split (sep : ascii) (s : string) : list string :=
  match s with
  | EmptyString => [EmptyString]
  | String c t =>
      if Ascii.eqb c sep then EmptyString :: split sep t
      else match split sep t with
           | [] => [String c EmptyString]
           | piece :: pieces => String c piece :: pieces
           end
  end.

(** [s.split()]: the maximal runs of characters that are not whitespace;
    [word] holds the run being read. *)
Fixpoint split_whitespace (s : string) (word : string) : list string :=
  match s with
  | EmptyString =>
      match word with
      | EmptyString => []
      | _ => [word]
      end
  | String c t =>
      if is_space c then
        match word with
        | EmptyString => split_whitespace t EmptyString
        | _ => word :: split_whitespace t EmptyString
        end
      else split_whitespace t (word ++ String c EmptyString)%string
  end.

End PyStr.

(* ================================================================== *)
(** * Exceptions, the world and the monad of Python computations *)
(* ================================================================== *)

(** The classes the code distinguishes or provokes; all of them derive
    from [Exception]. *)
Inductive exn_class :=
| JSONDecodeError | AttributeError | TypeError | KeyError | ValueError
| ZeroDivisionError | RecursionError | ServiceError.

Record exn := mkExn { exn_cls : exn_class; exn_msg : string }.

Inductive outcome (A : Type) :=
| Ret (a : A)
| Raise (e : exn).
Arguments Ret {A} a.
Arguments Raise {A} e.

(** One message of a generation request, [{"role": ..., "content": ...}].
    A content is [None] where the generation service answered without one
    and the answer was stored. *)
Record message := mkMsg { role : string; content : option string }.

(** [chat.completions.create(model=, messages=, temperature=)];
    the temperature is kept in tenths. *)
Record request := mkReq {
  rq_model : string;
  rq_messages : list message;
  rq_temperature_tenths : nat
}.

(** A document of the memory collection.  Chat turns carry a role and
    metadata, facts and long-term notes carry a type. *)
Record mdoc := mkDoc {
  m_session_id : string;
  m_role : option string;
  m_content : option string;
  m_timestamp : Z;
  m_metadata : option (list (string * string));
  m_type : option string;
  m_persistent : option bool
}.

Record world := mkWorld {
  w_memory : list mdoc;        (* memory_collection *)
  w_chat_log : list request;   (* generation requests issued so far *)
  w_tick : nat                 (* external calls made so far *)
}.

Definition M (A : Type) : Type := world -> outcome A * world.

Definition ret {A} (a : A) : M A := fun w => (Ret a, w).
Definition raise {A} (e : exn) : M A := fun w => (Raise e, w).
Definition bind {A B} (c : M A) (k : A -> M B) : M B :=
  fun w => match c w with
           | (Ret a, w') => k a w'
           | (Raise e, w') => (Raise e, w')
           end.
Definition lift {A} (o : outcome A) : M A := fun w => (o, w).

(** [try: body  except Exception as e: handler e] *)
Definition try_except {A} (body : M A) (handler : exn -> M A) : M A :=
  fun w => match body w with
           | (Ret a, w') => (Ret a, w')
           | (Raise e, w') => handler e w'
           end.

Declare Scope py_scope.
Delimit Scope py_scope with py.
Notation "x <- c ;; k" := (bind c (fun x => k))
  (at level 61, c at next level, right associativity) : py_scope.
Notation "' p <- c ;; k" := (bind c (fun x => match x with p => k end))
  (at level 61, p pattern, c at next level, right associativity) : py_scope.
Notation "c ;;; k" := (bind c (fun _ => k))
  (at level 61, right associativity) : py_scope.

(** Pure computations that may raise. *)
Definition obind {A B} (o : outcome A) (k : A -> outcome B) : outcome B :=
  match o with
  | Ret a => k a
  | Raise e => Raise e
  end.

(** Reading the world. *)
Definition tick : M nat :=
  fun w => (Ret (w_tick w),
            mkWorld (w_memory w) (w_chat_log w) (S (w_tick w))).

(** A computation that returns, whatever the world. *)
Definition never_raises {A} (c : M A) : Prop :=
  forall w, exists a w', c w = (Ret a, w').

(* ================================================================== *)
(** * Python values, as [json.loads] builds them *)
(* ================================================================== *)

#[warnings="-register-all"]
Inductive pyval :=
| PNone
| PBool (b : bool)
| PInt (z : Z)
| PFloat (f : float)
| PStr (s : string)
| PList (l : list pyval)
| PDict (d : list (string * pyval)).

Module Py.

(** [bool(v)] *)
Definition truthy (v : pyval) : bool :=
  match v with
  | PNone => false
  | PBool b => b
  | PInt z => negb (Z.eqb z 0)
  | PFloat f => negb (PrimFloat.eqb f PrimFloat.zero)
  | PStr s => negb (String.eqb s "")
  | PList l => match l with [] => false | _ => true end
  | PDict d => match d with [] => false | _ => true end
  end.

(** [v == s] for a string literal [s] *)
Definition eq_str (v : pyval) (s : string) : bool :=
  match v with
  | PStr t => String.eqb t s
  | _ => false
  end.

Fixpoint lookup (k : string) (d : list (string * pyval)) : option pyval :=
  match d with
  | [] => None
  | (k', v) :: d' => if String.eqb k k' then Some v else lookup k d'
  end.

(** [v.get(k, default)]; only a dict has [get]. *)
Definition get (v : pyval) (k : string) (default : pyval) : outcome pyval :=
  match v with
  | PDict d => Ret (match lookup k d with Some x => x | None => default end)
  | _ => Raise (mkExn AttributeError "object has no attribute 'get'")
  end.

End Py.

(* ================================================================== *)
(** * What the process does not own *)
(* ================================================================== *)

(** A document of the vector collection, as a search hands it out:
    projected on [text] and [metadata], and tagged by [hybrid_search_tool]. *)
Inductive search_type := Vector | Text.

Record rdoc := mkRdoc {
  d_text : option string;                 (* absent: [result["text"]] is a KeyError *)
  d_metadata : list (string * string);
  d_search_type : option search_type
}.

Record env := mkEnv {
  (** [openai_client.chat.completions.create(...)] followed by
      [.choices[0].message.content], at the n-th external call *)
  chat_reply : nat -> request -> outcome (option string);
  (** [openai_client.embeddings.create(...).data[0].embedding] *)
  embedding_reply : nat -> string -> outcome (list float);
  (** [vector_collection.aggregate] with the [$vectorSearch] pipeline *)
  vector_reply : nat -> list float -> nat -> outcome (list rdoc);
  (** [vector_collection.find({"$text": ...}).limit(limit)], iterated *)
  text_reply : nat -> string -> nat -> outcome (list rdoc);
  (** whether the n-th external call, to the memory collection, fails *)
  db_down : nat -> bool;
  (** [datetime.now()] at the n-th external call *)
  now : nat -> Z;
  (** [json.loads] on a [str] *)
  json_loads : string -> outcome pyval;
  (** [str(v)] for a value that is not a [str] *)
  py_str : pyval -> string;
  (** [eval] then [str], outside the integer fragment modelled below *)
  host_eval : string -> outcome string;
  (** the selection prompt, with the tool catalogue printed into it *)
  system_prompt : string
}.

(* ================================================================== *)
(** * planning.py: the tool selector *)
(* ================================================================== *)

Definition OPENAI_MODEL : string := "gpt-4o".

(** One entry of a session history, as [retrieve_session_history] builds it. *)
Record turn := mkTurn {
  t_role : string;
  t_content : option string;
  t_timestamp : Z;
  t_metadata : list (string * string)
}.

Definition clean_session_history (session_history : list turn) : list message :=
  map (fun msg => mkMsg (t_role msg) (t_content msg)) session_history.

(** [l[-n:]] *)
Definition last_n {A} (n : nat) (l : list A) : list A :=
  skipn (length l - n) l.

Definition mongodb_keywords : list string :=
  ["mongodb"; "atlas"; "vector"; "database"; "search"; "acquisition";
   "revenue"; "earnings"; "financial"].

Definition general_knowledge_keywords : list string :=
  ["country"; "plays"; "football"; "soccer"; "team"; "club"; "sport";
   "movie"; "actor"; "city"; "capital"; "population"; "president";
   "prime minister"; "cook"; "recipe"; "weather"; "time"; "explain";
   "how to"; "what is"; "who is"; "where is"; "when is"; "why is"].

Section Selector.

Variable E : env.

Definition chat_create (rq : request) : M (option string) :=
  fun w => (chat_reply E (w_tick w) rq,
            mkWorld (w_memory w) (w_chat_log w ++ [rq]) (S (w_tick w))).

(** Lines 83-91: the messages of the selection request. *)
Definition selector_messages (user_input : string) (session_history : list turn)
  : list message :=
  [mkMsg "system" (Some (system_prompt E))]
  ++ (match session_history with
      | [] => []
      | _ => clean_session_history (last_n 5 session_history)
      end)
  ++ [mkMsg "user" (Some user_input)].

Definition selector_request (user_input : string) (session_history : list turn)
  : request :=
  mkReq OPENAI_MODEL (selector_messages user_input session_history) 1.

(** Lines 111-122: the input becomes a string, or the sub-field of a dict. *)
Definition normalize_input (tool_input : pyval) : pyval :=
  match tool_input with
  | PDict d =>
      match Py.lookup "query" d with
      | Some q => q
      | None =>
          match Py.lookup "input" d with
          | Some i => i
          | None => PStr (py_str E tool_input)
          end
      end
  | PStr _ => tool_input
  | _ => PStr (py_str E tool_input)
  end.

(** Lines 124-126: [if not tool_input or not tool_input.strip()]. *)
Definition replace_blank (tool_input : pyval) (user_input : string)
  : outcome pyval :=
  if negb (Py.truthy tool_input) then Ret (PStr user_input)
  else match tool_input with
       | PStr s =>
           if String.eqb (PyStr.strip s) "" then Ret (PStr user_input)
           else Ret tool_input
       | _ => Raise (mkExn AttributeError "object has no attribute 'strip'")
       end.

(** Lines 104-126: the body of the inner [try]. *)
Definition decode_choice (tool_response user_input : string)
  : outcome (pyval * pyval) :=
  obind (json_loads E tool_response) (fun tool_call =>
  obind (Py.get tool_call "tool" (PStr "none")) (fun selected_tool =>
  obind (Py.get tool_call "input" (PStr user_input)) (fun tool_input =>
  if negb (Py.eq_str selected_tool "none") then
    obind (replace_blank (normalize_input tool_input) user_input)
          (fun tool_input' => Ret (selected_tool, tool_input'))
  else Ret (selected_tool, tool_input)))).

(** Lines 129-146: the first tool name found in the raw response. *)
Definition fallback_parsing (tool_response user_input : string) : pyval * pyval :=
  if PyStr.contains "vector_search_tool" tool_response
  then (PStr "vector_search_tool", PStr user_input)
  else if PyStr.contains "calculator_tool" tool_response
  then (PStr "calculator_tool", PStr user_input)
  else if PyStr.contains "web_search_tool" tool_response
  then (PStr "web_search_tool", PStr user_input)
  else if PyStr.contains "document_analysis_tool" tool_response
  then (PStr "document_analysis_tool", PStr user_input)
  else if PyStr.contains "hybrid_search_tool" tool_response
  then (PStr "hybrid_search_tool", PStr user_input)
  else (PStr "none", PStr user_input).

(** Lines 103-146: the model's choice.  [json.loads(None)] is a TypeError,
    which [except json.JSONDecodeError] lets through. *)
Definition model_choice (tool_response : option string) (user_input : string)
  : outcome (pyval * pyval) :=
  match tool_response with
  | None => Raise (mkExn TypeError "the JSON object must be str, bytes or bytearray, not NoneType")
  | Some text =>
      match decode_choice text user_input with
      | Ret r => Ret r
      | Raise e =>
          match exn_cls e with
          | JSONDecodeError => Ret (fallback_parsing text user_input)
          | _ => Raise e
          end
      end
  end.

(** Lines 148-158: the two overrides, in this order. *)
Definition apply_overrides (user_input : string) (selected_tool : pyval) : pyval :=
  let selected_tool :=
    if (Py.eq_str selected_tool "web_search_tool"
        && PyStr.any_in mongodb_keywords (PyStr.lower user_input))%bool
    then PStr "vector_search_tool" else selected_tool in
  let selected_tool :=
    if (Py.eq_str selected_tool "none"
        && PyStr.any_in general_knowledge_keywords (PyStr.lower user_input))%bool
    then PStr "web_search_tool" else selected_tool in
  selected_tool.

(** Lines 164-173: the handler of the outer [try]. *)
Definition keyword_fallback (user_input : string) : pyval * pyval :=
  if PyStr.any_in mongodb_keywords (PyStr.lower user_input)
  then (PStr "vector_search_tool", PStr user_input)
  else if PyStr.any_in general_knowledge_keywords (PyStr.lower user_input)
  then (PStr "web_search_tool", PStr user_input)
  else (PStr "none", PStr user_input).

Definition tool_selector (user_input : string) (session_history : list turn)
  : M (pyval * pyval) :=
  try_except
    (tool_response <- chat_create (selector_request user_input session_history) ;;
     ' (selected_tool, tool_input) <- lift (model_choice tool_response user_input) ;;
     ret (apply_overrides user_input selected_tool, tool_input))%py
    (fun _ => ret (keyword_fallback user_input)).

End Selector.


(* ================================================================== *)
(** * memory.py: the memory store adapter *)
(* ================================================================== *)

(** [find(...).sort("timestamp", 1)]: ascending, by insertion. *)
Fixpoint insert_by_timestamp (d : mdoc) (l : list mdoc) : list mdoc :=
  match l with
  | [] => [d]
  | x :: r =>
      if Z.leb (m_timestamp d) (m_timestamp x) then d :: l
      else x :: insert_by_timestamp d r
  end.

Definition sort_by_timestamp (l : list mdoc) : list mdoc :=
  fold_right insert_by_timestamp [] l.

(** Lines 35-41: one dict per document; [msg["role"]] is a KeyError on a
    document that has no role. *)
Fixpoint project_turns (cursor : list mdoc) : outcome (list turn) :=
  match cursor with
  | [] => Ret []
  | msg :: rest =>
      match m_role msg with
      | None => Raise (mkExn KeyError "'role'")
      | Some r =>
          obind (project_turns rest) (fun messages =>
          Ret (mkTurn r (m_content msg) (m_timestamp msg)
                      (match m_metadata msg with Some m => m | None => [] end)
               :: messages))
      end
  end.

(** [f"{msg['role']}: {msg['content']}"] *)
Definition show_content (c : option string) : string :=
  match c with Some s => s | None => "None" end.

Definition transcript_line (msg : turn) : string :=
  t_role msg ++ ": " ++ show_content (t_content msg).

Section Memory.

Variable E : env.

Definition called (w : world) : world :=
  mkWorld (w_memory w) (w_chat_log w) (S (w_tick w)).

Definition datetime_now : M Z :=
  fun w => (Ret (now E (w_tick w)), called w).

(** [memory_collection.insert_one(doc)] *)
Definition insert_one (doc : mdoc) : M unit :=
  fun w =>
    if db_down E (w_tick w)
    then (Raise (mkExn ServiceError "memory collection unreachable"), called w)
    else (Ret tt, mkWorld (w_memory w ++ [doc]) (w_chat_log w) (S (w_tick w))).

(** [memory_collection.find({"session_id": session_id}).sort("timestamp", 1)],
    read when the cursor is iterated. *)
Definition find_session (session_id : string) : M (list mdoc) :=
  fun w =>
    if db_down E (w_tick w)
    then (Raise (mkExn ServiceError "memory collection unreachable"), called w)
    else (Ret (sort_by_timestamp
                 (filter (fun d => String.eqb (m_session_id d) session_id)
                         (w_memory w))),
          called w).

Definition store_chat_message
    (session_id role : string) (content : option string)
    (metadata : option (list (string * string))) : M unit :=
  (timestamp <- datetime_now ;;
   let message :=
     mkDoc session_id (Some role) content timestamp
           (Some (match metadata with Some m => m | None => [] end))
           None None in
   try_except (insert_one message) (fun _ => ret tt))%py.

(** [if limit: cursor = cursor.limit(limit)]: [None] and [0] leave the
    cursor as it is. *)
Definition apply_limit {A} (limit : option nat) (cursor : list A) : list A :=
  match limit with
  | Some (S n) => firstn (S n) cursor
  | _ => cursor
  end.

Definition retrieve_session_history (session_id : string) (limit : option nat)
  : M (list turn) :=
  try_except
    (cursor <- find_session session_id ;;
     lift (project_turns (apply_limit limit cursor)))%py
    (fun _ => ret []).

(** Lines 90-96: one insert per fact. *)
Fixpoint store_facts_loop (session_id : string) (facts : list string) : M unit :=
  match facts with
  | [] => ret tt
  | fact :: rest =>
      (timestamp <- datetime_now ;;
       insert_one (mkDoc session_id None (Some fact) timestamp None
                         (Some "important_fact") None) ;;;
       store_facts_loop session_id rest)%py
  end.

Definition store_important_facts (session_id : string) (facts : list string)
  : M unit :=
  try_except (store_facts_loop session_id facts) (fun _ => ret tt).

Definition store_long_term_memory (session_id memory_type content : string)
  : M unit :=
  try_except
    (timestamp <- datetime_now ;;
     insert_one (mkDoc session_id None (Some content) timestamp None
                       (Some ("long_term_" ++ memory_type)%string) (Some true)))%py
    (fun _ => ret tt).

Definition summary_request (messages : list turn) : request :=
  mkReq "gpt-4o"
    [mkMsg "system"
       (Some "Summarize the key points and context from this conversation in 2-3 sentences.");
     mkMsg "user"
       (Some ("Conversation:" ++ PyStr.newline
              ++ PyStr.join PyStr.newline (map transcript_line (last_n 10 messages)))%string)]
    3.

Definition get_session_summary (session_id : string) : M (option string) :=
  try_except
    (messages <- retrieve_session_history session_id None ;;
     match messages with
     | [] => ret (Some "No previous conversation history.")
     | _ => chat_create E (summary_request messages)
     end)%py
    (fun _ => ret (Some "Unable to generate session summary.")).

Definition preferences_request (messages : list turn) : request :=
  mkReq "gpt-4o"
    [mkMsg "system"
       (Some "Extract user preferences and interests from this conversation. Return as JSON with categories like 'topics_of_interest', 'communication_style', 'preferred_detail_level', etc.");
     mkMsg "user"
       (Some ("Conversation:" ++ PyStr.newline
              ++ PyStr.join PyStr.newline (map transcript_line messages))%string)]
    3.

(** Lines 157-161: the inner [try] of [get_user_preferences]. *)
Definition decode_preferences (text : option string) : outcome pyval :=
  match text with
  | None => Raise (mkExn TypeError "the JSON object must be str, bytes or bytearray, not NoneType")
  | Some s =>
      match json_loads E s with
      | Ret preferences => Ret preferences
      | Raise e =>
          match exn_cls e with
          | JSONDecodeError => Ret (PDict [("raw_preferences", PStr s)])
          | _ => Raise e
          end
      end
  end.

Definition get_user_preferences (session_id : string) : M pyval :=
  try_except
    (messages <- retrieve_session_history session_id None ;;
     match messages with
     | [] => ret (PDict [])
     | _ =>
         text <- chat_create E (preferences_request messages) ;;
         lift (decode_preferences text)
     end)%py
    (fun _ => ret (PDict [])).

End Memory.

(* ================================================================== *)
(** * tools.py: the arithmetic evaluator *)
(* ================================================================== *)

(** [eval] on the text the calculator lets through.  The integer fragment
    of Python's expression grammar is modelled here: decimal literals,
    [+ - * / // **], unary signs and parentheses, on expressions of at most
    [fragment_max_len] characters whose values stay below
    [int_str_limit], so that none of CPython's bounds on nesting, size and
    printed digits is met.  Outside the fragment (a [.], a float result, a
    call, an empty tuple, a syntax error, a longer or larger expression)
    the answer is [host_eval]'s. *)
Module Calc.

Import Decimal.

Inductive token :=
| TNum (n : N)
| TPlus | TMinus | TStar | TPow | TSlash | TFloor | TLpar | TRpar.

Definition digit (c : ascii) : option (uint -> uint) :=
  match c with
  | "0" => Some D0 | "1" => Some D1 | "2" => Some D2 | "3" => Some D3
  | "4" => Some D4 | "5" => Some D5 | "6" => Some D6 | "7" => Some D7
  | "8" => Some D8 | "9" => Some D9
  | _ => None
  end%char.

Fixpoint all_zero (u : uint) : bool :=
  match u with
  | Nil => true
  | D0 u' => all_zero u'
  | _ => false
  end.

(** A decimal literal starts with a non-zero digit, or is made of zeros. *)
Definition literal_ok (u : uint) : bool :=
  match u with
  | Nil => false
  | D0 u' => all_zero u'
  | _ => true
  end.

(** The token of the literal read so far; [acc] holds its digits, last
    one first, and is [Nil] when no literal is being read. *)
Definition number_token (acc : uint) : option (list token) :=
  match acc with
  | Nil => Some []
  | _ =>
      let u := rev acc in
      if literal_ok u then Some [TNum (N.of_uint u)] else None
  end.

Definition emit (acc : uint) (tok : list token) (rest : option (list token))
  : option (list token) :=
  match number_token acc, rest with
  | Some a, Some r => Some (a ++ tok ++ r)
  | _, _ => None
  end.

Fixpoint lex (s : string) (acc : uint) : option (list token) :=
  match s with
  | EmptyString => number_token acc
  | String c t =>
      match digit c with
      | Some d => lex t (d acc)
      | None =>
          match c with
          | " " => emit acc [] (lex t Nil)
          | "+" => emit acc [TPlus] (lex t Nil)
          | "-" => emit acc [TMinus] (lex t Nil)
          | "(" => emit acc [TLpar] (lex t Nil)
          | ")" => emit acc [TRpar] (lex t Nil)
          | "*" =>
              match t with
              | String "*" t' => emit acc [TPow] (lex t' Nil)
              | _ => emit acc [TStar] (lex t Nil)
              end
          | "/" =>
              match t with
              | String "/" t' => emit acc [TFloor] (lex t' Nil)
              | _ => emit acc [TSlash] (lex t Nil)
              end
          | _ => None
          end%char
      end
  end.

Inductive binop := OAdd | OSub | OMul | ODiv | OFloor | OPow.

Inductive expr :=
| Num (n : N)
| Paren (e : expr)
| Pos (e : expr)
| Neg (e : expr)
| Bin (op : binop) (a b : expr).

(** Recursive descent along Python's grammar:
    sum: term (('+'|'-') term)*;  term: factor (('*'|'/'|'//') factor)*;
    factor: ('+'|'-') factor | power;  power: atom ['**' factor];
    atom: NUMBER | '(' sum ')'. *)
Fixpoint p_sum (fuel : nat) (ts : list token) : option (expr * list token) :=
  match fuel with
  | O => None
  | S f =>
      match p_term f ts with
      | Some (a, r) => p_sum_loop f a r
      | None => None
      end
  end
with p_sum_loop (fuel : nat) (a : expr) (ts : list token)
  : option (expr * list token) :=
  match fuel with
  | O => None
  | S f =>
      match ts with
      | TPlus :: r =>
          match p_term f r with
          | Some (b, r') => p_sum_loop f (Bin OAdd a b) r'
          | None => None
          end
      | TMinus :: r =>
          match p_term f r with
          | Some (b, r') => p_sum_loop f (Bin OSub a b) r'
          | None => None
          end
      | _ => Some (a, ts)
      end
  end
with p_term (fuel : nat) (ts : list token) : option (expr * list token) :=
  match fuel with
  | O => None
  | S f =>
      match p_factor f ts with
      | Some (a, r) => p_term_loop f a r
      | None => None
      end
  end
with p_term_loop (fuel : nat) (a : expr) (ts : list token)
  : option (expr * list token) :=
  match fuel with
  | O => None
  | S f =>
      match ts with
      | TStar :: r =>
          match p_factor f r with
          | Some (b, r') => p_term_loop f (Bin OMul a b) r'
          | None => None
          end
      | TSlash :: r =>
          match p_factor f r with
          | Some (b, r') => p_term_loop f (Bin ODiv a b) r'
          | None => None
          end
      | TFloor :: r =>
          match p_factor f r with
          | Some (b, r') => p_term_loop f (Bin OFloor a b) r'
          | None => None
          end
      | _ => Some (a, ts)
      end
  end
with p_factor (fuel : nat) (ts : list token) : option (expr * list token) :=
  match fuel with
  | O => None
  | S f =>
      match ts with
      | TPlus :: r =>
          match p_factor f r with
          | Some (a, r') => Some (Pos a, r')
          | None => None
          end
      | TMinus :: r =>
          match p_factor f r with
          | Some (a, r') => Some (Neg a, r')
          | None => None
          end
      | _ =>
          match p_atom f ts with
          | Some (a, TPow :: r) =>
              match p_factor f r with
              | Some (b, r') => Some (Bin OPow a b, r')
              | None => None
              end
          | other => other
          end
      end
  end
with p_atom (fuel : nat) (ts : list token) : option (expr * list token) :=
  match fuel with
  | O => None
  | S f =>
      match ts with
      | TNum n :: r => Some (Num n, r)
      | TLpar :: r =>
          match p_sum f r with
          | Some (e, TRpar :: r') => Some (Paren e, r')
          | _ => None
          end
      | _ => None
      end
  end.

(** Each call consumes a token within six steps of fuel. *)
Definition parse (ts : list token) : option expr :=
  match p_sum (6 * length ts + 6) ts with
  | Some (e, []) => Some e
  | _ => None
  end.

Definition int_str_limit : Z := 10 ^ 4300.
Definition fragment_max_len : nat := 100.

Inductive value :=
| VInt (z : Z)
| VRaise (e : exn)
| VOutside.

Definition bounded (z : Z) : value :=
  if Z.ltb (Z.abs z) int_str_limit then VInt z else VOutside.

Definition apply_binop (op : binop) (x y : Z) : value :=
  match op with
  | OAdd => bounded (x + y)
  | OSub => bounded (x - y)
  | OMul => bounded (x * y)
  | ODiv =>
      if Z.eqb y 0 then VRaise (mkExn ZeroDivisionError "division by zero")
      else VOutside                         (* a float *)
  | OFloor =>
      if Z.eqb y 0 then VOutside else bounded (x / y)
  | OPow =>
      if Z.ltb y 0 then VOutside            (* a float, or an error *)
      else bounded (x ^ y)
  end.

(** Operands are evaluated left to right. *)
Fixpoint eval (e : expr) : value :=
  match e with
  | Num n => bounded (Z.of_N n)
  | Paren e' => eval e'
  | Pos e' => eval e'
  | Neg e' =>
      match eval e' with
      | VInt z => bounded (- z)
      | v => v
      end
  | Bin op a b =>
      match eval a with
      | VInt x =>
          match eval b with
          | VInt y => apply_binop op x y
          | v => v
          end
      | v => v
      end
  end.

(** [eval(s)] within the fragment; [None] outside. *)
Definition eval_fragment (s : string) : option value :=
  if Nat.leb (String.length s) fragment_max_len then
    match lex s Nil with
    | Some ts =>
        match parse ts with
        | Some e => Some (eval e)
        | None => None
        end
    | None => None
    end
  else None.

End Calc.

Definition safe_chars : list ascii := PyStr.chars "0123456789+-*/.() ".

Definition dangerous_words : list string := ["import"; "exec"; "eval"; "__"].

(** [all(c in safe_chars for c in user_input)] *)
Definition all_safe_chars (user_input : string) : bool :=
  forallb (fun c => existsb (Ascii.eqb c) safe_chars) (PyStr.chars user_input).

(** [any(func in user_input.lower() for func in [...])] *)
Definition has_dangerous_word (user_input : string) : bool :=
  PyStr.any_in dangerous_words (PyStr.lower user_input).

Section Calculator.

Variable E : env.

(** [str(eval(user_input))] *)
Definition eval_and_print (user_input : string) : outcome string :=
  match Calc.eval_fragment user_input with
  | Some (Calc.VInt z) => Ret (PyStr.decimal z)
  | Some (Calc.VRaise e) => Raise e
  | _ => host_eval E user_input
  end.

Definition calculator_tool (user_input : string) : M string :=
  try_except
    (if negb (all_safe_chars user_input)
     then ret "Error: Invalid characters in mathematical expression"
     else if has_dangerous_word user_input
     then ret "Error: Potentially unsafe expression"
     else lift (eval_and_print user_input))
    (fun e => ret ("Error: " ++ exn_msg e)%string).

End Calculator.

(* ================================================================== *)
(** * tools.py: retrieval *)
(* ================================================================== *)

(** [$project: {_id: 0, text: 1, metadata: 1}]: what a search hands out
    carries no [search_type]. *)
Definition projected (d : rdoc) : rdoc := mkRdoc (d_text d) (d_metadata d) None.

Definition tagged (tag : search_type) (d : rdoc) : rdoc :=
  mkRdoc (d_text d) (d_metadata d) (Some tag).

(** Lines 139-143 and 146-150: one pass over a result list; [acc] holds
    [all_results] and [seen_texts]. *)
Fixpoint add_results (tag : search_type) (results : list rdoc)
    (acc : list rdoc * list string) : outcome (list rdoc * list string) :=
  match results with
  | [] => Ret acc
  | result :: rest =>
      match d_text result with
      | None => Raise (mkExn KeyError "'text'")
      | Some t =>
          if existsb (String.eqb t) (snd acc)
          then add_results tag rest acc
          else add_results tag rest (fst acc ++ [tagged tag result], t :: snd acc)
      end
  end.

Definition web_search_tool (query : string) : string :=
  ("Web search results for: " ++ query ++ "

Note: This is a demo environment. In a production system, this would integrate with a real web search API like Google Search API or Bing API to provide current, real-time information.

For MongoDB-related questions, please try asking about:
- MongoDB Atlas features
- Vector search capabilities  
- Database performance
- Recent acquisitions or financial information

The knowledge base contains MongoDB earnings reports and technical documentation that can provide detailed answers to these topics.")%string.

Section Retrieval.

Variable E : env.

Definition embeddings_create (text : string) : M (list float) :=
  fun w => (embedding_reply E (w_tick w) text, called w).

Definition aggregate (query_embedding : list float) (limit : nat) : M (list rdoc) :=
  fun w => (match vector_reply E (w_tick w) query_embedding limit with
            | Ret results => Ret (map projected results)
            | Raise e => Raise e
            end, called w).

Definition text_find (user_input : string) (limit : nat) : M (list rdoc) :=
  fun w => (match text_reply E (w_tick w) user_input limit with
            | Ret results => Ret (map projected results)
            | Raise e => Raise e
            end, called w).

(** ingest_data.py, [get_embedding]. *)
Definition get_embedding (text : string) : M (option (list float)) :=
  if PyStr.is_blank text then ret None
  else
    let text := if N.ltb 8000 (N.of_nat (String.length text))
                then String.substring 0 (N.to_nat 8000) text else text in
    try_except
      (embedding <- embeddings_create (PyStr.strip text) ;; ret (Some embedding))%py
      (fun _ => ret None).

Definition vector_search_tool (user_input : string) (limit : nat) : M (list rdoc) :=
  if PyStr.is_blank user_input then ret []
  else
    try_except
      (query_embedding <- get_embedding user_input ;;
       match query_embedding with
       | None => ret []
       | Some [] => ret []
       | Some q => aggregate q limit
       end)%py
      (fun _ => ret []).

(** Lines 125-152: the body of the [try]. *)
Definition hybrid_combine (user_input : string) (limit : nat) : M (list rdoc) :=
  (vector_results <- vector_search_tool user_input limit ;;
   with_vector <- lift (add_results Vector vector_results ([], [])) ;;
   text_results <- text_find user_input limit ;;
   with_text <- lift (add_results Text text_results with_vector) ;;
   ret (firstn limit (fst with_text)))%py.

Definition hybrid_search_tool (user_input : string) (limit : nat) : M (list rdoc) :=
  try_except (hybrid_combine user_input limit)
             (fun _ => vector_search_tool user_input limit).

End Retrieval.

(* ================================================================== *)
(** * planning.py: the response synthesizer and the orchestrator *)
(* ================================================================== *)

Definition is_system (msg : message) : bool := String.eqb (role msg) "system".

(** Lines 335-342: where the system instruction goes. *)
Definition with_system_message (messages : list message) (system_message : string)
  : list message :=
  let system_msg := mkMsg "system" (Some system_message) in
  if existsb is_system messages
  then messages ++ [system_msg]
  else [system_msg] ++ messages.

(** [f"Document {i+1}:\n{doc['text']}" for i, doc in enumerate(context)] *)
Fixpoint document_blocks (i : nat) (context : list rdoc) : outcome (list string) :=
  match context with
  | [] => Ret []
  | doc :: rest =>
      match d_text doc with
      | None => Raise (mkExn KeyError "'text'")
      | Some t =>
          obind (document_blocks (S i) rest) (fun blocks =>
          Ret (("Document " ++ PyStr.decimal (Z.of_nat (S i)) ++ ":"
                ++ PyStr.newline ++ t)%string :: blocks))
      end
  end.

Definition blank_line : string := (PyStr.newline ++ PyStr.newline)%string.

Definition has_type (tag : search_type) (doc : rdoc) : bool :=
  match d_search_type doc, tag with
  | Some Vector, Vector => true
  | Some Text, Text => true
  | _, _ => false
  end.

Definition vector_system_message (context_text : string) : string :=
  ("
Answer the user's question based on the retrieved context and conversation history.

Instructions:
1. First, understand what specific information the user is requesting
2. Then, locate the most relevant details in the context provided
3. Finally, provide a clear, accurate response that directly addresses the question

If the current question builds on previous exchanges, maintain continuity in your answer.
Use the provided context to give helpful, informative responses. If the context contains relevant information, synthesize it to answer the question. Only say 'I DON'T KNOW' if the context truly contains no relevant information at all.

Context:
" ++ context_text ++ "
")%string.

Definition web_system_message (search_results : string) : string :=
  ("
Answer the user's question based on the web search results and conversation history.

Web Search Results:
" ++ search_results ++ "

Provide a helpful response based on the search results. If the search results don't contain relevant information, let the user know.
")%string.

Definition hybrid_system_message (context_text : string) : string :=
  ("
Answer the user's question based on the comprehensive search results (both semantic and keyword search).

Instructions:
1. Synthesize information from both semantic and keyword search results
2. Provide a comprehensive answer that addresses the user's question
3. If there are conflicting information, mention the different perspectives
4. Use the provided context to give helpful, informative responses. Synthesize the information to answer the question comprehensively.

Search Results:
" ++ context_text ++ "
")%string.

Section Planning.

Variable E : env.

Definition get_llm_response (messages : list message) (system_message : string)
  : M (option string) :=
  try_except
    (chat_create E (mkReq OPENAI_MODEL (with_system_message messages system_message) 7))
    (fun e => ret (Some ("Error generating response: " ++ exn_msg e)%string)).

Definition process_vector_search_response
    (messages : list message) (context : list rdoc) (user_input : string)
  : M (option string) :=
  match context with
  | [] => ret (Some "I couldn't find relevant information in the knowledge base to answer your question.")
  | _ =>
      (blocks <- lift (document_blocks 0 context) ;;
       get_llm_response messages
         (vector_system_message (PyStr.join blank_line blocks)))%py
  end.

Definition process_web_search_response
    (messages : list message) (search_results : string) (user_input : string)
  : M (option string) :=
  get_llm_response messages (web_system_message search_results).

Definition process_hybrid_search_response
    (messages : list message) (context : list rdoc) (user_input : string)
  : M (option string) :=
  match context with
  | [] => ret (Some "I couldn't find relevant information to answer your question.")
  | _ =>
      let vector_results := filter (has_type Vector) context in
      let text_results := filter (has_type Text) context in
      (semantic <-
         match vector_results with
         | [] => ret ""
         | _ =>
             blocks <- lift (document_blocks 0 vector_results) ;;
             ret ("Semantic Search Results:" ++ PyStr.newline
                  ++ PyStr.join blank_line blocks)%string
         end ;;
       keyword <-
         match text_results with
         | [] => ret ""
         | _ =>
             blocks <- lift (document_blocks 0 text_results) ;;
             ret (blank_line ++ "Keyword Search Results:" ++ PyStr.newline
                  ++ PyStr.join blank_line blocks)%string
         end ;;
       get_llm_response messages (hybrid_system_message (semantic ++ keyword)%string))%py
  end.

(** Lines 179-210: what a turn gathers before it dispatches; the third
    component is [llm_input], the conversation list handed to the
    synthesizer. *)
Definition gather_turn (session_id user_input : string)
  : M (pyval * pyval * list message) :=
  (store_chat_message E session_id "user" (Some user_input) None ;;;
   session_history <- retrieve_session_history E session_id None ;;
   session_summary <- get_session_summary E session_id ;;
   user_preferences <- get_user_preferences E session_id ;;
   ' (tool, tool_input) <- tool_selector E user_input session_history ;;
   let summary_part :=
     match session_summary with
     | Some s =>
         if (negb (String.eqb s "")
             && negb (String.eqb s "No previous conversation history."))%bool
         then [mkMsg "system" (Some ("Previous conversation summary: " ++ s)%string)]
         else []
     | None => []
     end in
   let llm_input :=
     summary_part ++ clean_session_history session_history
     ++ [mkMsg "user" (Some user_input)] in
   ret (tool, tool_input, llm_input))%py.

(** The tools are typed on [str], and the selector hands a value that is
    not a [str] to no tool but [web_search_tool]; elsewhere the model
    raises on one. *)
Definition str_arg (v : pyval) : M string :=
  match v with
  | PStr s => ret s
  | _ => raise (mkExn TypeError "expected str")
  end.

(** [f"{query}"] *)
Definition format_arg (v : pyval) : string :=
  match v with
  | PStr s => s
  | _ => py_str E v
  end.

(** Lines 213-235. *)
Definition dispatch (tool tool_input : pyval) (llm_input : list message)
    (user_input : string) : M (option string) :=
  if Py.eq_str tool "vector_search_tool" then
    (q <- str_arg tool_input ;;
     context <- vector_search_tool E q 5 ;;
     process_vector_search_response llm_input context user_input)%py
  else if Py.eq_str tool "calculator_tool" then
    (q <- str_arg tool_input ;;
     response <- calculator_tool E q ;;
     ret (Some response))%py
  else if Py.eq_str tool "web_search_tool" then
    process_web_search_response llm_input
      (web_search_tool (format_arg tool_input)) user_input
  else if Py.eq_str tool "document_analysis_tool" then
    ret (Some "Please provide a document to analyze. You can paste the text content here.")
  else if Py.eq_str tool "hybrid_search_tool" then
    (q <- str_arg tool_input ;;
     context <- hybrid_search_tool E q 5 ;;
     process_hybrid_search_response llm_input context user_input)%py
  else
    get_llm_response llm_input
      "You are a helpful AI assistant. Respond to the user's prompt based on the conversation history.".

Definition generate_response (session_id user_input : string) : M (option string) :=
  (' (tool, tool_input, llm_input) <- gather_turn session_id user_input ;;
   response <- dispatch tool tool_input llm_input user_input ;;
   store_chat_message E session_id "assistant" response None ;;;
   ret response)%py.

End Planning.

(* ================================================================== *)
(** * memory.py: facts, long-term notes and clearing a session *)
(* ================================================================== *)

(** [{"session_id": session_id, "type": "important_fact"}] *)
Definition is_important_fact (session_id : string) (d : mdoc) : bool :=
  (String.eqb (m_session_id d) session_id
   && match m_type d with
      | Some t => String.eqb t "important_fact"
      | None => false
      end)%bool.

(** [{"type": f"long_term_{memory_type}", "persistent": True}] *)
Definition is_long_term (memory_type : string) (d : mdoc) : bool :=
  (match m_type d with
   | Some t => String.eqb t ("long_term_" ++ memory_type)
   | None => false
   end
   && match m_persistent d with
      | Some true => true
      | _ => false
      end)%bool.

(** [find(...).sort("timestamp", -1)]: descending, by insertion. *)
Fixpoint insert_by_timestamp_desc (d : mdoc) (l : list mdoc) : list mdoc :=
  match l with
  | [] => [d]
  | x :: r =>
      if Z.leb (m_timestamp x) (m_timestamp d) then d :: l
      else x :: insert_by_timestamp_desc d r
  end.

Definition sort_by_timestamp_desc (l : list mdoc) : list mdoc :=
  fold_right insert_by_timestamp_desc [] l.

Section MemoryStore.

Variable E : env.

(** [memory_collection.find(query).sort("timestamp", 1)] for the query of
    [retrieve_important_facts], read when the cursor is iterated. *)
Definition find_important_facts (session_id : string) : M (list mdoc) :=
  fun w =>
    if db_down E (w_tick w)
    then (Raise (mkExn ServiceError "memory collection unreachable"), called w)
    else (Ret (sort_by_timestamp
                 (filter (is_important_fact session_id) (w_memory w))),
          called w).

Definition retrieve_important_facts (session_id : string)
  : M (list (option string)) :=
  try_except
    (cursor <- find_important_facts session_id ;;
     ret (map m_content cursor))%py
    (fun _ => ret []).

(** [memory_collection.delete_many({"session_id": session_id})]; the
    result is [deleted_count]. *)
Definition delete_many (session_id : string) : M nat :=
  fun w =>
    if db_down E (w_tick w)
    then (Raise (mkExn ServiceError "memory collection unreachable"), called w)
    else (Ret (length (filter (fun d => String.eqb (m_session_id d) session_id)
                              (w_memory w))),
          mkWorld (filter (fun d => negb (String.eqb (m_session_id d) session_id))
                          (w_memory w))
                  (w_chat_log w) (S (w_tick w))).

Definition clear_session_memory (session_id : string) : M bool :=
  try_except
    (deleted_count <- delete_many session_id ;;
     ret (Nat.ltb 0 deleted_count))%py
    (fun _ => ret false).

(** [find(...).sort("timestamp", -1).limit(limit)]; a limit of [0] is no
    limit. *)
Definition find_long_term (memory_type : string) (limit : nat) : M (list mdoc) :=
  fun w =>
    if db_down E (w_tick w)
    then (Raise (mkExn ServiceError "memory collection unreachable"), called w)
    else (Ret (apply_limit (Some limit)
                 (sort_by_timestamp_desc
                    (filter (is_long_term memory_type) (w_memory w)))),
          called w).

Definition retrieve_long_term_memory (memory_type : string) (limit : nat)
  : M (list mdoc) :=
  try_except (find_long_term memory_type limit) (fun _ => ret []).

End MemoryStore.

(* ================================================================== *)
(** * tools.py: document analysis *)
(* ================================================================== *)

Definition analysis_request (document_text : string) : request :=
  mkReq "gpt-4o"
    [mkMsg "system"
       (Some "Analyze the following document and extract key information including: main topics, key facts, important numbers, and summary.");
     mkMsg "user"
       (Some ("Analyze this document:" ++ PyStr.newline ++ PyStr.newline
              ++ document_text)%string)]
    3.

(** A content as a Python value. *)
Definition content_value (c : option string) : pyval :=
  match c with
  | Some s => PStr s
  | None => PNone
  end.

Section DocumentAnalysis.

Variable E : env.

Definition document_analysis_tool (document_text : string) : M pyval :=
  try_except
    (analysis <- chat_create E (analysis_request document_text) ;;
     ret (PDict
            [("analysis", content_value analysis);
             ("word_count",
              PInt (Z.of_nat (length (PyStr.split_whitespace document_text ""))));
             ("char_count", PInt (Z.of_nat (String.length document_text)))]))%py
    (fun e => ret (PDict [("error", PStr ("Analysis failed: " ++ exn_msg e)%string)])).

End DocumentAnalysis.

(* ================================================================== *)
(** * planning.py: conversation analytics *)
(* ================================================================== *)

Definition topics_request (messages : list turn) : request :=
  mkReq OPENAI_MODEL
    [mkMsg "system"
       (Some "Extract the main topics discussed in this conversation. Return as a simple list.");
     mkMsg "user"
       (Some ("Conversation:" ++ PyStr.newline
              ++ PyStr.join PyStr.newline (map transcript_line messages))%string)]
    3.

(** Lines 419-428: the label of one message, [None] when it asks nothing. *)
Definition question_type (content : string) : option string :=
  let content := PyStr.lower content in
  if PyStr.contains "?" content then
    Some (if PyStr.contains "what" content then "factual"
          else if PyStr.contains "how" content then "procedural"
          else if PyStr.contains "why" content then "explanatory"
          else "general")
  else None.

(** Lines 417-428: the loop; [msg["content"].lower()] is an AttributeError
    on a content that is [None]. *)
Fixpoint question_types_loop (user_messages : list turn) (question_types : list string)
  : outcome (list string) :=
  match user_messages with
  | [] => Ret question_types
  | msg :: rest =>
      match t_content msg with
      | None => Raise (mkExn AttributeError "'NoneType' object has no attribute 'lower'")
      | Some content =>
          question_types_loop rest
            (match question_type content with
             | Some label => question_types ++ [label]
             | None => question_types
             end)
      end
  end.

(** [question_types.count(x)] *)
Definition count (l : list string) (x : string) : nat :=
  length (filter (String.eqb x) l).

(** [max(candidates, key=key)] past its first element: a later candidate
    wins only with a larger key. *)
Fixpoint max_by (key : string -> nat) (best : string) (candidates : list string)
  : string :=
  match candidates with
  | [] => best
  | x :: rest =>
      if Nat.ltb (key best) (key x) then max_by key x rest
      else max_by key best rest
  end.

Section Analytics.

Variable E : env.

(** The order in which [set(l)] is iterated; it depends on the hashes of
    the strings, which change from one process to the next. *)
Variable set_iter : list string -> list string.

Definition extract_topics (messages : list turn) : M (list string) :=
  try_except
    (text <- chat_create E (topics_request messages) ;;
     match text with
     | Some s => ret (PyStr.split (ascii_of_nat 10) s)
     | None => raise (mkExn AttributeError "'NoneType' object has no attribute 'split'")
     end)%py
    (fun _ => ret ["Unable to extract topics"]).

(** [max(set(question_types), key=question_types.count)] *)
Definition most_common_type (question_types : list string) : outcome string :=
  match set_iter question_types with
  | [] => Raise (mkExn ValueError "max() arg is an empty sequence")
  | first :: rest => Ret (max_by (count question_types) first rest)
  end.

Definition analyze_question_patterns (user_messages : list turn) : outcome pyval :=
  match user_messages with
  | [] => Ret (PDict [])
  | _ =>
      obind (question_types_loop user_messages []) (fun question_types =>
      obind (match question_types with
             | [] => Ret "none"
             | _ => most_common_type question_types
             end) (fun most_common =>
      Ret (PDict
             [("total_questions", PInt (Z.of_nat (length question_types)));
              ("question_types", PList (map PStr question_types));
              ("most_common_type", PStr most_common)])))
  end.

Definition has_role (r : string) (msg : turn) : bool := String.eqb (t_role msg) r.

Definition analyze_conversation_context (session_id : string) : M pyval :=
  try_except
    (session_history <- retrieve_session_history E session_id None ;;
     match session_history with
     | [] => ret (PDict [("status", PStr "no_history")])
     | _ =>
         let user_messages := filter (has_role "user") session_history in
         let assistant_messages := filter (has_role "assistant") session_history in
         conversation_topics <- extract_topics session_history ;;
         user_question_patterns <- lift (analyze_question_patterns user_messages) ;;
         ret (PDict
                [("total_messages", PInt (Z.of_nat (length session_history)));
                 ("user_messages", PInt (Z.of_nat (length user_messages)));
                 ("assistant_messages", PInt (Z.of_nat (length assistant_messages)));
                 ("conversation_topics", PList (map PStr conversation_topics));
                 ("user_question_patterns", user_question_patterns)])
     end)%py
    (fun e => ret (PDict [("error", PStr (exn_msg e))])).

End Analytics.

(* ================================================================== *)
(** * ingest_data.py: custom documents *)
(* ================================================================== *)

(** A document as it is written to the vector collection. *)
Record vdoc := mkVdoc {
  v_text : string;
  v_embedding : list float;
  v_source : string;
  v_chunk_id : nat
}.

Section Ingest.

Variable E : env.

(** [vector_collection.insert_many(docs)] at the n-th external call: the
    number of ids it reports.  The world does not hold the vector
    collection, which is read through the search oracles only. *)
Variable insert_many_reply : nat -> list vdoc -> outcome nat.

Definition insert_many (docs : list vdoc) : M nat :=
  fun w => (insert_many_reply (w_tick w) docs, called w).

(** Lines 147-158: the loop, from index [i] on. *)
Fixpoint custom_docs_to_insert (i : nat) (documents : list string)
    (docs_to_insert : list vdoc) : M (list vdoc) :=
  match documents with
  | [] => ret docs_to_insert
  | doc_text :: rest =>
      (embedding <- get_embedding E doc_text ;;
       custom_docs_to_insert (S i) rest
         (match embedding with
          | Some (x :: v) =>
              docs_to_insert ++ [mkVdoc doc_text (x :: v) "custom_document" i]
          | _ => docs_to_insert
          end))%py
  end.

Definition add_custom_documents (documents : list string) : M bool :=
  (docs_to_insert <- custom_docs_to_insert 0 documents [] ;;
   match docs_to_insert with
   | [] => ret false
   | _ => insert_many docs_to_insert ;;; ret true
   end)%py.

End Ingest.

(* ================================================================== *)
(** * Notions the statements use *)
(* ================================================================== *)

(** The turn a document that has a role projects to. *)
Definition as_turn (d : mdoc) : turn :=
  mkTurn (match m_role d with Some r => r | None => "" end)
         (m_content d) (m_timestamp d)
         (match m_metadata d with Some m => m | None => [] end).

Definition in_session (session_id : string) (d : mdoc) : bool :=
  String.eqb (m_session_id d) session_id.

(** Every document of the session is a chat turn. *)
Definition turns_only (session_id : string) (docs : list mdoc) : Prop :=
  forall d, In d docs -> in_session session_id d = true -> m_role d <> None.

Definition by_timestamp (a b : turn) : Prop := (t_timestamp a <= t_timestamp b)%Z.

Definition doc_by_timestamp (a b : mdoc) : Prop := (m_timestamp a <= m_timestamp b)%Z.

(** [m] placed at index [k] of [l]. *)
Definition placed_at {A} (k : nat) (m : A) (l : list A) : list A :=
  firstn k l ++ m :: skipn k l.

Definition message_eqb (a b : message) : bool :=
  (String.eqb (role a) (role b)
   && match content a, content b with
      | Some x, Some y => String.eqb x y
      | None, None => true
      | _, _ => false
      end)%bool.

(** How many times a message occurs in a conversation list. *)
Definition occurrences (m : message) (l : list message) : nat :=
  length (filter (message_eqb m) l).


Definition has_text (t : string) (d : rdoc) : bool :=
  match d_text d with
  | Some t' => String.eqb t' t
  | None => false
  end.

(** Deduplication by exact text equality, the first occurrence winning:
    a document is kept when its text is not in [seen] and was not met
    before it. *)
Fixpoint first_by_text (seen : list string) (docs : list rdoc) : list rdoc :=
  match docs with
  | [] => []
  | d :: rest =>
      match d_text d with
      | Some t =>
          if existsb (String.eqb t) seen then first_by_text seen rest
          else d :: first_by_text (t :: seen) rest
      | None => first_by_text seen rest
      end
  end.

Fixpoint texts_of (docs : list rdoc) : list string :=
  match docs with
  | [] => []
  | d :: rest =>
      match d_text d with
      | Some t => t :: texts_of rest
      | None => texts_of rest
      end
  end.


(** An error text of the calculator. *)
Definition is_error_text (r : string) : bool := String.prefix "Error: " r.

(** The characters the calculator is said to accept: the safe ones and
    whitespace. *)
Definition digit_operator_or_space (c : ascii) : bool :=
  (existsb (Ascii.eqb c) safe_chars || PyStr.is_space c)%bool.


(** Expressions as Python's grammar shapes them, and their text. *)
Module Syntax.

Import Calc.

Definition op_token (op : binop) : token :=
  match op with
  | OAdd => TPlus | OSub => TMinus | OMul => TStar
  | ODiv => TSlash | OFloor => TFloor | OPow => TPow
  end.

Fixpoint tokens (e : expr) : list token :=
  match e with
  | Num n => [TNum n]
  | Paren e' => TLpar :: tokens e' ++ [TRpar]
  | Pos e' => TPlus :: tokens e'
  | Neg e' => TMinus :: tokens e'
  | Bin op a b => tokens a ++ op_token op :: tokens b
  end.

Definition is_sum_op (op : binop) : bool :=
  match op with OAdd | OSub => true | _ => false end.

Definition is_term_op (op : binop) : bool :=
  match op with OMul | ODiv | OFloor => true | _ => false end.

(** [fits l e]: [e] is a sum (l = 0), a term (1), a factor (2) or an atom
    (3) of the grammar; a binary operator takes a left operand of its own
    level and a right operand of the next, [**] an atom and a factor. *)
Fixpoint fits (l : nat) (e : expr) : bool :=
  match e with
  | Num _ => true
  | Paren e' => fits 0 e'
  | Pos e' | Neg e' => Nat.leb l 2 && fits 2 e'
  | Bin op a b =>
      match op with
      | OAdd | OSub => Nat.eqb l 0 && fits 0 a && fits 1 b
      | OMul | ODiv | OFloor => Nat.leb l 1 && fits 1 a && fits 2 b
      | OPow => Nat.leb l 2 && fits 3 a && fits 2 b
      end
  end%bool.

Definition render_token (t : token) : string :=
  match t with
  | TNum n => NilEmpty.string_of_uint (N.to_uint n)
  | TPlus => "+" | TMinus => "-" | TStar => "*" | TPow => "**"
  | TSlash => "/" | TFloor => "//" | TLpar => "(" | TRpar => ")"
  end.

(** The tokens of [e], one space between two. *)
Definition render (e : expr) : string :=
  PyStr.join " " (map render_token (tokens e)).

(** The leftmost operand of a chain of operators [p], what follows it,
    and the chain rebuilt on another leftmost operand. *)
Fixpoint head (p : binop -> bool) (e : expr) : expr :=
  match e with
  | Bin op a b => if p op then head p a else e
  | _ => e
  end.

Fixpoint tail (p : binop -> bool) (e : expr) : list token :=
  match e with
  | Bin op a b => if p op then tail p a ++ op_token op :: tokens b else []
  | _ => []
  end.

Fixpoint plug (p : binop -> bool) (acc e : expr) : expr :=
  match e with
  | Bin op a b => if p op then Bin op (plug p acc a) b else acc
  | _ => acc
  end.

(** Fuel that parses [e], up to the level's constant. *)
Fixpoint cost (e : expr) : nat :=
  match e with
  | Num _ => 0
  | Paren e' => cost e' + 4
  | Pos e' | Neg e' => cost e' + 1
  | Bin _ a b => cost a + cost b + 4
  end.

(** The parser of level [l] stops in front of [rest]. *)
Definition stops (l : nat) (rest : list token) : bool :=
  match rest with
  | TPow :: _ => false
  | (TStar | TSlash | TFloor) :: _ => Nat.leb 2 l
  | (TPlus | TMinus) :: _ => Nat.leb 1 l
  | _ => true
  end.

End Syntax.


(** What it is for the parser to accept an expression at each level. *)
Module Complete.

Import Calc Syntax.

Definition parses_atom (e : expr) : Prop :=
  forall rest f, cost e + 1 <= f -> p_atom f (tokens e ++ rest) = Some (e, rest).

Definition parses_factor (e : expr) : Prop :=
  forall rest f, stops 2 rest = true -> cost e + 2 <= f ->
    p_factor f (tokens e ++ rest) = Some (e, rest).

Definition parses_term (e : expr) : Prop :=
  forall rest f, stops 1 rest = true -> cost e + 3 <= f ->
    p_term f (tokens e ++ rest) = Some (e, rest).

Definition parses_sum (e : expr) : Prop :=
  forall rest f, stops 0 rest = true -> cost e + 4 <= f ->
    p_sum f (tokens e ++ rest) = Some (e, rest).

(** The loop of [p_term], started on [acc] in front of the chain of [e],
    ends as it does on the rebuilt chain in front of [rest]. *)
Definition term_chain (e : expr) : Prop :=
  forall acc rest F F' r, stops 2 rest = true ->
    p_term_loop F (plug is_term_op acc e) rest = Some r ->
    F + (cost e - cost (head is_term_op e)) <= F' ->
    p_term_loop F' acc (tail is_term_op e ++ rest) = Some r.

Definition sum_chain (e : expr) : Prop :=
  forall acc rest F F' r, stops 1 rest = true ->
    p_sum_loop F (plug is_sum_op acc e) rest = Some r ->
    F + (cost e - cost (head is_sum_op e)) <= F' ->
    p_sum_loop F' acc (tail is_sum_op e ++ rest) = Some r.

Definition is_factor_shape (e : expr) : bool :=
  match e with
  | Bin op _ _ => negb (is_term_op op || is_sum_op op)
  | _ => true
  end.

End Complete.

(** The record [store_important_facts] writes for one fact at clock
    reading [tick], and the records of a list of facts, two external
    calls apart. *)
Definition fact_doc (E : env) (session_id fact : string) (tick : nat) : mdoc :=
  mkDoc session_id None (Some fact) (now E tick) None (Some "important_fact") None.

Fixpoint fact_docs (E : env) (session_id : string) (facts : list string) (tick : nat)
  : list mdoc :=
  match facts with
  | [] => []
  | fact :: rest => fact_doc E session_id fact tick :: fact_docs E session_id rest (S (S tick))
  end.

(** The record [store_long_term_memory] writes. *)
Definition long_term_doc (E : env) (session_id memory_type content : string) (tick : nat)
  : mdoc :=
  mkDoc session_id None (Some content) (now E tick) None
        (Some ("long_term_" ++ memory_type)%string) (Some true).

Definition newest_first (a b : mdoc) : Prop := (m_timestamp b <= m_timestamp a)%Z.

(** The labels of the messages that ask something, in order. *)
Definition question_labels (user_messages : list turn) : list string :=
  flat_map (fun msg =>
              match t_content msg with
              | Some content =>
                  match question_type content with
                  | Some label => [label]
                  | None => []
                  end
              | None => []
              end) user_messages.

Definition all_space (s : string) : bool := forallb PyStr.is_space (PyStr.chars s).

(** The text [get_embedding] sends for [text]: cut to 8000 characters,
    then stripped. *)
Definition embedded_text (text : string) : string :=
  PyStr.strip (if N.ltb 8000 (N.of_nat (String.length text))
               then String.substring 0 (N.to_nat 8000) text else text).

(** [l[i]] *)
Definition at_index (l : list string) (i : nat) : option string := nth_error l i.

Definition chunk_ids_increase (a b : vdoc) : Prop := v_chunk_id a < v_chunk_id b.

(** [w'] holds the collection of [w], and its log with [requests] after it. *)
Definition reads_only (w w' : world) (requests : list request) : Prop :=
  w_memory w' = w_memory w /\ w_chat_log w' = w_chat_log w ++ requests.

(** The record [store_chat_message] writes, without metadata, at clock
    reading [tick]. *)
Definition turn_doc (E : env) (session_id role : string) (content : option string)
    (tick : nat) : mdoc :=
  mkDoc session_id (Some role) content (now E tick) (Some []) None None.

(** Every document the vector index hands out has a text. *)
Definition vector_index_has_texts (E : env) : Prop :=
  forall n query limit docs,
    vector_reply E n query limit = Ret docs ->
    forall d, In d docs -> d_text d <> None.

(** The tools that take a [str]. *)
Definition takes_str (tool : pyval) : bool :=
  (Py.eq_str tool "vector_search_tool" || Py.eq_str tool "calculator_tool"
   || Py.eq_str tool "hybrid_search_tool")%bool.

(** A request that carries the instruction of [get_user_preferences]
    at its temperature. *)
Definition is_preferences_request (rq : request) : bool :=
  (Nat.eqb (rq_temperature_tenths rq) 3
   && match rq_messages rq with
      | instruction :: _ =>
          message_eqb instruction
            (mkMsg "system"
               (Some "Extract user preferences and interests from this conversation. Return as JSON with categories like 'topics_of_interest', 'communication_style', 'preferred_detail_level', etc."))
      | [] => false
      end)%bool.

(** The environment [E] with another generation service. *)
Definition with_chat_reply (chat : nat -> request -> outcome (option string)) (E : env)
  : env :=
  mkEnv chat (embedding_reply E) (vector_reply E) (text_reply E) (db_down E) (now E)
        (json_loads E) (py_str E) (host_eval E) (system_prompt E).

(** Two environments that differ at most in what the generation service
    answers to such requests. *)
Definition same_but_preferences (E1 E2 : env) : Prop :=
  (forall n rq, is_preferences_request rq = false -> chat_reply E1 n rq = chat_reply E2 n rq)
  /\ embedding_reply E1 = embedding_reply E2
  /\ vector_reply E1 = vector_reply E2
  /\ text_reply E1 = text_reply E2
  /\ db_down E1 = db_down E2
  /\ now E1 = now E2
  /\ json_loads E1 = json_loads E2
  /\ py_str E1 = py_str E2
  /\ host_eval E1 = host_eval E2
  /\ system_prompt E1 = system_prompt E2.

(** What an expression is worth, as integer arithmetic has it, and how
    its text may be laid out. *)
Module Meaning.

Import Calc Syntax.

(** The integer an expression denotes: [//] rounds towards minus
    infinity, [**] is right-associative by the grammar and takes a
    non-negative exponent here; [None] where the value is no integer
    ([/], a negative exponent) or there is none ([//] by zero). *)
Fixpoint value (e : expr) : option Z :=
  match e with
  | Num n => Some (Z.of_N n)
  | Paren e' | Pos e' => value e'
  | Neg e' => option_map Z.opp (value e')
  | Bin op a b =>
      match value a, value b with
      | Some x, Some y =>
          match op with
          | OAdd => Some (x + y)%Z
          | OSub => Some (x - y)%Z
          | OMul => Some (x * y)%Z
          | ODiv => None
          | OFloor => if Z.eqb y 0 then None else Some (Z.div x y)
          | OPow => if Z.ltb y 0 then None else Some (Z.pow x y)
          end
      | _, _ => None
      end
  end.

Definition below_limit (z : Z) : bool := Z.ltb (Z.abs z) int_str_limit.

(** The expression and each of its parts denote an integer below
    [int_str_limit]. *)
Fixpoint in_range (e : expr) : bool :=
  (match value e with
   | Some z => below_limit z
   | None => false
   end
   && match e with
      | Num _ => true
      | Paren e' | Pos e' | Neg e' => in_range e'
      | Bin _ a b => in_range a && in_range b
      end)%bool.

Fixpoint spaces (n : nat) : string :=
  match n with
  | O => EmptyString
  | S k => String " " (spaces k)
  end.

(** The tokens in a row, each followed by as many spaces as [gaps] says
    (none where [gaps] ends). *)
Fixpoint layout (ts : list token) (gaps : list nat) : string :=
  match ts with
  | [] => EmptyString
  | t :: rest => (render_token t ++ spaces (hd 0 gaps) ++ layout rest (tl gaps))%string
  end.

(** The text of [e] after [lead] spaces, with [gaps] between its tokens. *)
Definition written (lead : nat) (gaps : list nat) (e : expr) : string :=
  (spaces lead ++ layout (tokens e) gaps)%string.

(** Two tokens that read as something else when nothing parts them. *)
Definition glued (t t' : token) : bool :=
  match t, t' with
  | TNum _, TNum _ => true
  | TStar, (TStar | TPow) => true
  | TSlash, (TSlash | TFloor) => true
  | _, _ => false
  end.

Fixpoint no_glue (ts : list token) : bool :=
  match ts with
  | t :: ((t' :: _) as rest) => (negb (glued t t') && no_glue rest)%bool
  | _ => true
  end.

(** A text that starts no literal. *)
Definition parts (s : string) : bool :=
  match s with
  | EmptyString => true
  | String c _ => match digit c with Some _ => false | None => true end
  end.

Definition opens (t : token) : bool :=
  match t with
  | TNum _ | TLpar | TPlus | TMinus => true
  | _ => false
  end.

Definition closes (t : token) : bool :=
  match t with
  | TNum _ | TRpar => true
  | _ => false
  end.

End Meaning.

(** The embedding calls [add_custom_documents] has made before it comes
    to the document at position [k]: one for each earlier document that
    is not blank. *)
Definition calls_before (documents : list string) (k : nat) : nat :=
  length (filter (fun t => negb (PyStr.is_blank t)) (firstn k documents)).

(** The document at position [k] is one [add_custom_documents], started
    at clock reading [tick], gets the non-empty embedding [e] for. *)
Definition embedded_at (E : env) (tick : nat) (documents : list string)
    (k : nat) (doc_text : string) (e : list float) : Prop :=
  at_index documents k = Some doc_text
  /\ PyStr.is_blank doc_text = false
  /\ embedding_reply E (tick + calls_before documents k) (embedded_text doc_text) = Ret e
  /\ e <> [].

(* ================================================================== *)
(** * Sample environment *)
(* ================================================================== *)

Definition no_service {A} : outcome A := Raise (mkExn ServiceError "connection refused").

(** [{"tool": "none", "input": ""}] *)
Definition reply_none_empty : string :=
  "{" ++ PyStr.quote ++ "tool" ++ PyStr.quote ++ ": " ++ PyStr.quote ++ "none" ++ PyStr.quote
  ++ ", " ++ PyStr.quote ++ "input" ++ PyStr.quote ++ ": " ++ PyStr.quote ++ PyStr.quote ++ "}".

Definition sample_json_loads (s : string) : outcome pyval :=
  if String.eqb s reply_none_empty
  then Ret (PDict [("tool", PStr "none"); ("input", PStr "")])
  else Raise (mkExn JSONDecodeError "Expecting value: line 1 column 1 (char 0)").

(** A generation service that answers [web_search_tool] in plain text to
    the first call of a process and the JSON object above to the later ones. *)
Definition sample_env : env :=
  mkEnv (fun n _ => match n with
                    | O => Ret (Some "web_search_tool")
                    | _ => Ret (Some reply_none_empty)
                    end)
        (fun _ _ => no_service)
        (fun _ _ _ => no_service)
        (fun _ _ _ => no_service)
        (fun _ => false)
        (fun n => Z.of_nat n)
        sample_json_loads
        (fun _ => "None")
        (fun _ => Raise (mkExn ValueError "invalid syntax"))
        "You are an AI agent that can use various tools to help users.".

(** The same, with the generation service out of reach. *)
Definition offline_env : env :=
  mkEnv (fun _ _ => no_service)
        (embedding_reply sample_env) (vector_reply sample_env) (text_reply sample_env)
        (db_down sample_env) (now sample_env) (json_loads sample_env)
        (py_str sample_env) (host_eval sample_env) (system_prompt sample_env).

Definition world0 : world := mkWorld [] [] 0.
Definition world1 : world := mkWorld [] [] 1.

(** A session that already holds an important fact. *)
Definition fact_world : world :=
  snd (store_important_facts sample_env "demo" ["MongoDB acquired Voyage AI"] world0).

Definition hello : message := mkMsg "user" (Some "hello").

Definition doc_atlas : rdoc := mkRdoc (Some "MongoDB Atlas supports vector search.") [] None.
Definition doc_voyage : rdoc := mkRdoc (Some "MongoDB acquired Voyage AI.") [] None.
Definition doc_revenue : rdoc := mkRdoc (Some "Revenue grew 22% year over year.") [] None.

(** A corpus whose vector index answers with two documents and whose text
    index answers with two, one of them shared. *)
Definition corpus_env : env :=
  mkEnv (chat_reply sample_env)
        (fun _ _ => Ret [PrimFloat.one])
        (fun _ _ limit => Ret (firstn limit [doc_atlas; doc_voyage]))
        (fun _ _ _ => Ret [doc_voyage; doc_revenue])
        (db_down sample_env) (now sample_env) (json_loads sample_env)
        (py_str sample_env) (host_eval sample_env) (system_prompt sample_env).

(** The same corpus with the text index out of reach. *)
Definition no_text_index_env : env :=
  mkEnv (chat_reply sample_env)
        (embedding_reply corpus_env) (vector_reply corpus_env)
        (fun _ _ _ => Raise (mkExn ServiceError "text index required for $text query"))
        (db_down sample_env) (now sample_env) (json_loads sample_env)
        (py_str sample_env) (host_eval sample_env) (system_prompt sample_env).

(** [15 * 23 + 45] as the grammar shapes it. *)
Definition sample_sum : Calc.expr :=
  Calc.Bin Calc.OAdd (Calc.Bin Calc.OMul (Calc.Num 15) (Calc.Num 23)) (Calc.Num 45).

(** A session that holds one user turn. *)
Definition hello_world : world :=
  snd (store_chat_message sample_env "demo" "user" (Some "hello") None world0).

(** A collection that holds one long-term note, stored by another session. *)
Definition note_world : world :=
  snd (store_long_term_memory sample_env "earlier" "preference" "prefers short answers" world0).

Definition sample_questions : list turn :=
  [mkTurn "user" (Some "What is MongoDB Atlas?") 0 [];
   mkTurn "user" (Some "Thanks, that helps.") 4 [];
   mkTurn "user" (Some "How do I create a vector index?") 8 [];
   mkTurn "user" (Some "And what does it cost?") 12 []].

(** The sample service, answering an empty JSON object to preference
    requests. *)
Definition no_preferences_env : env :=
  with_chat_reply (fun n rq => if is_preferences_request rq then Ret (Some "{}")
                               else chat_reply corpus_env n rq)
                  corpus_env.

(** A generation service that always answers [calculator_tool] in plain
    text; [json.loads] rejects it, so the selector finds the name in the
    raw reply. *)
Definition calculator_env : env :=
  mkEnv (fun _ _ => Ret (Some "calculator_tool"))
        (embedding_reply sample_env) (vector_reply sample_env) (text_reply sample_env)
        (db_down sample_env) (now sample_env) (json_loads sample_env)
        (py_str sample_env) (host_eval sample_env) (system_prompt sample_env).

(** Where the turn [15*23+45] of [calculator_env] stands once the
    selection is made. *)
Definition sum_selected : world :=
  snd (gather_turn calculator_env "demo" "15*23+45" world0).

(** A session that holds three turns. *)
Definition three_turn_world : world :=
  snd (store_chat_message sample_env "demo" "user" (Some "What is Atlas?") None
         (snd (store_chat_message sample_env "demo" "assistant" (Some "Hello!") None
                 hello_world))).

(* ================================================================== *)
(** * Proofs *)
(* ================================================================== *)

(* ================================================================== *)
(** * The tool selector: overrides, fallback, normalisation *)
(* ================================================================== *)

Section SelectorFacts.

Variable E : env.

Lemma tool_selector_unfold user_input session_history w :
  tool_selector E user_input session_history w =
  let w' := mkWorld (w_memory w)
                    (w_chat_log w ++ [selector_request E user_input session_history])
                    (S (w_tick w)) in
  match chat_reply E (w_tick w) (selector_request E user_input session_history) with
  | Ret tool_response =>
      match model_choice E tool_response user_input with
      | Ret (selected_tool, tool_input) =>
          (Ret (apply_overrides user_input selected_tool, tool_input), w')
      | Raise _ => (Ret (keyword_fallback user_input), w')
      end
  | Raise _ => (Ret (keyword_fallback user_input), w')
  end.
Proof.
  unfold tool_selector, try_except, bind, chat_create, lift, ret. cbn.
  destruct (chat_reply E (w_tick w) _) as [r|e]; [|reflexivity].
  destruct (model_choice E r user_input) as [[t i]|e]; reflexivity.
Qed.

Lemma tool_selector_never_raises user_input session_history :
  never_raises (tool_selector E user_input session_history).
Proof.
  intros w. rewrite tool_selector_unfold. cbv zeta.
  destruct (chat_reply E (w_tick w) _) as [r|e]; [|eauto].
  destruct (model_choice E r user_input) as [[t i]|e]; eauto.
Qed.

End SelectorFacts.

Section SelectorClaims.

Variable E : env.

(** C1. When the utterance, lowercased, contains a domain keyword and the
    model step selected [web_search_tool], the selector returns
    [vector_search_tool]; when it contains a general-knowledge keyword and
    the model step selected [none], the selector returns [web_search_tool].
    Both overrides act on the model's choice, after it, and leave the
    input the model step produced unchanged. *)
Theorem tool_selector_overrides
    (user_input : string) (session_history : list turn) (w : world)
    (tool_response : option string) (tool_input : pyval)
    (Hreply : chat_reply E (w_tick w) (selector_request E user_input session_history)
              = Ret tool_response) :
  (model_choice E tool_response user_input = Ret (PStr "web_search_tool", tool_input) ->
   PyStr.any_in mongodb_keywords (PyStr.lower user_input) = true ->
   fst (tool_selector E user_input session_history w)
   = Ret (PStr "vector_search_tool", tool_input))
  /\
  (model_choice E tool_response user_input = Ret (PStr "none", tool_input) ->
   PyStr.any_in general_knowledge_keywords (PyStr.lower user_input) = true ->
   fst (tool_selector E user_input session_history w)
   = Ret (PStr "web_search_tool", tool_input)).
Proof.
  split; intros Hm Hk; rewrite tool_selector_unfold; cbv zeta;
    rewrite Hreply, Hm; unfold apply_overrides; rewrite Hk; reflexivity.
Qed.

(** C3. When the generation call raises, the selector returns (it does
    not raise), has issued that one request and no other, and its answer
    is the keyword fallback paired with the original utterance:
    [vector_search_tool] on a domain keyword, else [web_search_tool] on a
    general-knowledge keyword, else [none]. *)
Theorem tool_selector_remote_failure
    (user_input : string) (session_history : list turn) (w : world) (e : exn)
    (Hfail : chat_reply E (w_tick w) (selector_request E user_input session_history)
             = Raise e) :
  tool_selector E user_input session_history w
  = (Ret (PStr (if PyStr.any_in mongodb_keywords (PyStr.lower user_input)
                then "vector_search_tool"
                else if PyStr.any_in general_knowledge_keywords (PyStr.lower user_input)
                then "web_search_tool"
                else "none"),
          PStr user_input),
     mkWorld (w_memory w)
             (w_chat_log w ++ [selector_request E user_input session_history])
             (S (w_tick w))).
Proof.
  rewrite tool_selector_unfold; cbv zeta; rewrite Hfail.
  unfold keyword_fallback.
  destruct (PyStr.any_in mongodb_keywords _); [reflexivity|].
  destruct (PyStr.any_in general_knowledge_keywords _); reflexivity.
Qed.

End SelectorClaims.

Lemma tool_selector_overrides_witness :
  fst (tool_selector sample_env "What was MongoDB's latest acquisition?" [] world0)
  = Ret (PStr "vector_search_tool", PStr "What was MongoDB's latest acquisition?")
  /\
  fst (tool_selector sample_env "What is the capital of France?" [] world1)
  = Ret (PStr "web_search_tool", PStr "").
Proof.
  split.
  - exact (proj1 (tool_selector_overrides sample_env
                    "What was MongoDB's latest acquisition?" [] world0
                    (Some "web_search_tool")
                    (PStr "What was MongoDB's latest acquisition?") eq_refl)
                 eq_refl eq_refl).
  - exact (proj2 (tool_selector_overrides sample_env
                    "What is the capital of France?" [] world1
                    (Some reply_none_empty) (PStr "") eq_refl)
                 eq_refl eq_refl).
Defined.

Lemma tool_selector_remote_failure_witness :
  tool_selector offline_env "Tell me a joke" [] world0
  = (Ret (PStr "none", PStr "Tell me a joke"),
     mkWorld [] [selector_request offline_env "Tell me a joke" []] 1).
Proof.
  exact (tool_selector_remote_failure offline_env "Tell me a joke" [] world0
           (mkExn ServiceError "connection refused") eq_refl).
Defined.

(** C2, at the failing input.  The model answers
    [{"tool": "none", "input": ""}] to an utterance holding the keyword
    [capital]: the selection returned is [web_search_tool] with an empty
    input, since the override of lines 156-158 comes after the
    normalisation of lines 109-126, which is skipped for [none]. *)
Theorem tool_selector_empty_input_after_override :
  json_loads sample_env reply_none_empty
  = Ret (PDict [("tool", PStr "none"); ("input", PStr "")])
  /\ chat_reply sample_env 1
       (selector_request sample_env "What is the capital of France?" [])
     = Ret (Some reply_none_empty)
  /\ fst (tool_selector sample_env "What is the capital of France?" [] world1)
     = Ret (PStr "web_search_tool", PStr "").
Proof. repeat split. Qed.

(* ================================================================== *)
(** * The memory store adapter *)
(* ================================================================== *)

Lemma insert_by_timestamp_In d l x :
  In x (insert_by_timestamp d l) <-> x = d \/ In x l.
Proof.
  induction l as [|y r IH]; simpl.
  - intuition.
  - destruct (Z.leb (m_timestamp d) (m_timestamp y)); simpl; rewrite ?IH; intuition.
Qed.

Lemma sort_by_timestamp_In l x : In x (sort_by_timestamp l) <-> In x l.
Proof.
  induction l as [|y r IH]; simpl; [reflexivity|].
  rewrite insert_by_timestamp_In, IH. intuition.
Qed.

Lemma insert_by_timestamp_sorted d l :
  StronglySorted doc_by_timestamp l ->
  StronglySorted doc_by_timestamp (insert_by_timestamp d l).
Proof.
  induction 1 as [|y r Hs IH Hall]; simpl.
  - constructor; constructor.
  - destruct (Z.leb_spec (m_timestamp d) (m_timestamp y)) as [Hle|Hgt].
    + constructor; [constructor; assumption|].
      constructor; [exact Hle|].
      eapply Forall_impl; [|exact Hall].
      unfold doc_by_timestamp; intros; lia.
    + constructor; [exact IH|].
      apply Forall_forall; intros x Hx.
      apply insert_by_timestamp_In in Hx as [->|Hx].
      * unfold doc_by_timestamp; lia.
      * rewrite Forall_forall in Hall; auto.
Qed.

Lemma sort_by_timestamp_sorted l :
  StronglySorted doc_by_timestamp (sort_by_timestamp l).
Proof.
  induction l; simpl; [constructor | apply insert_by_timestamp_sorted; assumption].
Qed.

Lemma firstn_In {A} n (l : list A) x : In x (firstn n l) -> In x l.
Proof.
  revert l; induction n as [|n IH]; intros [|y l]; simpl; try tauto.
  intros [->|H]; auto.
Qed.

Lemma firstn_sorted {A} (R : A -> A -> Prop) n l :
  StronglySorted R l -> StronglySorted R (firstn n l).
Proof.
  intros H; revert n; induction H as [|x l Hs IH Hall]; intros [|n]; simpl;
    try constructor; auto.
  apply Forall_forall; intros y Hy. rewrite Forall_forall in Hall.
  apply Hall. eapply firstn_In; eauto.
Qed.

Lemma apply_limit_sorted {A} (R : A -> A -> Prop) limit (l : list A) :
  StronglySorted R l -> StronglySorted R (apply_limit limit l).
Proof.
  destruct limit as [[|n]|]; simpl; auto. apply (firstn_sorted R (S n)).
Qed.

Lemma project_turns_ret docs turns :
  project_turns docs = Ret turns ->
  turns = map as_turn docs /\ (forall d, In d docs -> m_role d <> None).
Proof.
  revert turns; induction docs as [|d r IH]; simpl; intros turns H.
  - inversion H; split; [reflexivity | intros ? []].
  - destruct (m_role d) as [ro|] eqn:Hr; [|discriminate].
    destruct (project_turns r) as [ts|e]; simpl in H; [|discriminate].
    inversion H; subst. destruct (IH ts eq_refl) as [-> Hall]. split.
    + unfold as_turn at 2. rewrite Hr. reflexivity.
    + intros x [<-|Hx]; [congruence | auto].
Qed.

Lemma project_turns_all docs :
  (forall d, In d docs -> m_role d <> None) ->
  project_turns docs = Ret (map as_turn docs).
Proof.
  induction docs as [|d r IH]; simpl; intros H; [reflexivity|].
  destruct (m_role d) as [ro|] eqn:Hr; [|exfalso; apply (H d); auto].
  rewrite IH by auto. simpl. unfold as_turn at 2. rewrite Hr. reflexivity.
Qed.

Lemma project_turns_missing_role docs d :
  In d docs -> m_role d = None -> exists e, project_turns docs = Raise e.
Proof.
  induction docs as [|x r IH]; simpl; [intros []|].
  intros [->|Hin] Hnone.
  - rewrite Hnone; eauto.
  - destruct (m_role x); [|eauto].
    destruct (IH Hin Hnone) as [e ->]; simpl; eauto.
Qed.

Lemma map_as_turn_sorted docs :
  StronglySorted doc_by_timestamp docs ->
  StronglySorted by_timestamp (map as_turn docs).
Proof.
  induction 1 as [|d r Hs IH Hall]; simpl; constructor; auto.
  apply Forall_forall; intros t Ht. apply in_map_iff in Ht as [x [<- Hx]].
  rewrite Forall_forall in Hall. exact (Hall x Hx).
Qed.

Section MemoryFacts.

Variable E : env.

Lemma retrieve_session_history_unfold session_id limit w :
  retrieve_session_history E session_id limit w =
  if db_down E (w_tick w) then (Ret [], called w)
  else
    match project_turns
            (apply_limit limit
               (sort_by_timestamp (filter (in_session session_id) (w_memory w)))) with
    | Ret turns => (Ret turns, called w)
    | Raise _ => (Ret [], called w)
    end.
Proof.
  unfold retrieve_session_history, try_except, bind, find_session, lift, ret.
  destruct (db_down E (w_tick w)); [reflexivity|].
  fold (in_session session_id).
  destruct (project_turns _); reflexivity.
Qed.

Lemma retrieve_session_history_never_raises session_id limit :
  never_raises (retrieve_session_history E session_id limit).
Proof.
  intros w. rewrite retrieve_session_history_unfold.
  destruct (db_down E (w_tick w)); [eauto|].
  destruct (project_turns _); eauto.
Qed.

Lemma store_chat_message_unfold session_id role content metadata w :
  store_chat_message E session_id role content metadata w =
  let message :=
    mkDoc session_id (Some role) content (now E (w_tick w))
          (Some (match metadata with Some m => m | None => [] end)) None None in
  if db_down E (S (w_tick w))
  then (Ret tt, mkWorld (w_memory w) (w_chat_log w) (S (S (w_tick w))))
  else (Ret tt, mkWorld (w_memory w ++ [message]) (w_chat_log w) (S (S (w_tick w)))).
Proof.
  unfold store_chat_message, try_except, bind, datetime_now, insert_one, ret, called.
  cbn. destruct (db_down E (S (w_tick w))); reflexivity.
Qed.

(** Whatever the session holds, what comes back is in timestamp order. *)
Lemma retrieve_session_history_sorted session_id limit w :
  exists turns,
    fst (retrieve_session_history E session_id limit w) = Ret turns
    /\ StronglySorted by_timestamp turns.
Proof.
  rewrite retrieve_session_history_unfold.
  destruct (db_down E (w_tick w)); [exists []; split; [reflexivity|constructor]|].
  destruct (project_turns _) as [turns|e] eqn:Hp;
    [|exists []; split; [reflexivity|constructor]].
  exists turns; split; [reflexivity|].
  apply project_turns_ret in Hp as [-> _].
  apply map_as_turn_sorted, apply_limit_sorted, sort_by_timestamp_sorted.
Qed.

End MemoryFacts.

Lemma try_except_ret_never_raises {A} (body : M A) (h : exn -> A) :
  never_raises (try_except body (fun e => ret (h e))).
Proof.
  intros w. unfold try_except, ret. destruct (body w) as [[a|e] w']; eauto.
Qed.

Lemma existsb_is_system messages :
  existsb is_system messages = true
  <-> exists m, In m messages /\ role m = "system".
Proof.
  rewrite existsb_exists. unfold is_system.
  split; intros [m [Hin H]]; exists m; split; auto; apply String.eqb_eq; auto.
Qed.

(** C7. The generation helper sends the conversation with the constructed
    system instruction placed at index 0 when no message has the role
    [system], and at the end otherwise; index 0 is used if and only if no
    system message exists, and in the other case every message of the
    conversation, the existing system message included, keeps its place
    before the instruction. *)
Theorem get_llm_response_system_placement
    (E : env) (messages : list message) (system_message : string) (w : world) :
  let system_msg := mkMsg "system" (Some system_message) in
  let has_system := exists m, In m messages /\ role m = "system" in
  let k := if existsb is_system messages then length messages else 0 in
  w_chat_log (snd (get_llm_response E messages system_message w))
  = w_chat_log w ++ [mkReq OPENAI_MODEL (with_system_message messages system_message) 7]
  /\ with_system_message messages system_message = placed_at k system_msg messages
  /\ (k = 0 <-> ~ has_system)
  /\ (~ has_system ->
      with_system_message messages system_message = system_msg :: messages)
  /\ (has_system ->
      with_system_message messages system_message = messages ++ [system_msg]
      /\ k = length messages /\ 0 < k).
Proof.
  cbv zeta. split; [|split; [|split; [|split]]].
  - unfold get_llm_response, try_except, chat_create, ret.
    destruct (chat_reply E (w_tick w) _); reflexivity.
  - unfold with_system_message, placed_at.
    destruct (existsb is_system messages).
    + rewrite firstn_all, skipn_all. reflexivity.
    + reflexivity.
  - destruct (existsb is_system messages) eqn:Hex.
    + assert (Hs := proj1 (existsb_is_system messages) Hex).
      destruct messages as [|m r]; [discriminate|]. simpl. split; [discriminate|tauto].
    + split; [|reflexivity]. intros _ Hs.
      apply existsb_is_system in Hs. congruence.
  - intros Hno. unfold with_system_message.
    destruct (existsb is_system messages) eqn:Hex; [|reflexivity].
    exfalso; apply Hno, existsb_is_system, Hex.
  - intros Hs. apply existsb_is_system in Hs as Hex.
    unfold with_system_message. rewrite Hex. repeat split.
    destruct Hs as [m [Hin _]]. destruct messages; [destruct Hin | simpl; lia].
Qed.

(* ================================================================== *)
(** * Round trip through the memory collection *)
(* ================================================================== *)

Section RoundTrip.

Variable E : env.

Lemma store_then_retrieve_history
    (session_id role : string) (content : option string)
    (metadata : option (list (string * string))) (w : world)
    (Hinsert : db_down E (S (w_tick w)) = false)
    (Hfind : db_down E (S (S (w_tick w))) = false)
    (Hturns : turns_only session_id (w_memory w)) :
  exists turns,
    fst (bind (store_chat_message E session_id role content metadata)
              (fun _ => retrieve_session_history E session_id None) w)
    = Ret turns
    /\ In (mkTurn role content (now E (w_tick w))
                  (match metadata with Some m => m | None => [] end)) turns
    /\ StronglySorted by_timestamp turns.
Proof.
  unfold bind. rewrite store_chat_message_unfold. cbv zeta. rewrite Hinsert.
  rewrite retrieve_session_history_unfold. cbn [w_tick w_memory]. rewrite Hfind.
  set (message := mkDoc session_id (Some role) content (now E (w_tick w)) _ None None).
  cbn [apply_limit].
  rewrite project_turns_all.
  - eexists; split; [reflexivity|]. split.
    + change (mkTurn role content (now E (w_tick w))
                (match metadata with Some m => m | None => [] end))
        with (as_turn message).
      apply in_map, sort_by_timestamp_In, filter_In. split.
      * apply in_or_app; right; left; reflexivity.
      * unfold in_session, message; cbn. apply String.eqb_refl.
    + apply map_as_turn_sorted, sort_by_timestamp_sorted.
  - intros d Hd. apply sort_by_timestamp_In, filter_In in Hd as [Hin Hs].
    apply in_app_or in Hin as [Hin|[<-|[]]].
    + exact (Hturns d Hin Hs).
    + discriminate.
Qed.

(** When both calls reach the collection and the session holds chat
    turns only, the stored turn comes back with its role and content, in a
    list ordered by timestamp. *)
Theorem store_then_retrieve_turns_only
    (session_id role : string) (content : option string)
    (metadata : option (list (string * string))) (w : world)
    (Hinsert : db_down E (S (w_tick w)) = false)
    (Hfind : db_down E (S (S (w_tick w))) = false)
    (Hturns : turns_only session_id (w_memory w)) :
  exists turns,
    fst (bind (store_chat_message E session_id role content metadata)
              (fun _ => retrieve_session_history E session_id None) w)
    = Ret turns
    /\ In (mkTurn role content (now E (w_tick w))
                  (match metadata with Some m => m | None => [] end)) turns
    /\ StronglySorted by_timestamp turns.
Proof. apply store_then_retrieve_history; assumption. Qed.

End RoundTrip.

Lemma store_then_retrieve_turns_only_witness :
  exists turns,
    fst (bind (store_chat_message sample_env "demo" "user" (Some "hello") None)
              (fun _ => retrieve_session_history sample_env "demo" None) world0)
    = Ret turns
    /\ In (mkTurn "user" (Some "hello") 0%Z []) turns
    /\ StronglySorted by_timestamp turns.
Proof.
  apply (store_then_retrieve_turns_only sample_env "demo" "user" (Some "hello") None world0);
    [reflexivity | reflexivity | intros d []].
Defined.

(** C9, at the failing input.  The session holds an important fact, stored
    by [store_important_facts] under the same [session_id]; a user turn is
    then stored, and is in the collection; the history read next is empty,
    since the query selects the fact too and [msg["role"]] raises on it. *)
Theorem retrieve_session_history_loses_turns_after_fact :
  let w := snd (store_chat_message sample_env "demo" "user" (Some "hello") None fact_world) in
  In (mkDoc "demo" (Some "user") (Some "hello") 2%Z (Some []) None None) (w_memory w)
  /\ db_down sample_env (w_tick w) = false
  /\ fst (retrieve_session_history sample_env "demo" None w) = Ret [].
Proof.
  cbv zeta. split; [|split]; [vm_compute; auto | reflexivity | reflexivity].
Qed.

(* ================================================================== *)
(** * The orchestrator: what a turn hands to the synthesizer *)
(* ================================================================== *)

Section Orchestrator.

Variable E : env.

(** A document of the session that has no role empties the history. *)
Lemma retrieve_session_history_role_missing session_id w d :
  In d (w_memory w) -> in_session session_id d = true -> m_role d = None ->
  fst (retrieve_session_history E session_id None w) = Ret [].
Proof.
  intros Hin Hs Hnone. rewrite retrieve_session_history_unfold.
  destruct (db_down E (w_tick w)); [reflexivity|]. cbn [apply_limit].
  destruct (project_turns_missing_role
              (sort_by_timestamp (filter (in_session session_id) (w_memory w))) d)
    as [e ->]; auto.
  apply sort_by_timestamp_In, filter_In; auto.
Qed.

Lemma get_session_summary_never_raises session_id :
  never_raises (get_session_summary E session_id).
Proof. apply (try_except_ret_never_raises _ (fun _ => Some _)). Qed.

Lemma get_user_preferences_never_raises session_id :
  never_raises (get_user_preferences E session_id).
Proof. apply (try_except_ret_never_raises _ (fun _ => PDict [])). Qed.

(** The conversation list of a turn: an optional summary, the cleaned
    history read after the write, and the utterance once more. *)
Lemma gather_turn_llm_input session_id user_input w :
  exists tool tool_input summary_part history w',
    gather_turn E session_id user_input w
    = (Ret (tool, tool_input,
            summary_part ++ clean_session_history history
            ++ [mkMsg "user" (Some user_input)]), w')
    /\ length summary_part <= 1
    /\ retrieve_session_history E session_id None
         (snd (store_chat_message E session_id "user" (Some user_input) None w))
       = (Ret history,
          called (snd (store_chat_message E session_id "user" (Some user_input) None w))).
Proof.
  unfold gather_turn. unfold bind at 1.
  destruct (store_chat_message E session_id "user" (Some user_input) None w)
    as [o w1] eqn:Hst.
  assert (o = Ret tt) as ->.
  { rewrite store_chat_message_unfold in Hst. cbv zeta in Hst.
    destruct (db_down E (S (w_tick w))); inversion Hst; reflexivity. }
  unfold bind at 1. cbn [snd].
  destruct (retrieve_session_history_never_raises E session_id None w1) as [history [w2 Hh]].
  rewrite Hh.
  assert (w2 = called w1) as ->.
  { rewrite retrieve_session_history_unfold in Hh.
    destruct (db_down E (w_tick w1)); [inversion Hh; reflexivity|].
    destruct (project_turns _); inversion Hh; reflexivity. }
  unfold bind at 1.
  destruct (get_session_summary_never_raises session_id (called w1)) as [summary [w3 ->]].
  unfold bind at 1.
  destruct (get_user_preferences_never_raises session_id w3) as [prefs [w4 ->]].
  unfold bind at 1.
  destruct (tool_selector_never_raises E user_input history w4) as [[tool tool_input] [w5 ->]].
  unfold ret.
  eexists tool, tool_input, _, history, w5. split; [reflexivity|]. split; [|reflexivity].
  destruct summary as [s|]; [|simpl; lia].
  destruct (negb (String.eqb s "") && negb (String.eqb s "No previous conversation history."))%bool;
    simpl; lia.
Qed.

Lemma occurrences_app m l1 l2 :
  occurrences m (l1 ++ l2) = occurrences m l1 + occurrences m l2.
Proof. unfold occurrences. rewrite filter_app, length_app. reflexivity. Qed.

Lemma message_eqb_refl m : message_eqb m m = true.
Proof.
  unfold message_eqb. rewrite String.eqb_refl.
  destruct (content m); [apply String.eqb_refl | reflexivity].
Qed.

Lemma occurrences_In m l : In m l -> 1 <= occurrences m l.
Proof.
  unfold occurrences. induction l as [|x r IH]; simpl; [intros []|].
  intros [->|H].
  - rewrite message_eqb_refl. simpl; lia.
  - destruct (message_eqb m x); simpl; [|auto]. specialize (IH H); lia.
Qed.

(** When the write and the read reach the collection and the session
    holds chat turns only, the utterance is in the conversation list
    twice: within the history read after the write, and as the last
    message. *)
Lemma gather_turn_duplicates_utterance
    (session_id user_input : string) (w : world)
    (Hinsert : db_down E (S (w_tick w)) = false)
    (Hfind : db_down E (S (S (w_tick w))) = false)
    (Hturns : turns_only session_id (w_memory w)) :
  exists tool tool_input summary_part history w',
    gather_turn E session_id user_input w
    = (Ret (tool, tool_input,
            summary_part ++ clean_session_history history
            ++ [mkMsg "user" (Some user_input)]), w')
    /\ In (mkMsg "user" (Some user_input)) (clean_session_history history)
    /\ 2 <= occurrences (mkMsg "user" (Some user_input))
              (summary_part ++ clean_session_history history
               ++ [mkMsg "user" (Some user_input)]).
Proof.
  destruct (gather_turn_llm_input session_id user_input w)
    as (tool & tool_input & summary_part & history & w' & Hg & _ & Hh).
  exists tool, tool_input, summary_part, history, w'. split; [exact Hg|].
  assert (Hin : In (mkMsg "user" (Some user_input)) (clean_session_history history)).
  { destruct (store_then_retrieve_history E session_id "user" (Some user_input) None w
                Hinsert Hfind Hturns) as (turns & Hr & Hin & _).
    unfold bind in Hr.
    destruct (store_chat_message E session_id "user" (Some user_input) None w)
      as [o w1] eqn:Hst.
    assert (o = Ret tt) as ->.
    { rewrite store_chat_message_unfold in Hst. cbv zeta in Hst.
      destruct (db_down E (S (w_tick w))); inversion Hst; reflexivity. }
    cbn [snd] in Hh. rewrite Hh in Hr. cbn in Hr. inversion Hr; subst turns.
    unfold clean_session_history.
    apply in_map_iff. eexists; split; [|exact Hin]. reflexivity. }
  split; [exact Hin|].
  rewrite !occurrences_app.
  assert (1 <= occurrences (mkMsg "user" (Some user_input)) (clean_session_history history))
    by (apply occurrences_In; exact Hin).
  assert (occurrences (mkMsg "user" (Some user_input)) [mkMsg "user" (Some user_input)] = 1).
  { unfold occurrences; simpl. rewrite message_eqb_refl. reflexivity. }
  lia.
Qed.

End Orchestrator.

Lemma gather_turn_duplicates_utterance_witness :
  exists tool tool_input summary_part history w',
    gather_turn sample_env "demo" "hello" world0
    = (Ret (tool, tool_input,
            summary_part ++ clean_session_history history ++ [hello]), w')
    /\ In hello (clean_session_history history)
    /\ 2 <= occurrences hello
              (summary_part ++ clean_session_history history ++ [hello]).
Proof.
  apply (gather_turn_duplicates_utterance sample_env "demo" "hello" world0);
    [reflexivity | reflexivity | intros d []].
Defined.

(** C8, at the failing input.  In a session that holds an important fact
    the history read after the write is empty, so the conversation list
    the turn hands on holds the utterance once, as its only message. *)
Theorem gather_turn_single_utterance_after_fact :
  exists tool tool_input w',
    gather_turn sample_env "demo" "hello" fact_world
    = (Ret (tool, tool_input, [hello]), w')
    /\ occurrences hello [hello] = 1
    /\ In (mkDoc "demo" (Some "user") (Some "hello") 2%Z (Some []) None None)
          (w_memory w').
Proof.
  eexists _, _, _. split; [vm_compute; reflexivity|].
  split; [reflexivity | vm_compute; auto].
Qed.

(* ================================================================== *)
(** * Hybrid search: deduplication and fallback *)
(* ================================================================== *)

Lemma existsb_eqb_In t seen : existsb (String.eqb t) seen = true <-> In t seen.
Proof.
  rewrite existsb_exists. split.
  - intros [x [Hin Heq]]. apply String.eqb_eq in Heq. subst; exact Hin.
  - intros H; exists t; split; [exact H | apply String.eqb_refl].
Qed.

Lemma has_text_true t d : has_text t d = true <-> d_text d = Some t.
Proof.
  unfold has_text. destruct (d_text d) as [t'|]; [|split; discriminate].
  rewrite String.eqb_eq. split; [intros ->; reflexivity | intros H; inversion H; reflexivity].
Qed.

Lemma first_by_text_seen_ext s1 s2 docs :
  (forall t, In t s1 <-> In t s2) ->
  first_by_text s1 docs = first_by_text s2 docs.
Proof.
  revert s1 s2; induction docs as [|d r IH]; intros s1 s2 H; simpl; [reflexivity|].
  destruct (d_text d) as [t|]; [|apply IH; exact H].
  assert (Hb : existsb (String.eqb t) s1 = existsb (String.eqb t) s2).
  { apply eq_true_iff_eq. rewrite !existsb_eqb_In. apply H. }
  rewrite Hb. destruct (existsb (String.eqb t) s2).
  - apply IH; exact H.
  - f_equal. apply IH. intros x; simpl; rewrite H; reflexivity.
Qed.

Lemma first_by_text_app seen l1 l2 :
  first_by_text seen (l1 ++ l2)
  = first_by_text seen l1 ++ first_by_text (texts_of l1 ++ seen) l2.
Proof.
  revert seen; induction l1 as [|d r IH]; intros seen; simpl; [reflexivity|].
  destruct (d_text d) as [t|]; [|apply IH].
  destruct (existsb (String.eqb t) seen) eqn:Hs.
  - rewrite IH. f_equal. apply first_by_text_seen_ext.
    intros x; simpl; rewrite !in_app_iff. apply existsb_eqb_In in Hs.
    intuition (subst; auto).
  - simpl. rewrite IH. do 2 f_equal. apply first_by_text_seen_ext.
    intros x; simpl; rewrite !in_app_iff; simpl. tauto.
Qed.

Lemma first_by_text_In seen docs d :
  In d (first_by_text seen docs) ->
  In d docs /\ exists t, d_text d = Some t /\ ~ In t seen.
Proof.
  revert seen; induction docs as [|x r IH]; intros seen; simpl; [intros []|].
  destruct (d_text x) as [t|] eqn:Hx.
  - destruct (existsb (String.eqb t) seen) eqn:Hs.
    + intros H. destruct (IH _ H) as [Hin Ht]. auto.
    + intros [<-|H].
      * split; [auto|]. exists t; split; [exact Hx|].
        intros Hin. apply existsb_eqb_In in Hin. congruence.
      * destruct (IH _ H) as [Hin [t' [Ht' Hn]]]. split; [auto|].
        exists t'; split; [exact Ht'|]. intros Hc; apply Hn; right; exact Hc.
  - intros H. destruct (IH _ H) as [Hin Ht]. auto.
Qed.

Lemma first_by_text_NoDup seen docs :
  NoDup (map d_text (first_by_text seen docs)).
Proof.
  revert seen; induction docs as [|x r IH]; intros seen; simpl; [constructor|].
  destruct (d_text x) as [t|] eqn:Hx; [|apply IH].
  destruct (existsb (String.eqb t) seen); [apply IH|].
  simpl. rewrite Hx. constructor; [|apply IH].
  intros Hin. apply in_map_iff in Hin as [d [Hd Hin]].
  apply first_by_text_In in Hin as [_ [t' [Ht' Hn]]].
  apply Hn. left. congruence.
Qed.

(** The first occurrence wins. *)
Lemma first_by_text_first seen docs d t :
  In d (first_by_text seen docs) -> d_text d = Some t ->
  find (has_text t) docs = Some d.
Proof.
  revert seen; induction docs as [|x r IH]; intros seen; simpl; [intros []|].
  intros Hin Hd.
  destruct (d_text x) as [tx|] eqn:Hx.
  - destruct (existsb (String.eqb tx) seen) eqn:Hs.
    + destruct (has_text t x) eqn:Hh.
      * apply has_text_true in Hh.
        apply first_by_text_In in Hin as [_ [t' [Ht' Hn]]].
        exfalso. apply Hn. apply existsb_eqb_In in Hs. congruence.
      * eapply IH; eauto.
    + destruct Hin as [<-|Hin].
      * rewrite (proj2 (has_text_true t x) Hd). reflexivity.
      * destruct (has_text t x) eqn:Hh; [|eapply IH; eauto].
        apply has_text_true in Hh.
        apply first_by_text_In in Hin as [_ [t' [Ht' Hn]]].
        exfalso. apply Hn. left. congruence.
  - assert (has_text t x = false) as ->
      by (unfold has_text; rewrite Hx; reflexivity).
    eapply IH; eauto.
Qed.

Lemma first_by_text_complete seen docs x t :
  In x docs -> d_text x = Some t -> ~ In t seen ->
  exists d, In d (first_by_text seen docs) /\ d_text d = Some t.
Proof.
  revert seen; induction docs as [|y r IH]; intros seen; simpl; [intros []|].
  intros Hin Hx Hn.
  destruct (d_text y) as [ty|] eqn:Hy.
  - destruct (existsb (String.eqb ty) seen) eqn:Hs.
    + destruct Hin as [->|Hin].
      * apply existsb_eqb_In in Hs. exfalso; apply Hn. congruence.
      * apply IH; auto.
    + destruct (String.eqb ty t) eqn:Heq.
      * apply String.eqb_eq in Heq; subst. exists y; simpl; auto.
      * destruct Hin as [->|Hin].
        -- rewrite Hx in Hy. inversion Hy; subst. rewrite String.eqb_refl in Heq. discriminate.
        -- destruct (IH (ty :: seen) Hin Hx) as [d [Hd Ht]].
           ++ intros [->|Hc]; [rewrite String.eqb_refl in Heq; discriminate | auto].
           ++ exists d; simpl; auto.
  - destruct Hin as [->|Hin]; [congruence|]. apply IH; auto.
Qed.

Lemma first_by_text_length seen docs :
  length (first_by_text seen docs) <= length docs.
Proof.
  revert seen; induction docs as [|x r IH]; intros seen; simpl; [lia|].
  destruct (d_text x); [|specialize (IH seen); lia].
  destruct (existsb _ seen); simpl; [specialize (IH seen) | specialize (IH (s :: seen))]; lia.
Qed.

(** The loop of the source computes [first_by_text] on the tagged results. *)
Lemma add_results_spec tag results all_results seen all' seen' :
  add_results tag results (all_results, seen) = Ret (all', seen') ->
  all' = all_results ++ first_by_text seen (map (tagged tag) results)
  /\ (forall t, In t seen' <-> In t (texts_of (map (tagged tag) results) ++ seen)).
Proof.
  revert all_results seen; induction results as [|x r IH]; intros acc seen; simpl.
  - intros H; inversion H; subst. rewrite app_nil_r. split; [reflexivity|tauto].
  - destruct (d_text x) as [t|] eqn:Hx; [|discriminate].
    destruct (existsb (String.eqb t) seen) eqn:Hs; intros H.
    + destruct (IH _ _ H) as [-> Hseen]. split; [reflexivity|].
      intros y. rewrite Hseen. simpl. rewrite !in_app_iff.
      apply existsb_eqb_In in Hs. intuition (subst; auto).
    + destruct (IH _ _ H) as [-> Hseen]. split.
      * rewrite <- app_assoc. reflexivity.
      * intros y. rewrite Hseen. simpl. rewrite !in_app_iff. simpl. tauto.
Qed.

Lemma NoDup_firstn {A} n (l : list A) : NoDup l -> NoDup (firstn n l).
Proof.
  intros H; revert n; induction H as [|x l Hn Hd IH]; intros [|n]; simpl;
    try constructor; auto.
  intros Hin; apply Hn. eapply firstn_In; eauto.
Qed.

Lemma count_by_text_le_1 t docs :
  NoDup (map d_text docs) -> length (filter (has_text t) docs) <= 1.
Proof.
  induction docs as [|x r IH]; simpl; [lia|].
  intros H; inversion H as [|? ? Hn Hd]; subst.
  destruct (has_text t x) eqn:Hh; [|auto].
  simpl. apply has_text_true in Hh.
  assert (filter (has_text t) r = []) as ->; [|simpl; lia].
  destruct (filter (has_text t) r) as [|y ys] eqn:Hf; [reflexivity|].
  exfalso. apply Hn.
  assert (Hy : In y (filter (has_text t) r)) by (rewrite Hf; left; reflexivity).
  apply filter_In in Hy as [Hy Hty]. apply has_text_true in Hty.
  rewrite Hh, <- Hty. apply in_map; exact Hy.
Qed.

Lemma count_by_text_ge_1 t docs d :
  In d docs -> d_text d = Some t -> 1 <= length (filter (has_text t) docs).
Proof.
  intros Hin Hd.
  assert (H : In d (filter (has_text t) docs))
    by (apply filter_In; split; [exact Hin | apply has_text_true; exact Hd]).
  destruct (filter (has_text t) docs); [destruct H | simpl; lia].
Qed.

Lemma find_app_left {A} (f : A -> bool) l1 l2 x :
  In x l1 -> f x = true -> exists y, find f (l1 ++ l2) = Some y /\ In y l1.
Proof.
  induction l1 as [|a r IH]; simpl; [intros []|].
  intros [->|Hin] Hf.
  - rewrite Hf. eauto.
  - destruct (f a); [eauto|]. destruct (IH Hin Hf) as [y [Hy Hiny]]. eauto.
Qed.

Section HybridFacts.

Variable E : env.

Lemma get_embedding_never_raises text : never_raises (get_embedding E text).
Proof.
  unfold get_embedding. destruct (PyStr.is_blank text).
  - intros w; unfold ret; eauto.
  - apply (try_except_ret_never_raises _ (fun _ => None)).
Qed.

Lemma vector_search_tool_never_raises user_input limit :
  never_raises (vector_search_tool E user_input limit).
Proof.
  unfold vector_search_tool. destruct (PyStr.is_blank user_input).
  - intros w; unfold ret; eauto.
  - apply (try_except_ret_never_raises _ (fun _ => [])).
Qed.

Lemma hybrid_search_tool_never_raises user_input limit :
  never_raises (hybrid_search_tool E user_input limit).
Proof.
  intros w. unfold hybrid_search_tool, try_except.
  destruct (hybrid_combine E user_input limit w) as [[r|e] w1]; [eauto|].
  apply vector_search_tool_never_raises.
Qed.

(** What the body of the [try] computes when it completes. *)
Lemma hybrid_combine_ret user_input limit w results w' :
  hybrid_combine E user_input limit w = (Ret results, w') ->
  exists vector_results text_results w1,
    vector_search_tool E user_input limit w = (Ret vector_results, w1)
    /\ text_find E user_input limit w1 = (Ret text_results, w')
    /\ results = firstn limit
                   (first_by_text []
                      (map (tagged Vector) vector_results
                       ++ map (tagged Text) text_results)).
Proof.
  unfold hybrid_combine. unfold bind at 1.
  destruct (vector_search_tool E user_input limit w) as [[vs|e] w1] eqn:Hv; [|discriminate].
  unfold bind at 1, lift.
  destruct (add_results Vector vs ([], [])) as [[all1 seen1]|e] eqn:H1; [|discriminate].
  unfold bind at 1.
  destruct (text_find E user_input limit w1) as [[ts|e] w2] eqn:Ht; [|discriminate].
  unfold bind.
  destruct (add_results Text ts (all1, seen1)) as [[all2 seen2]|e] eqn:H2; [|discriminate].
  unfold ret. intros H.
  apply add_results_spec in H1 as [-> Hs1]. apply add_results_spec in H2 as [-> _].
  cbn [fst] in H. inversion H; subst. clear H.
  exists vs, ts, w1. split; [reflexivity|]. split; [exact Ht|].
  rewrite first_by_text_app. do 2 f_equal.
  apply first_by_text_seen_ext. intros t. rewrite Hs1. reflexivity.
Qed.

End HybridFacts.

Lemma add_results_total tag results acc :
  (forall r, In r results -> d_text r <> None) ->
  exists acc', add_results tag results acc = Ret acc'.
Proof.
  revert acc; induction results as [|x r IH]; intros acc H; simpl; [eauto|].
  destruct (d_text x) as [t|] eqn:Hx; [|exfalso; apply (H x); simpl; auto].
  destruct (existsb (String.eqb t) (snd acc)); apply IH; intros; apply H; simpl; auto.
Qed.

Section HybridClaims.

Variable E : env.

(** C5. When the body of the [try] completes, it has run the vector
    search and then the text search, and what [hybrid_search_tool] returns
    is the first [limit] entries of the tagged vector results followed by
    the tagged text results, deduplicated by text with the first
    occurrence winning: at most [limit] entries, each one a vector result
    tagged [vector] or a text result tagged [text], no text twice, each
    entry the first candidate with its text.  A text that a vector result
    and a text result share has only an entry tagged [vector], at most
    one, and exactly one when the vector search kept to its limit. *)
Theorem hybrid_search_tool_combines
    (user_input : string) (limit : nat) (w : world)
    (results : list rdoc) (w' : world)
    (Hok : hybrid_combine E user_input limit w = (Ret results, w')) :
  exists vector_results text_results w1,
    vector_search_tool E user_input limit w = (Ret vector_results, w1)
    /\ text_find E user_input limit w1 = (Ret text_results, w')
    /\ hybrid_search_tool E user_input limit w = (Ret results, w')
    /\ let candidates :=
         map (tagged Vector) vector_results ++ map (tagged Text) text_results in
       results = firstn limit (first_by_text [] candidates)
       /\ length results <= limit
       /\ (forall d, In d results ->
             (exists v, In v vector_results /\ d = tagged Vector v)
             \/ (exists x, In x text_results /\ d = tagged Text x))
       /\ NoDup (map d_text results)
       /\ (forall d t, In d results -> d_text d = Some t ->
             find (has_text t) candidates = Some d)
       /\ (forall v x t,
             In v vector_results -> d_text v = Some t ->
             In x text_results -> d_text x = Some t ->
             (forall d, In d results -> d_text d = Some t ->
                d_search_type d = Some Vector)
             /\ length (filter (has_text t) results) <= 1
             /\ (length vector_results <= limit ->
                 length (filter (has_text t) results) = 1)).
Proof.
  destruct (hybrid_combine_ret E _ _ _ _ _ Hok) as (vs & ts & w1 & Hv & Ht & Hres).
  exists vs, ts, w1. split; [exact Hv|]. split; [exact Ht|]. split.
  { unfold hybrid_search_tool, try_except. rewrite Hok. reflexivity. }
  cbv zeta. set (candidates := map (tagged Vector) vs ++ map (tagged Text) ts) in *.
  assert (Hsub : forall d, In d results -> In d (first_by_text [] candidates))
    by (intros d Hd; rewrite Hres in Hd; eapply firstn_In; eauto).
  assert (Hnodup : NoDup (map d_text results)).
  { rewrite Hres, <- firstn_map. apply NoDup_firstn, first_by_text_NoDup. }
  assert (Hfirst : forall d t, In d results -> d_text d = Some t ->
                               find (has_text t) candidates = Some d).
  { intros d t Hd Htd. eapply first_by_text_first; eauto. }
  split; [exact Hres|]. split.
  { rewrite Hres, length_firstn. lia. }
  split.
  { intros d Hd. apply Hsub, first_by_text_In in Hd as [Hd _].
    apply in_app_or in Hd as [Hd|Hd]; apply in_map_iff in Hd as [y [<- Hy]]; eauto. }
  split; [exact Hnodup|]. split; [exact Hfirst|].
  intros v x t Hvin Hvt Hxin Hxt. split; [|split].
  - intros d Hd Htd. specialize (Hfirst d t Hd Htd).
    destruct (find_app_left (has_text t) (map (tagged Vector) vs)
                (map (tagged Text) ts) (tagged Vector v)) as [y [Hy Hyin]].
    + apply in_map; exact Hvin.
    + apply has_text_true; exact Hvt.
    + fold candidates in Hy. rewrite Hfirst in Hy. inversion Hy; subst y.
      apply in_map_iff in Hyin as [y' [<- _]]. reflexivity.
  - apply count_by_text_le_1; exact Hnodup.
  - intros Hlim.
    assert (Hle := count_by_text_le_1 t results Hnodup).
    destruct (first_by_text_complete [] (map (tagged Vector) vs) (tagged Vector v) t)
      as [d [Hd Htd]]; [apply in_map; exact Hvin | exact Hvt | intros [] |].
    assert (Hin : In d results).
    { rewrite Hres. unfold candidates. rewrite first_by_text_app, firstn_app.
      apply in_or_app; left. rewrite firstn_all2; [exact Hd|].
      pose proof (first_by_text_length [] (map (tagged Vector) vs)) as Hl.
      rewrite length_map in Hl. lia. }
    pose proof (count_by_text_ge_1 t results d Hin Htd). lia.
Qed.

(** C6. Whatever exception the body of the [try] raises,
    [hybrid_search_tool] returns what a vector search returns from there;
    so it is when the text search is the call that fails; and in every
    world [hybrid_search_tool] returns. *)
Theorem hybrid_search_tool_falls_back
    (user_input : string) (limit : nat) (w : world) :
  (forall e w1,
      hybrid_combine E user_input limit w = (Raise e, w1) ->
      hybrid_search_tool E user_input limit w
      = vector_search_tool E user_input limit w1)
  /\ (forall vector_results w1 e,
        vector_search_tool E user_input limit w = (Ret vector_results, w1) ->
        (forall v, In v vector_results -> d_text v <> None) ->
        text_reply E (w_tick w1) user_input limit = Raise e ->
        hybrid_search_tool E user_input limit w
        = vector_search_tool E user_input limit (called w1))
  /\ (exists results w',
        hybrid_search_tool E user_input limit w = (Ret results, w')).
Proof.
  split; [|split].
  - intros e w1 H. unfold hybrid_search_tool, try_except. rewrite H. reflexivity.
  - intros vs w1 e Hv Htext Hfail.
    unfold hybrid_search_tool, try_except, hybrid_combine.
    unfold bind at 1. rewrite Hv. unfold bind at 1, lift.
    destruct (add_results_total Vector vs ([], []) Htext) as [acc ->].
    unfold bind at 1, text_find. rewrite Hfail. reflexivity.
  - apply hybrid_search_tool_never_raises.
Qed.

(** What a vector search hands out carries no [search_type]. *)
Lemma vector_search_tool_untagged user_input limit w results w' d :
  vector_search_tool E user_input limit w = (Ret results, w') ->
  In d results -> d_search_type d = None.
Proof.
  unfold vector_search_tool. destruct (PyStr.is_blank user_input).
  - unfold ret; intros H; inversion H; subst; intros [].
  - unfold try_except, bind.
    destruct (get_embedding E user_input w) as [[[[|f q]|]|e] w1];
      unfold ret; try (intros H; inversion H; subst; intros []).
    unfold aggregate.
    destruct (vector_reply E (w_tick w1) (f :: q) limit) as [r|e];
      intros H; inversion H; subst; [|intros []].
    intros Hd. apply in_map_iff in Hd as [x [<- _]]. reflexivity.
Qed.

End HybridClaims.

Lemma hybrid_search_tool_combines_witness :
  hybrid_search_tool corpus_env "voyage" 5 world0
  = (Ret [tagged Vector doc_atlas; tagged Vector doc_voyage; tagged Text doc_revenue],
     mkWorld [] [] 3).
Proof.
  destruct (hybrid_search_tool_combines corpus_env "voyage" 5 world0
              [tagged Vector doc_atlas; tagged Vector doc_voyage; tagged Text doc_revenue]
              (mkWorld [] [] 3) eq_refl)
    as (vs & ts & w1 & _ & _ & H & _).
  exact H.
Defined.

(** With the text index out of reach the vector results come back, as the
    second vector search hands them out. *)
Example hybrid_search_tool_without_text_index :
  hybrid_search_tool no_text_index_env "voyage" 5 world0
  = (Ret [doc_atlas; doc_voyage], mkWorld [] [] 5).
Proof. reflexivity. Qed.

(* ================================================================== *)
(** * The calculator *)
(* ================================================================== *)

Lemma prefix_chars k s c :
  String.prefix k s = true -> In c (PyStr.chars k) -> In c (PyStr.chars s).
Proof.
  revert s; induction k as [|a k IH]; intros s; simpl; [intros _ []|].
  destruct s as [|b s]; simpl; [discriminate|].
  destruct (ascii_dec a b) as [->|]; [|discriminate].
  intros Hp [->|Hc]; simpl; [auto | right; apply IH; auto].
Qed.

Lemma contains_chars k s c :
  PyStr.contains k s = true -> In c (PyStr.chars k) -> In c (PyStr.chars s).
Proof.
  induction s as [|b s IH]; cbn [PyStr.contains].
  - destruct (String.prefix k "") eqn:Hp; [|discriminate].
    intros _ Hc. exact (prefix_chars k "" c Hp Hc).
  - destruct (String.prefix k (String b s)) eqn:Hp.
    + intros _ Hc. exact (prefix_chars k _ c Hp Hc).
    + intros H Hc. right. apply IH; auto.
Qed.

Lemma chars_lower s : PyStr.chars (PyStr.lower s) = map PyStr.lower_char (PyStr.chars s).
Proof. induction s; simpl; congruence. Qed.

Lemma safe_char_cases c :
  existsb (Ascii.eqb c) safe_chars = true -> In c safe_chars.
Proof.
  rewrite existsb_exists. intros [x [Hin Heq]].
  apply Ascii.eqb_eq in Heq. subst; exact Hin.
Qed.

Lemma lower_char_safe c :
  existsb (Ascii.eqb c) safe_chars = true ->
  PyStr.lower_char c = c /\ c <> "i"%char /\ c <> "e"%char /\ c <> "_"%char.
Proof.
  intros H. apply safe_char_cases in H. unfold safe_chars in H. simpl in H.
  repeat (destruct H as [<-|H];
          [repeat split; first [reflexivity | discriminate]|]).
  destruct H.
Qed.

Lemma all_safe_chars_In s c :
  all_safe_chars s = true -> In c (PyStr.chars s) ->
  existsb (Ascii.eqb c) safe_chars = true.
Proof.
  unfold all_safe_chars. rewrite forallb_forall. auto.
Qed.

Lemma all_safe_chars_lower s :
  all_safe_chars s = true -> PyStr.lower s = s.
Proof.
  unfold all_safe_chars. induction s as [|c s IH]; simpl; [reflexivity|].
  intros H. apply andb_true_iff in H as [Hc Hs].
  rewrite (proj1 (lower_char_safe c Hc)), IH; auto.
Qed.

Lemma safe_has_no_dangerous_word s :
  all_safe_chars s = true -> has_dangerous_word s = false.
Proof.
  intros Hs. unfold has_dangerous_word. rewrite (all_safe_chars_lower s Hs).
  unfold PyStr.any_in, dangerous_words. simpl.
  assert (Hno : forall k c, In c (PyStr.chars k) ->
                  (c = "i" \/ c = "e" \/ c = "_")%char -> PyStr.contains k s = false).
  { intros k c Hk Hc. destruct (PyStr.contains k s) eqn:E; [|reflexivity].
    exfalso. pose proof (contains_chars k s c E Hk) as Hin.
    destruct (lower_char_safe c (all_safe_chars_In s c Hs Hin)) as (_ & H1 & H2 & H3).
    intuition. }
  rewrite (Hno "import" "i"%char), (Hno "exec" "e"%char),
          (Hno "eval" "e"%char), (Hno "__" "_"%char); simpl; auto.
Qed.

Section CalculatorFacts.

Variable E : env.

Lemma calculator_tool_unfold user_input w :
  calculator_tool E user_input w =
  (Ret (if negb (all_safe_chars user_input)
        then "Error: Invalid characters in mathematical expression"
        else if has_dangerous_word user_input
        then "Error: Potentially unsafe expression"
        else match eval_and_print E user_input with
             | Ret result => result
             | Raise e => ("Error: " ++ exn_msg e)%string
             end), w).
Proof.
  unfold calculator_tool, try_except, ret, lift.
  destruct (negb (all_safe_chars user_input)); [reflexivity|].
  destruct (has_dangerous_word user_input); [reflexivity|].
  destruct (eval_and_print E user_input); reflexivity.
Qed.

Lemma calculator_tool_invalid user_input w :
  all_safe_chars user_input = false ->
  calculator_tool E user_input w
  = (Ret "Error: Invalid characters in mathematical expression", w).
Proof. intros H. rewrite calculator_tool_unfold, H. reflexivity. Qed.

End CalculatorFacts.

(** C10. A text whose characters are all safe holds none of the dangerous
    words, so the calculator is the function without that branch: it
    answers the invalid-characters error, or the printed value of [eval],
    or the error [eval] raised. *)
Theorem calculator_unsafe_branch_unreachable (E : env) (user_input : string) (w : world) :
  (all_safe_chars user_input = true /\ has_dangerous_word user_input = true -> False)
  /\ calculator_tool E user_input w
     = (Ret (if negb (all_safe_chars user_input)
             then "Error: Invalid characters in mathematical expression"
             else match eval_and_print E user_input with
                  | Ret result => result
                  | Raise e => ("Error: " ++ exn_msg e)%string
                  end), w).
Proof.
  split.
  - intros [Hs Hd]. rewrite (safe_has_no_dangerous_word _ Hs) in Hd. discriminate.
  - rewrite calculator_tool_unfold.
    destruct (all_safe_chars user_input) eqn:Hs; [|reflexivity].
    rewrite (safe_has_no_dangerous_word _ Hs). reflexivity.
Qed.

Lemma emit_some acc tok rest ts :
  Calc.emit acc tok rest = Some ts -> exists r, rest = Some r.
Proof.
  unfold Calc.emit. destruct (Calc.number_token acc); [|discriminate].
  destruct rest; [eauto|discriminate].
Qed.

Lemma all_safe_chars_cons c t :
  all_safe_chars (String c t)
  = (existsb (Ascii.eqb c) safe_chars && all_safe_chars t)%bool.
Proof. reflexivity. Qed.

(** What the lexer accepts is made of safe characters. *)
Lemma lex_safe n : forall s acc ts,
  String.length s <= n -> Calc.lex s acc = Some ts -> all_safe_chars s = true.
Proof.
  induction n as [|n IH]; intros s acc ts Hlen H.
  - destruct s; [reflexivity | simpl in Hlen; lia].
  - destruct s as [|c t]; [reflexivity|].
    simpl in Hlen. rewrite all_safe_chars_cons.
    assert (IHt : forall acc' ts', Calc.lex t acc' = Some ts' -> all_safe_chars t = true)
      by (intros; eapply IH; eauto; lia).
    destruct c as [[] [] [] [] [] [] [] []]; try discriminate H;
      cbn [Calc.lex Calc.digit] in H;
      try (rewrite (IHt _ _ H); reflexivity);
      try (apply emit_some in H as [r Hr]; rewrite (IHt _ _ Hr); reflexivity).
    + (* "/" *)
      destruct t as [|c' t']; [apply emit_some in H as [r Hr]; rewrite (IHt _ _ Hr); reflexivity|].
      destruct (Ascii.eqb c' "/") eqn:Hc.
      * apply Ascii.eqb_eq in Hc; subst c'.
        apply emit_some in H as [r Hr].
        rewrite all_safe_chars_cons. rewrite (IH t' Decimal.Nil r); [reflexivity | simpl in Hlen; lia | exact Hr].
      * assert (H' : Calc.emit acc [Calc.TSlash] (Calc.lex (String c' t') Decimal.Nil) = Some ts).
        { destruct c' as [[] [] [] [] [] [] [] []]; try exact H.
          rewrite Ascii.eqb_refl in Hc; discriminate. }
        apply emit_some in H' as [r Hr]. rewrite (IHt _ _ Hr); reflexivity.
    + (* "*" *)
      destruct t as [|c' t']; [apply emit_some in H as [r Hr]; rewrite (IHt _ _ Hr); reflexivity|].
      destruct (Ascii.eqb c' "*") eqn:Hc.
      * apply Ascii.eqb_eq in Hc; subst c'.
        apply emit_some in H as [r Hr].
        rewrite all_safe_chars_cons. rewrite (IH t' Decimal.Nil r); [reflexivity | simpl in Hlen; lia | exact Hr].
      * assert (H' : Calc.emit acc [Calc.TStar] (Calc.lex (String c' t') Decimal.Nil) = Some ts).
        { destruct c' as [[] [] [] [] [] [] [] []]; try exact H.
          rewrite Ascii.eqb_refl in Hc; discriminate. }
        apply emit_some in H' as [r Hr]. rewrite (IHt _ _ Hr); reflexivity.
Qed.

Lemma eval_fragment_safe s v :
  Calc.eval_fragment s = Some v -> all_safe_chars s = true.
Proof.
  unfold Calc.eval_fragment.
  destruct (Nat.leb _ _); [|discriminate].
  destruct (Calc.lex s Decimal.Nil) as [ts|] eqn:Hl; [|discriminate].
  intros _. exact (lex_safe (String.length s) s Decimal.Nil ts (le_n _) Hl).
Qed.

Lemma prefix_append s t : String.prefix s (s ++ t) = true.
Proof.
  induction s as [|a s IH]; simpl; [destruct t; reflexivity|].
  destruct (ascii_dec a a); [exact IH | congruence].
Qed.

Lemma space_not_outside c :
  digit_operator_or_space c = false -> existsb (Ascii.eqb c) safe_chars = false.
Proof.
  unfold digit_operator_or_space. intros H. apply orb_false_iff in H as [H _]. exact H.
Qed.

Lemma all_safe_chars_false s c :
  In c (PyStr.chars s) -> existsb (Ascii.eqb c) safe_chars = false ->
  all_safe_chars s = false.
Proof.
  intros Hin Hc. destruct (all_safe_chars s) eqn:Hs; [|reflexivity].
  rewrite (all_safe_chars_In s c Hs Hin) in Hc. discriminate.
Qed.

Lemma dangerous_word_unsafe s k :
  In k dangerous_words -> PyStr.contains k s = true -> all_safe_chars s = false.
Proof.
  intros Hk Hc. destruct (all_safe_chars s) eqn:Hs; [|reflexivity]. exfalso.
  assert (Hno : forall c, In c (PyStr.chars k) ->
                  (c = "i" \/ c = "e" \/ c = "_")%char -> False).
  { intros c Hin Hcase. pose proof (contains_chars k s c Hc Hin) as Hin'.
    destruct (lower_char_safe c (all_safe_chars_In s c Hs Hin')) as (_ & H1 & H2 & H3).
    intuition. }
  unfold dangerous_words in Hk. simpl in Hk.
  destruct Hk as [<-|[<-|[<-|[<-|[]]]]].
  - apply (Hno "i"%char); simpl; auto.
  - apply (Hno "e"%char); simpl; auto.
  - apply (Hno "e"%char); simpl; auto.
  - apply (Hno "_"%char); simpl; auto.
Qed.


(* ================================================================== *)
(** * The tool selector: where the input is a non-empty string *)
(* ================================================================== *)

Section SelectorInput.

Variable E : env.

Lemma replace_blank_nonempty tool_input user_input v :
  user_input <> "" ->
  replace_blank tool_input user_input = Ret v ->
  exists s, v = PStr s /\ s <> "".
Proof.
  intros Hu. unfold replace_blank.
  destruct (negb (Py.truthy tool_input)) eqn:Ht.
  - intros H; inversion H; eauto.
  - destruct tool_input; try discriminate.
    destruct (String.eqb (PyStr.strip s) ""); intros H; inversion H; subst; eauto.
    exists s; split; [reflexivity|]. intros ->. discriminate.
Qed.

(** At the end of lines 103-146 a tool other than [none] comes with a
    non-empty string. *)
Lemma model_choice_input_nonempty tool_response user_input tool tool_input :
  user_input <> "" ->
  model_choice E tool_response user_input = Ret (tool, tool_input) ->
  Py.eq_str tool "none" = false ->
  exists s, tool_input = PStr s /\ s <> "".
Proof.
  intros Hu. unfold model_choice.
  destruct tool_response as [text|]; [|discriminate].
  destruct (decode_choice E text user_input) as [[t i]|e] eqn:Hd.
  - intros H Hn; inversion H; subst. unfold decode_choice in Hd.
    destruct (json_loads E text) as [tool_call|]; [|discriminate]. cbn [obind] in Hd.
    destruct (Py.get tool_call "tool" (PStr "none")) as [t0|]; [|discriminate].
    cbn [obind] in Hd.
    destruct (Py.get tool_call "input" (PStr user_input)) as [i0|]; [|discriminate].
    cbn [obind] in Hd.
    destruct (negb (Py.eq_str t0 "none")) eqn:Hneg.
    + destruct (replace_blank (normalize_input E i0) user_input) as [v|] eqn:Hr;
        [|discriminate].
      cbn [obind] in Hd. inversion Hd; subst.
      eapply replace_blank_nonempty; eauto.
    + inversion Hd; subst. apply negb_false_iff in Hneg. congruence.
  - destruct (exn_cls e); try discriminate.
    unfold fallback_parsing.
    repeat match goal with
           | |- context [if ?b then _ else _] => destruct b
           end; intros H _; inversion H; eauto.
Qed.

(** What the selector returns: a tool other than [none] comes with a
    non-empty string, unless the model chose [none] and the
    general-knowledge override turned it into [web_search_tool]. *)
Lemma tool_selector_input_nonempty
    (user_input : string) (session_history : list turn) (w : world)
    (tool tool_input : pyval)
    (Hu : user_input <> "")
    (Hret : fst (tool_selector E user_input session_history w) = Ret (tool, tool_input))
    (Htool : Py.eq_str tool "none" = false) :
  (exists s, tool_input = PStr s /\ s <> "")
  \/ (tool = PStr "web_search_tool"
      /\ exists tool_response,
           chat_reply E (w_tick w) (selector_request E user_input session_history)
           = Ret tool_response
           /\ model_choice E tool_response user_input = Ret (PStr "none", tool_input)).
Proof.
  rewrite tool_selector_unfold in Hret. cbv zeta in Hret.
  assert (Hfb : forall t i, keyword_fallback user_input = (t, i) ->
                            exists s, i = PStr s /\ s <> "").
  { unfold keyword_fallback. intros t i.
    repeat match goal with
           | |- context [if ?b then _ else _] => destruct b
           end; intros H; inversion H; eauto. }
  destruct (chat_reply E (w_tick w) _) as [r|e] eqn:Hc.
  - destruct (model_choice E r user_input) as [[t i]|e] eqn:Hm.
    + cbn in Hret. inversion Hret; subst. clear Hret.
      destruct (Py.eq_str t "none") eqn:Hn.
      * right. destruct t; cbn in Hn; try discriminate Hn. apply String.eqb_eq in Hn. subst s.
        unfold apply_overrides in *.
        destruct (PyStr.any_in mongodb_keywords (PyStr.lower user_input));
          destruct (PyStr.any_in general_knowledge_keywords (PyStr.lower user_input));
          cbn in Htool |- *; try discriminate Htool;
          (split; [reflexivity|]; exists r; auto).
      * left. eapply model_choice_input_nonempty; eauto.
    + cbn in Hret. inversion Hret. left. eapply Hfb; eauto.
  - cbn in Hret. inversion Hret. left. eapply Hfb; eauto.
Qed.

End SelectorInput.

Lemma tool_selector_input_nonempty_witness :
  (exists s, PStr "What was MongoDB's latest acquisition?" = PStr s /\ s <> "")
  \/ (PStr "vector_search_tool" = PStr "web_search_tool"
      /\ exists tool_response,
           chat_reply sample_env 0
             (selector_request sample_env "What was MongoDB's latest acquisition?" [])
           = Ret tool_response
           /\ model_choice sample_env tool_response "What was MongoDB's latest acquisition?"
              = Ret (PStr "none", PStr "What was MongoDB's latest acquisition?")).
Proof.
  apply (tool_selector_input_nonempty sample_env
           "What was MongoDB's latest acquisition?" [] world0
           (PStr "vector_search_tool") (PStr "What was MongoDB's latest acquisition?"));
    [discriminate | reflexivity | reflexivity].
Defined.

(* ================================================================== *)
(** * The parser accepts what the grammar shapes *)
(* ================================================================== *)

Module ParserFacts.

Import Calc Syntax Complete.

Lemma p_sum_S f ts :
  p_sum (S f) ts
  = match p_term f ts with
    | Some (a, r) => p_sum_loop f a r
    | None => None
    end.
Proof. reflexivity. Qed.

Lemma p_term_S f ts :
  p_term (S f) ts
  = match p_factor f ts with
    | Some (a, r) => p_term_loop f a r
    | None => None
    end.
Proof. reflexivity. Qed.

Lemma p_sum_loop_S f a ts :
  p_sum_loop (S f) a ts
  = match ts with
    | TPlus :: r =>
        match p_term f r with
        | Some (b, r') => p_sum_loop f (Bin OAdd a b) r'
        | None => None
        end
    | TMinus :: r =>
        match p_term f r with
        | Some (b, r') => p_sum_loop f (Bin OSub a b) r'
        | None => None
        end
    | _ => Some (a, ts)
    end.
Proof. reflexivity. Qed.

Lemma p_term_loop_S f a ts :
  p_term_loop (S f) a ts
  = match ts with
    | TStar :: r =>
        match p_factor f r with
        | Some (b, r') => p_term_loop f (Bin OMul a b) r'
        | None => None
        end
    | TSlash :: r =>
        match p_factor f r with
        | Some (b, r') => p_term_loop f (Bin ODiv a b) r'
        | None => None
        end
    | TFloor :: r =>
        match p_factor f r with
        | Some (b, r') => p_term_loop f (Bin OFloor a b) r'
        | None => None
        end
    | _ => Some (a, ts)
    end.
Proof. reflexivity. Qed.

Lemma p_factor_S f ts :
  p_factor (S f) ts
  = match ts with
    | TPlus :: r =>
        match p_factor f r with
        | Some (a, r') => Some (Pos a, r')
        | None => None
        end
    | TMinus :: r =>
        match p_factor f r with
        | Some (a, r') => Some (Neg a, r')
        | None => None
        end
    | _ =>
        match p_atom f ts with
        | Some (a, TPow :: r) =>
            match p_factor f r with
            | Some (b, r') => Some (Bin OPow a b, r')
            | None => None
            end
        | other => other
        end
    end.
Proof. reflexivity. Qed.

Lemma p_atom_S f ts :
  p_atom (S f) ts
  = match ts with
    | TNum n :: r => Some (Num n, r)
    | TLpar :: r =>
        match p_sum f r with
        | Some (e, TRpar :: r') => Some (Paren e, r')
        | _ => None
        end
    | _ => None
    end.
Proof. reflexivity. Qed.

Ltac split_matches :=
  repeat match goal with
         | H : match ?x with _ => _ end = Some _ |- _ =>
             let E := fresh "E" in destruct x eqn:E; try discriminate H
         end.

(** More fuel changes no result. *)
Lemma parser_mono_step f :
  (forall ts r, p_sum f ts = Some r -> p_sum (S f) ts = Some r)
  /\ (forall a ts r, p_sum_loop f a ts = Some r -> p_sum_loop (S f) a ts = Some r)
  /\ (forall ts r, p_term f ts = Some r -> p_term (S f) ts = Some r)
  /\ (forall a ts r, p_term_loop f a ts = Some r -> p_term_loop (S f) a ts = Some r)
  /\ (forall ts r, p_factor f ts = Some r -> p_factor (S f) ts = Some r)
  /\ (forall ts r, p_atom f ts = Some r -> p_atom (S f) ts = Some r).
Proof.
  induction f as [|f (IHs & IHsl & IHt & IHtl & IHf & IHa)].
  - repeat split; intros; discriminate.
  - repeat split.
    + intros ts r. rewrite (p_sum_S f), (p_sum_S (S f)). intros H. split_matches.
      subst. rewrite (IHt _ _ E). auto.
    + intros a ts r. rewrite (p_sum_loop_S f), (p_sum_loop_S (S f)). intros H.
      split_matches; subst; try exact H;
        match goal with E : p_term f _ = Some _ |- _ => rewrite (IHt _ _ E) end; auto.
    + intros ts r. rewrite (p_term_S f), (p_term_S (S f)). intros H. split_matches.
      subst. rewrite (IHf _ _ E). auto.
    + intros a ts r. rewrite (p_term_loop_S f), (p_term_loop_S (S f)). intros H.
      split_matches; subst; try exact H;
        match goal with E : p_factor f _ = Some _ |- _ => rewrite (IHf _ _ E) end; auto.
    + intros ts r. rewrite (p_factor_S f), (p_factor_S (S f)). intros H.
      split_matches; subst;
        repeat match goal with
               | E : p_factor f _ = Some _ |- _ => rewrite (IHf _ _ E); clear E
               | E : p_atom f _ = Some _ |- _ => rewrite (IHa _ _ E); clear E
               end; auto.
    + intros ts r. rewrite (p_atom_S f), (p_atom_S (S f)). intros H.
      split_matches; subst; try exact H;
        match goal with E : p_sum f _ = Some _ |- _ => rewrite (IHs _ _ E) end; auto.
Qed.


Lemma parser_mono f f' :
  f <= f' ->
  (forall ts r, p_sum f ts = Some r -> p_sum f' ts = Some r)
  /\ (forall a ts r, p_sum_loop f a ts = Some r -> p_sum_loop f' a ts = Some r)
  /\ (forall ts r, p_term f ts = Some r -> p_term f' ts = Some r)
  /\ (forall a ts r, p_term_loop f a ts = Some r -> p_term_loop f' a ts = Some r)
  /\ (forall ts r, p_factor f ts = Some r -> p_factor f' ts = Some r)
  /\ (forall ts r, p_atom f ts = Some r -> p_atom f' ts = Some r).
Proof.
  induction 1 as [|f' Hle (IHs & IHsl & IHt & IHtl & IHf & IHa)].
  - repeat split; auto.
  - destruct (parser_mono_step f') as (Hs & Hsl & Ht & Htl & Hf & Ha).
    repeat split; intros; auto.
Qed.

Lemma term_loop_stop f a rest :
  stops 1 rest = true -> p_term_loop (S f) a rest = Some (a, rest).
Proof.
  rewrite p_term_loop_S. destruct rest as [|[] r]; simpl; intros; try discriminate; reflexivity.
Qed.

Lemma sum_loop_stop f a rest :
  stops 0 rest = true -> p_sum_loop (S f) a rest = Some (a, rest).
Proof.
  rewrite p_sum_loop_S. destruct rest as [|[] r]; simpl; intros; try discriminate; reflexivity.
Qed.

Lemma stops_weaken l l' rest : l <= l' -> stops l rest = true -> stops l' rest = true.
Proof.
  intros Hl. destruct rest as [|[] r]; simpl; auto;
    destruct l as [|[|l]], l' as [|[|l']]; simpl; auto; lia.
Qed.

Lemma atom_tokens e :
  fits 3 e = true ->
  exists t r, tokens e = t :: r /\ ((exists n, t = TNum n) \/ t = TLpar).
Proof.
  destruct e as [n|e'|e'|e'|op a b]; simpl; try discriminate; eauto 6.
  destruct op; discriminate.
Qed.

Lemma factor_of_atom f ts a rest :
  p_atom f ts = Some (a, rest) ->
  (exists t r, ts = t :: r /\ ((exists n, t = TNum n) \/ t = TLpar)) ->
  stops 2 rest = true ->
  p_factor (S f) ts = Some (a, rest).
Proof.
  intros Ha (t & r & -> & Ht) Hstop. rewrite p_factor_S.
  destruct Ht as [[n ->]| ->]; rewrite Ha;
    destruct rest as [|[] r0]; simpl in Hstop; try discriminate; reflexivity.
Qed.

Lemma tokens_head_tail p e : tokens e = tokens (head p e) ++ tail p e.
Proof.
  induction e as [n|e' IH|e' IH|e' IH|op a IHa b IHb]; simpl;
    rewrite ?app_nil_r; try reflexivity.
  destruct (p op); simpl.
  - rewrite IHa at 1. rewrite <- app_assoc. reflexivity.
  - rewrite app_nil_r. reflexivity.
Qed.

Lemma plug_head p e : plug p (head p e) e = e.
Proof.
  induction e as [n|e' IH|e' IH|e' IH|op a IHa b IHb]; simpl; try reflexivity.
  destruct (p op) eqn:Hp; simpl; [|reflexivity]. rewrite IHa. reflexivity.
Qed.

Lemma cost_head_le p e : cost (head p e) <= cost e.
Proof.
  induction e as [n|e' IH|e' IH|e' IH|op a IHa b IHb]; simpl; try lia.
  destruct (p op); simpl; lia.
Qed.

Lemma fits_weaken l l' e : l' <= l -> fits l e = true -> fits l' e = true.
Proof.
  intros Hl. destruct e as [n|e'|e'|e'|op a b]; simpl; auto.
  - rewrite !andb_true_iff, !Nat.leb_le. intuition lia.
  - rewrite !andb_true_iff, !Nat.leb_le. intuition lia.
  - destruct op; rewrite !andb_true_iff, ?Nat.leb_le, ?Nat.eqb_eq; intuition lia.
Qed.


Lemma tail_first p e :
  tail p e = [] \/ exists op r, p op = true /\ tail p e = op_token op :: r.
Proof.
  induction e as [n|e' IH|e' IH|e' IH|op a IHa b IHb]; simpl; auto.
  destruct (p op) eqn:Hp; [|auto]. right.
  destruct IHa as [->|(op' & r & Hp' & ->)]; simpl; eauto.
Qed.

Lemma tail_stops_term e rest :
  stops 2 rest = true -> stops 2 (tail is_term_op e ++ rest) = true.
Proof.
  intros H. destruct (tail_first is_term_op e) as [->|(op & r & Hp & ->)]; [exact H|].
  destruct op; try discriminate; reflexivity.
Qed.

Lemma tail_stops_sum e rest :
  stops 1 rest = true -> stops 1 (tail is_sum_op e ++ rest) = true.
Proof.
  intros H. destruct (tail_first is_sum_op e) as [->|(op & r & Hp & ->)]; [exact H|].
  destruct op; try discriminate; reflexivity.
Qed.

Lemma term_of_chain e :
  parses_factor (head is_term_op e) -> term_chain e -> parses_term e.
Proof.
  intros Hh Hc rest f Hstop Hf.
  destruct f as [|f]; [lia|]. rewrite p_term_S.
  rewrite (tokens_head_tail is_term_op e), <- app_assoc.
  pose proof (cost_head_le is_term_op e) as Hle.
  rewrite Hh; [|apply tail_stops_term, (stops_weaken 1 2); auto | lia].
  apply (Hc _ _ 1); [apply (stops_weaken 1 2); auto | | lia].
  rewrite plug_head. apply term_loop_stop; exact Hstop.
Qed.

Lemma sum_of_chain e :
  parses_term (head is_sum_op e) -> sum_chain e -> parses_sum e.
Proof.
  intros Hh Hc rest f Hstop Hf.
  destruct f as [|f]; [lia|]. rewrite p_sum_S.
  rewrite (tokens_head_tail is_sum_op e), <- app_assoc.
  pose proof (cost_head_le is_sum_op e) as Hle.
  rewrite Hh; [|apply tail_stops_sum, (stops_weaken 0 1); auto | lia].
  apply (Hc _ _ 1); [apply (stops_weaken 0 1); auto | | lia].
  rewrite plug_head. apply sum_loop_stop; exact Hstop.
Qed.

Lemma term_chain_trivial e :
  (forall acc, plug is_term_op acc e = acc) -> tail is_term_op e = [] -> term_chain e.
Proof.
  intros Hp Ht acc rest F F' r _ H Hle. rewrite Ht, Hp in *. simpl.
  destruct (parser_mono F F') as (_ & _ & _ & Hm & _); [lia|]. auto.
Qed.

Lemma sum_chain_trivial e :
  (forall acc, plug is_sum_op acc e = acc) -> tail is_sum_op e = [] -> sum_chain e.
Proof.
  intros Hp Ht acc rest F F' r _ H Hle. rewrite Ht, Hp in *. simpl.
  destruct (parser_mono F F') as (_ & Hm & _); [lia|]. auto.
Qed.

Lemma term_chain_step op x y :
  is_term_op op = true -> term_chain x -> parses_factor y -> term_chain (Bin op x y).
Proof.
  intros Hop Hx Hy acc rest F F' r Hstop Hloop Hle.
  simpl in *. rewrite Hop in *. rewrite <- app_assoc. simpl.
  pose proof (cost_head_le is_term_op x) as Hc.
  apply (Hx _ _ (F + cost y + 3)); [destruct op; try discriminate; reflexivity | | lia].
  replace (F + cost y + 3) with (S (F + cost y + 2)) by lia.
  rewrite p_term_loop_S.
  assert (Hf : p_factor (F + cost y + 2) (tokens y ++ rest) = Some (y, rest))
    by (apply Hy; [exact Hstop | lia]).
  destruct (parser_mono F (F + cost y + 2)) as (_ & _ & _ & Hm & _); [lia|].
  destruct op; try discriminate; simpl; rewrite Hf; apply Hm; exact Hloop.
Qed.

Lemma sum_chain_step op x y :
  is_sum_op op = true -> sum_chain x -> parses_term y -> sum_chain (Bin op x y).
Proof.
  intros Hop Hx Hy acc rest F F' r Hstop Hloop Hle.
  simpl in *. rewrite Hop in *. rewrite <- app_assoc. simpl.
  pose proof (cost_head_le is_sum_op x) as Hc.
  apply (Hx _ _ (F + cost y + 4)); [destruct op; try discriminate; reflexivity | | lia].
  replace (F + cost y + 4) with (S (F + cost y + 3)) by lia.
  rewrite p_sum_loop_S.
  assert (Hf : p_term (F + cost y + 3) (tokens y ++ rest) = Some (y, rest))
    by (apply Hy; [exact Hstop | lia]).
  destruct (parser_mono F (F + cost y + 3)) as (_ & Hm & _); [lia|].
  destruct op; try discriminate; simpl; rewrite Hf; apply Hm; exact Hloop.
Qed.


(** What holds of every level once it holds of the factor level, for an
    expression that is no chain. *)
Lemma levels_of_factor e :
  is_factor_shape e = true ->
  (fits 1 e = true -> fits 2 e = true) ->
  (fits 0 e = true -> fits 2 e = true) ->
  (fits 2 e = true -> parses_factor e) ->
  (fits 1 e = true -> parses_term e)
  /\ (fits 0 e = true -> parses_sum e).
Proof.
  intros Hshape H12 H02 Hf.
  assert (Hplug : forall p, (p = is_term_op \/ p = is_sum_op) ->
            head p e = e /\ tail p e = [] /\ forall acc, plug p acc e = acc).
  { intros p Hp. destruct e as [n|e'|e'|e'|op a b]; simpl; auto.
    simpl in Hshape. apply negb_true_iff, orb_false_iff in Hshape as [Ht Hs].
    destruct Hp as [->| ->]; rewrite ?Ht, ?Hs; auto. }
  destruct (Hplug is_term_op (or_introl eq_refl)) as (Hh1 & Ht1 & Hp1).
  destruct (Hplug is_sum_op (or_intror eq_refl)) as (Hh0 & Ht0 & Hp0).
  assert (HT : fits 1 e = true -> parses_term e).
  { intros H1. apply term_of_chain.
    - rewrite Hh1. auto.
    - apply term_chain_trivial; auto. }
  split; [exact HT|].
  intros H0. apply sum_of_chain.
  - rewrite Hh0. apply HT. apply (fits_weaken 2 1); auto.
  - apply sum_chain_trivial; auto.
Qed.

Lemma levels_of_term_op op a b :
  is_term_op op = true ->
  (fits 1 a = true ->
   parses_factor (head is_term_op a) /\ term_chain a /\ parses_term a) ->
  (fits 2 b = true -> parses_factor b) ->
  (fits 3 (Bin op a b) = true -> parses_atom (Bin op a b))
  /\ (fits 2 (Bin op a b) = true -> parses_factor (Bin op a b))
  /\ (fits 1 (Bin op a b) = true ->
      parses_factor (head is_term_op (Bin op a b))
      /\ term_chain (Bin op a b) /\ parses_term (Bin op a b))
  /\ (fits 0 (Bin op a b) = true ->
      parses_term (head is_sum_op (Bin op a b))
      /\ sum_chain (Bin op a b) /\ parses_sum (Bin op a b)).
Proof.
  intros Hop IHa IHb.
  assert (Hs : is_sum_op op = false) by (destruct op; try discriminate; reflexivity).
  assert (H1 : fits 1 (Bin op a b) = true ->
               parses_factor (head is_term_op (Bin op a b))
               /\ term_chain (Bin op a b) /\ parses_term (Bin op a b)).
  { intros H. assert (Hab : fits 1 a = true /\ fits 2 b = true).
    { destruct op; try discriminate; simpl in H;
        apply andb_true_iff in H as [Ha Hb]; auto. }
    destruct Hab as [Ha Hb]. destruct (IHa Ha) as (HH & HC & _).
    assert (Hchain : term_chain (Bin op a b)) by (apply term_chain_step; auto).
    assert (Hhead : parses_factor (head is_term_op (Bin op a b)))
      by (simpl; rewrite Hop; exact HH).
    repeat split; auto. apply term_of_chain; auto. }
  split; [destruct op; discriminate|].
  split; [destruct op; discriminate|].
  split; [exact H1|].
  intros H0. assert (Hfit1 : fits 1 (Bin op a b) = true)
    by (destruct op; try discriminate; exact H0).
  destruct (H1 Hfit1) as (_ & _ & HT).
  assert (Hhead : head is_sum_op (Bin op a b) = Bin op a b) by (simpl; rewrite Hs; reflexivity).
  assert (Hchain : sum_chain (Bin op a b)).
  { apply sum_chain_trivial; simpl; rewrite Hs; auto. }
  repeat split; auto.
  - rewrite Hhead. exact HT.
  - apply sum_of_chain; [rewrite Hhead; exact HT | exact Hchain].
Qed.

Lemma parser_levels e :
  (fits 3 e = true -> parses_atom e)
  /\ (fits 2 e = true -> parses_factor e)
  /\ (fits 1 e = true ->
      parses_factor (head is_term_op e) /\ term_chain e /\ parses_term e)
  /\ (fits 0 e = true ->
      parses_term (head is_sum_op e) /\ sum_chain e /\ parses_sum e).
Proof.
  induction e as [n|e' IH|e' IH|e' IH|op a IHa b IHb].
  - (* Num *)
    assert (HA : parses_atom (Num n)).
    { intros rest f Hf. destruct f; [simpl in Hf; lia|]. reflexivity. }
    assert (HF : parses_factor (Num n)).
    { intros rest f Hstop Hf. destruct f as [|f]; [lia|].
      apply factor_of_atom; [apply HA; simpl in *; lia | simpl; eauto 6 | exact Hstop]. }
    destruct (levels_of_factor (Num n)) as [HT HS]; auto.
    repeat split; auto.
    + apply term_chain_trivial; auto.
    + apply sum_chain_trivial; auto.
  - (* Paren *)
    destruct IH as (_ & _ & _ & IHS).
    assert (HA : fits 3 (Paren e') = true -> parses_atom (Paren e')).
    { simpl. intros Hfit rest f Hf. destruct (IHS Hfit) as (_ & _ & HS).
      destruct f as [|f]; [lia|]. simpl tokens. rewrite p_atom_S.
      simpl. rewrite <- app_assoc. simpl.
      rewrite HS; [reflexivity | reflexivity | simpl in Hf; lia]. }
    assert (HF : fits 2 (Paren e') = true -> parses_factor (Paren e')).
    { intros Hfit rest f Hstop Hf. destruct f as [|f]; [lia|].
      apply factor_of_atom; [apply HA; [exact Hfit | simpl in *; lia] | simpl; eauto 6 | exact Hstop]. }
    destruct (levels_of_factor (Paren e')) as [HT HS]; auto.
    repeat split; auto.
    + apply term_chain_trivial; auto.
    + apply sum_chain_trivial; auto.
  - (* Pos *)
    destruct IH as (_ & IHF & _).
    assert (HF : fits 2 (Pos e') = true -> parses_factor (Pos e')).
    { simpl. intros Hfit rest f Hstop Hf. destruct f as [|f]; [lia|].
      simpl tokens. rewrite p_factor_S. simpl.
      rewrite (IHF Hfit); [reflexivity | exact Hstop | simpl in Hf; lia]. }
    destruct (levels_of_factor (Pos e')) as [HT HS]; auto.
    repeat split; auto; try discriminate.
    + apply term_chain_trivial; auto.
    + apply sum_chain_trivial; auto.
  - (* Neg *)
    destruct IH as (_ & IHF & _).
    assert (HF : fits 2 (Neg e') = true -> parses_factor (Neg e')).
    { simpl. intros Hfit rest f Hstop Hf. destruct f as [|f]; [lia|].
      simpl tokens. rewrite p_factor_S. simpl.
      rewrite (IHF Hfit); [reflexivity | exact Hstop | simpl in Hf; lia]. }
    destruct (levels_of_factor (Neg e')) as [HT HS]; auto.
    repeat split; auto; try discriminate.
    + apply term_chain_trivial; auto.
    + apply sum_chain_trivial; auto.
  - (* Bin *)
    destruct IHa as (IHaA & IHaF & IHaT & IHaS).
    destruct IHb as (IHbA & IHbF & IHbT & IHbS).
    destruct op.
    + (* OAdd *)
      repeat split; try discriminate; simpl in H;
        apply andb_true_iff in H as [Ha Hb]; destruct (IHaS Ha) as (HH & HC & HS);
        destruct (IHbT Hb) as (_ & _ & HbT).
      * exact HH.
      * apply sum_chain_step; auto.
      * apply sum_of_chain; [exact HH | apply sum_chain_step; auto].
    + (* OSub *)
      repeat split; try discriminate; simpl in H;
        apply andb_true_iff in H as [Ha Hb]; destruct (IHaS Ha) as (HH & HC & HS);
        destruct (IHbT Hb) as (_ & _ & HbT).
      * exact HH.
      * apply sum_chain_step; auto.
      * apply sum_of_chain; [exact HH | apply sum_chain_step; auto].
    + (* OMul *) apply levels_of_term_op; auto.
    + (* ODiv *) apply levels_of_term_op; auto.
    + (* OFloor *) apply levels_of_term_op; auto.
    + (* OPow *)
      assert (HF : fits 2 (Bin OPow a b) = true -> parses_factor (Bin OPow a b)).
      { simpl. intros Hfit rest f Hstop Hf.
        apply andb_true_iff in Hfit as [Ha Hb].
        destruct f as [|f]; [lia|]. simpl in Hf.
        assert (HpA : p_atom f (tokens a ++ TPow :: tokens b ++ rest)
                      = Some (a, TPow :: tokens b ++ rest))
          by (apply IHaA; [exact Ha | lia]).
        assert (HpF : p_factor f (tokens b ++ rest) = Some (b, rest))
          by (apply IHbF; [exact Hb | exact Hstop | lia]).
        cbn [tokens op_token]. rewrite <- app_assoc. cbn [app].
        destruct (atom_tokens a Ha) as (t & r & Htok & Ht).
        rewrite Htok in *. rewrite p_factor_S.
        destruct Ht as [[n ->]| ->]; cbn [app] in *; rewrite HpA, HpF; reflexivity. }
      destruct (levels_of_factor (Bin OPow a b)) as [HT HS]; auto.
      repeat split; auto; try discriminate.
      * apply term_chain_trivial; auto.
      * apply sum_chain_trivial; auto.
Qed.


Lemma cost_bound e : cost e + 6 <= 6 * length (tokens e).
Proof.
  induction e as [n|e' IH|e' IH|e' IH|op a IHa b IHb]; simpl;
    rewrite ?length_app; simpl; lia.
Qed.

(** Every expression of the grammar is parsed back from its tokens. *)
Lemma parse_tokens e : fits 0 e = true -> parse (tokens e) = Some e.
Proof.
  intros Hfit. unfold parse.
  destruct (parser_levels e) as (_ & _ & _ & HS).
  destruct (HS Hfit) as (_ & _ & Hsum).
  pose proof (Hsum [] (6 * length (tokens e) + 6) eq_refl) as H.
  rewrite app_nil_r in H. rewrite H; [reflexivity|].
  pose proof (cost_bound e). lia.
Qed.

Lemma lex_digits u : forall s acc,
  lex (NilEmpty.string_of_uint u ++ s) acc = lex s (Decimal.revapp u acc).
Proof.
  induction u; intros s acc; simpl; try apply IHu. reflexivity.
Qed.

Lemma nzhead_not_D0 d d' : Decimal.nzhead d <> Decimal.D0 d'.
Proof. induction d; simpl; try discriminate; auto. Qed.

Lemma unorm_literal_ok u : Decimal.unorm u = u -> literal_ok u = true.
Proof.
  destruct u; intros H; try reflexivity; [discriminate H|].
  unfold Decimal.unorm in H. cbn [Decimal.nzhead] in H. cbn [literal_ok].
  destruct (Decimal.nzhead u) eqn:Hn; try discriminate H.
  - inversion H; reflexivity.
  - exfalso. apply (nzhead_not_D0 u u0). exact Hn.
Qed.

Lemma number_token_rev n :
  number_token (Decimal.rev (N.to_uint n)) = Some [TNum n].
Proof.
  assert (Hnorm : Decimal.unorm (N.to_uint n) = N.to_uint n).
  { rewrite <- (DecimalN.Unsigned.of_to n) at 2.
    rewrite DecimalN.Unsigned.to_of. reflexivity. }
  assert (Hnn : Decimal.rev (N.to_uint n) <> Decimal.Nil).
  { intros H. apply DecimalFacts.rev_nil_inv in H. rewrite H in Hnorm. discriminate. }
  assert (Hgen : forall acc, acc <> Decimal.Nil ->
            number_token acc
            = if literal_ok (Decimal.rev acc)
              then Some [TNum (N.of_uint (Decimal.rev acc))] else None).
  { intros acc Hacc. destruct acc; try reflexivity. congruence. }
  rewrite (Hgen _ Hnn), DecimalFacts.rev_rev, (unorm_literal_ok _ Hnorm), DecimalN.Unsigned.of_to.
  reflexivity.
Qed.

Lemma append_empty s : (s ++ "")%string = s.
Proof. induction s; simpl; congruence. Qed.

(** One token, alone or in front of a space. *)
Lemma lex_token t :
  lex (render_token t) Decimal.Nil = Some [t]
  /\ forall s ts, lex s Decimal.Nil = Some ts ->
       lex (render_token t ++ String " " s) Decimal.Nil = Some (t :: ts).
Proof.
  destruct t as [n| | | | | | | |];
    try (split; [reflexivity | intros s ts H; simpl; rewrite H; reflexivity]).
  split.
  - simpl. rewrite <- (append_empty (NilEmpty.string_of_uint (N.to_uint n))).
    rewrite lex_digits. simpl. apply number_token_rev.
  - intros s ts H. simpl. rewrite lex_digits.
    change (Decimal.revapp (N.to_uint n) Decimal.Nil) with (Decimal.rev (N.to_uint n)).
    simpl. unfold emit. rewrite number_token_rev, H. reflexivity.
Qed.

Lemma lex_join ts :
  lex (PyStr.join " " (map render_token ts)) Decimal.Nil = Some ts.
Proof.
  unfold PyStr.join. induction ts as [|t ts IH]; [reflexivity|].
  destruct ts as [|t' ts'].
  - simpl. apply lex_token.
  - change (String.concat " " (map render_token (t :: t' :: ts')))
      with (render_token t ++ String " " (String.concat " " (map render_token (t' :: ts'))))%string.
    apply lex_token. exact IH.
Qed.

(** The text of an expression of the grammar evaluates as the expression. *)
Lemma eval_fragment_render e :
  fits 0 e = true -> String.length (render e) <= fragment_max_len ->
  eval_fragment (render e) = Some (eval e).
Proof.
  intros Hfit Hlen. unfold eval_fragment.
  rewrite (proj2 (Nat.leb_le _ _) Hlen).
  unfold render. rewrite lex_join, (parse_tokens e Hfit). reflexivity.
Qed.

End ParserFacts.

(* ================================================================== *)
(** * The calculator on integer arithmetic, however it is spaced *)
(* ================================================================== *)

Module LayoutFacts.

Import Calc Syntax Meaning ParserFacts.

Lemma lex_spaces k : forall s, lex (spaces k ++ s) Decimal.Nil = lex s Decimal.Nil.
Proof.
  induction k as [|k IH]; intros s; [reflexivity|].
  cbn [spaces append lex digit]. unfold emit. cbn [number_token]. rewrite IH.
  destruct (lex s Decimal.Nil); reflexivity.
Qed.

(** In front of such a character the literal read so far is closed. *)
Lemma lex_flush s acc :
  parts s = true ->
  lex s acc = match number_token acc with
              | Some a => option_map (app a) (lex s Decimal.Nil)
              | None => None
              end.
Proof.
  destruct s as [|c t]; cbn [parts].
  - intros _. cbn [lex number_token option_map].
    destruct (number_token acc); [rewrite app_nil_r|]; reflexivity.
  - destruct (digit c) eqn:Hd; [discriminate|]. intros _. cbn [lex]. rewrite Hd.
    assert (Hemit : forall tok rest,
              emit acc tok rest
              = match number_token acc with
                | Some a => option_map (app a) (emit Decimal.Nil tok rest)
                | None => None
                end).
    { intros tok rest. unfold emit. cbn [number_token].
      destruct (number_token acc); [|reflexivity]. destruct rest; reflexivity. }
    destruct c as [[|] [|] [|] [|] [|] [|] [|] [|]];
      try (destruct (number_token acc); reflexivity);
      try apply Hemit;
      destruct t as [|c' t']; try apply Hemit;
      destruct c' as [[|] [|] [|] [|] [|] [|] [|] [|]]; apply Hemit.
Qed.

Lemma to_uint_head n :
  exists c s, NilEmpty.string_of_uint (N.to_uint n) = String c s /\ digit c <> None.
Proof.
  assert (Hnorm : Decimal.unorm (N.to_uint n) = N.to_uint n).
  { rewrite <- (DecimalN.Unsigned.of_to n) at 2.
    rewrite DecimalN.Unsigned.to_of. reflexivity. }
  destruct (N.to_uint n) as [|u|u|u|u|u|u|u|u|u|u]; [discriminate Hnorm| | | | | | | | | |];
    cbn [NilEmpty.string_of_uint]; eexists _, _; (split; [reflexivity | discriminate]).
Qed.

(** How the text goes on after a token: it ends, or with a space, or
    with the first character of the next token. *)
Lemma after_token g rest gaps :
  (spaces g ++ layout rest gaps)%string = EmptyString
  \/ (exists s, (spaces g ++ layout rest gaps)%string = String " " s)
  \/ (exists t' r' c s0 s,
        rest = t' :: r' /\ render_token t' = String c s0
        /\ (spaces g ++ layout rest gaps)%string = String c s).
Proof.
  destruct g as [|g]; [|right; left; cbn; eauto].
  destruct rest as [|t' r']; [left; reflexivity|].
  right; right. cbn [spaces append layout].
  assert (exists c s0, render_token t' = String c s0) as (c & s0 & Hc).
  { destruct t' as [n| | | | | | | |]; cbn [render_token]; eauto.
    destruct (to_uint_head n) as (c & s & -> & _). eauto. }
  exists t', r', c, s0. rewrite Hc. cbn [append]. eauto.
Qed.

Lemma number_head n c s0 :
  render_token (TNum n) = String c s0 -> digit c <> None.
Proof.
  cbn [render_token]. destruct (to_uint_head n) as (c' & s & -> & Hd).
  intros H; inversion H; subst. exact Hd.
Qed.

Lemma emit_nil tok rest : emit Decimal.Nil tok rest = option_map (app tok) rest.
Proof. unfold emit. cbn [number_token]. destruct rest; reflexivity. Qed.

(** One token in front of a text. *)
Lemma lex_number n u :
  parts u = true ->
  lex (render_token (TNum n) ++ u) Decimal.Nil = option_map (cons (TNum n)) (lex u Decimal.Nil).
Proof.
  intros Hu. cbn [render_token]. rewrite lex_digits, (lex_flush u _ Hu).
  change (Decimal.revapp (N.to_uint n) Decimal.Nil) with (Decimal.rev (N.to_uint n)).
  rewrite number_token_rev. destruct (lex u Decimal.Nil); reflexivity.
Qed.

Lemma lex_operator t u :
  match t with
  | TNum _ => False
  | TStar => forall v, u <> String "*" v
  | TSlash => forall v, u <> String "/" v
  | _ => True
  end ->
  lex (render_token t ++ u) Decimal.Nil = option_map (cons t) (lex u Decimal.Nil).
Proof.
  destruct t as [n| | | | | | | |]; intros H; try destruct H;
    try (cbn [render_token append lex digit]; rewrite emit_nil;
         destruct (lex u Decimal.Nil); reflexivity).
  - cbn [render_token append lex digit].
    destruct u as [|c v]; [rewrite emit_nil; reflexivity|].
    destruct c as [[|] [|] [|] [|] [|] [|] [|] [|]];
      try (rewrite emit_nil; destruct (lex _ Decimal.Nil); reflexivity).
    exfalso. exact (H v eq_refl).
  - cbn [render_token append lex digit].
    destruct u as [|c v]; [rewrite emit_nil; reflexivity|].
    destruct c as [[|] [|] [|] [|] [|] [|] [|] [|]];
      try (rewrite emit_nil; destruct (lex _ Decimal.Nil); reflexivity).
    exfalso. exact (H v eq_refl).
Qed.

Lemma lex_layout ts : forall gaps,
  no_glue ts = true -> lex (layout ts gaps) Decimal.Nil = Some ts.
Proof.
  induction ts as [|t rest IH]; intros gaps Hglue; [reflexivity|].
  assert (Hrest : lex (spaces (hd 0 gaps) ++ layout rest (tl gaps)) Decimal.Nil = Some rest).
  { rewrite lex_spaces. apply IH. destruct rest as [|t' r']; [reflexivity|].
    cbn [no_glue] in Hglue. apply andb_prop in Hglue as [_ H]. exact H. }
  assert (Hnext : forall t' r', rest = t' :: r' -> glued t t' = false).
  { intros t' r' ->. cbn [no_glue] in Hglue. apply andb_prop in Hglue as [H _].
    apply negb_true_iff in H. exact H. }
  cbn [layout].
  set (u := (spaces (hd 0 gaps) ++ layout rest (tl gaps))%string) in *.
  assert (Hu : (u = EmptyString \/ exists s, u = String " " s)
               \/ exists t' r' c s0 s,
                    rest = t' :: r' /\ render_token t' = String c s0 /\ u = String c s).
  { destruct (after_token (hd 0 gaps) rest (tl gaps)) as [He|[Hs|Hn]]; auto. }
  clearbody u.
  destruct t as [n| | | | | | | |].
  - rewrite lex_number, Hrest; [reflexivity|].
    destruct Hu as [[->|[s ->]]|(t' & r' & c & s0 & s & Hr & Hc & ->)]; try reflexivity.
    specialize (Hnext t' r' Hr). cbn [parts].
    destruct t' as [n'| | | | | | | |]; try discriminate Hnext;
      cbn [render_token] in Hc; inversion Hc; reflexivity.
  - rewrite lex_operator, Hrest; [reflexivity | exact I].
  - rewrite lex_operator, Hrest; [reflexivity | exact I].
  - rewrite lex_operator, Hrest; [reflexivity|]. intros v Hv.
    destruct Hu as [[He|[s Hs]]|(t' & r' & c & s0 & s & Hr & Hc & Hs)];
      rewrite Hv in *; try discriminate.
    inversion Hs; subst c. specialize (Hnext t' r' Hr).
    destruct t' as [n'| | | | | | | |]; try discriminate Hnext;
      try (cbn [render_token] in Hc; discriminate Hc).
    apply number_head in Hc. apply Hc. reflexivity.
  - rewrite lex_operator, Hrest; [reflexivity | exact I].
  - rewrite lex_operator, Hrest; [reflexivity|]. intros v Hv.
    destruct Hu as [[He|[s Hs]]|(t' & r' & c & s0 & s & Hr & Hc & Hs)];
      rewrite Hv in *; try discriminate.
    inversion Hs; subst c. specialize (Hnext t' r' Hr).
    destruct t' as [n'| | | | | | | |]; try discriminate Hnext;
      try (cbn [render_token] in Hc; discriminate Hc).
    apply number_head in Hc. apply Hc. reflexivity.
  - rewrite lex_operator, Hrest; [reflexivity | exact I].
  - rewrite lex_operator, Hrest; [reflexivity | exact I].
  - rewrite lex_operator, Hrest; [reflexivity | exact I].
Qed.

Lemma no_glue_cons t t' r :
  no_glue (t :: t' :: r) = (negb (glued t t') && no_glue (t' :: r))%bool.
Proof. reflexivity. Qed.

Lemma no_glue_app l1 : forall l2,
  no_glue l1 = true -> no_glue l2 = true ->
  (forall r1 a b r2, l1 = r1 ++ [a] -> l2 = b :: r2 -> glued a b = false) ->
  no_glue (l1 ++ l2) = true.
Proof.
  induction l1 as [|t l1 IH]; intros l2 H1 H2 Hj; [exact H2|].
  destruct l1 as [|t' l1'].
  - cbn [app]. destruct l2 as [|b r2]; [reflexivity|]. rewrite no_glue_cons.
    rewrite (Hj [] t b r2 eq_refl eq_refl), H2. reflexivity.
  - rewrite no_glue_cons in H1. apply andb_prop in H1 as [Ht H1].
    change ((t :: t' :: l1') ++ l2) with (t :: t' :: (l1' ++ l2)).
    rewrite no_glue_cons, Ht. change (t' :: l1' ++ l2) with ((t' :: l1') ++ l2).
    rewrite IH; [reflexivity | exact H1 | exact H2 |].
    intros r1 a b r2 Hr Hb. apply (Hj (t :: r1) a b r2); [|exact Hb].
    rewrite Hr. reflexivity.
Qed.

Lemma tokens_first e : exists t r, tokens e = t :: r /\ opens t = true.
Proof.
  induction e as [n|e' IH|e' IH|e' IH|op a IHa b IHb]; cbn [tokens]; eauto.
  destruct IHa as (t & r & -> & Ht). cbn [app]. eauto.
Qed.

Lemma tokens_last e : forall r t, tokens e = r ++ [t] -> closes t = true.
Proof.
  induction e as [n|e' IH|e' IH|e' IH|op a IHa b IHb]; cbn [tokens]; intros r t H.
  - destruct r as [|x r]; [inversion H; reflexivity|].
    destruct r; discriminate H.
  - change (TLpar :: tokens e' ++ [TRpar]) with ((TLpar :: tokens e') ++ [TRpar]) in H.
    apply app_inj_tail in H as [_ <-]. reflexivity.
  - destruct r as [|x r].
    + destruct (tokens_first e') as (t0 & r0 & Ht & _). rewrite Ht in H. discriminate H.
    + inversion H. eapply IH; eauto.
  - destruct r as [|x r].
    + destruct (tokens_first e') as (t0 & r0 & Ht & _). rewrite Ht in H. discriminate H.
    + inversion H. eapply IH; eauto.
  - destruct (tokens_first b) as (t0 & r0 & Hb & _).
    destruct (exists_last (l := tokens b)) as (rb & tb & Hlb); [rewrite Hb; discriminate|].
    rewrite Hlb in H.
    change (tokens a ++ op_token op :: rb ++ [tb])
      with (tokens a ++ (op_token op :: rb) ++ [tb]) in H.
    rewrite app_assoc in H. apply app_inj_tail in H as [_ <-].
    eapply IHb; eauto.
Qed.

Lemma closes_not_glued a op : closes a = true -> glued a (op_token op) = false.
Proof. destruct a; try discriminate; destruct op; reflexivity. Qed.

Lemma opens_not_glued a b : opens b = true -> (forall n, a <> TNum n) -> glued a b = false.
Proof.
  destruct b; try discriminate; destruct a; try reflexivity; intros _ H;
    exfalso; eapply H; reflexivity.
Qed.

(** No two tokens of an expression need a space between them. *)
Lemma no_glue_tokens e : no_glue (tokens e) = true.
Proof.
  induction e as [n|e' IH|e' IH|e' IH|op a IHa b IHb]; cbn [tokens].
  - reflexivity.
  - destruct (tokens_first e') as (t & r & Ht & Hopen).
    change (TLpar :: tokens e' ++ [TRpar]) with ([TLpar] ++ tokens e' ++ [TRpar]).
    apply no_glue_app; [reflexivity| |].
    + apply no_glue_app; [exact IH | reflexivity|].
      intros r1 a b r2 Ha Hb. inversion Hb; subst b.
      apply tokens_last in Ha. destruct a; try discriminate; reflexivity.
    + intros r1 a b r2 Ha _. destruct r1 as [|x r1]; [|destruct r1; discriminate Ha].
      inversion Ha. reflexivity.
  - destruct (tokens_first e') as (t & r & Ht & Hopen). rewrite Ht in *.
    rewrite no_glue_cons, IH. destruct t; reflexivity.
  - destruct (tokens_first e') as (t & r & Ht & Hopen). rewrite Ht in *.
    rewrite no_glue_cons, IH. destruct t; reflexivity.
  - destruct (tokens_first b) as (t & r & Ht & Hopen).
    apply no_glue_app; [exact IHa| |].
    + rewrite Ht in *. rewrite no_glue_cons, IHb.
      rewrite opens_not_glued; [reflexivity | exact Hopen|].
      intros n. destruct op; discriminate.
    + intros r1 x y r2 Ha Hb. inversion Hb; subst y.
      apply tokens_last in Ha. apply closes_not_glued. exact Ha.
Qed.

(** The model's evaluator computes the integer an expression denotes. *)
Lemma eval_value e : forall z,
  value e = Some z -> in_range e = true -> eval e = VInt z.
Proof.
  assert (Hb : forall z, below_limit z = true -> bounded z = VInt z).
  { intros z H. unfold bounded. unfold below_limit in H. rewrite H. reflexivity. }
  induction e as [n|e' IH|e' IH|e' IH|op a IHa b IHb]; intros z Hv Hr;
    cbn [in_range] in Hr; rewrite Hv in Hr; apply andb_prop in Hr as [Hz Hr];
    cbn [value] in Hv; cbn [eval].
  - inversion Hv; subst. apply Hb, Hz.
  - apply IH; assumption.
  - apply IH; assumption.
  - destruct (value e') as [z'|] eqn:Hv'; [|discriminate]. cbn in Hv. inversion Hv; subst.
    rewrite (IH z' eq_refl Hr). apply Hb, Hz.
  - apply andb_prop in Hr as [Hra Hrb].
    destruct (value a) as [x|] eqn:Hva; [|discriminate].
    destruct (value b) as [y|] eqn:Hvb; [|discriminate].
    rewrite (IHa x eq_refl Hra), (IHb y eq_refl Hrb).
    destruct op; cbn [apply_binop]; try discriminate Hv.
    + inversion Hv; subst. apply Hb, Hz.
    + inversion Hv; subst. apply Hb, Hz.
    + inversion Hv; subst. apply Hb, Hz.
    + destruct (Z.eqb y 0); [discriminate|]. inversion Hv; subst. apply Hb, Hz.
    + destruct (Z.ltb y 0); [discriminate|]. inversion Hv; subst. apply Hb, Hz.
Qed.

(** The text of an expression of the grammar, however spaced, evaluates
    as the expression. *)
Lemma eval_fragment_written lead gaps e :
  fits 0 e = true -> String.length (written lead gaps e) <= fragment_max_len ->
  eval_fragment (written lead gaps e) = Some (eval e).
Proof.
  intros Hfit Hlen. unfold eval_fragment.
  rewrite (proj2 (Nat.leb_le _ _) Hlen).
  unfold written. rewrite lex_spaces, (lex_layout _ _ (no_glue_tokens e)), (parse_tokens e Hfit).
  reflexivity.
Qed.

End LayoutFacts.

(** The calculator returns in every world, leaving it as it was.  A
    text with a character outside the digits, [+-*/.() ] and whitespace,
    or holding one of the dangerous words, gets an error text, and what
    [eval] raises comes back as an error text.  An expression of
    Python's grammar over integer literals, [+ - * // **], signs and
    parentheses, written with any number of spaces before it and after
    each token, within the fragment's bounds, gets the decimal print of
    the integer it denotes; a division by an expression worth zero gets
    the text of the ZeroDivisionError. *)
Theorem calculator_tool_arithmetic (E : env) (w : world) :
  (forall s, exists r, calculator_tool E s w = (Ret r, w))
  /\ (forall s c, In c (PyStr.chars s) -> digit_operator_or_space c = false ->
        calculator_tool E s w
        = (Ret "Error: Invalid characters in mathematical expression", w))
  /\ (forall s k, In k dangerous_words -> PyStr.contains k s = true ->
        exists r, calculator_tool E s w = (Ret r, w) /\ is_error_text r = true)
  /\ (forall s e, all_safe_chars s = true -> eval_and_print E s = Raise e ->
        calculator_tool E s w = (Ret ("Error: " ++ exn_msg e)%string, w)
        /\ is_error_text ("Error: " ++ exn_msg e) = true)
  /\ (forall e lead gaps z,
        Syntax.fits 0 e = true ->
        String.length (Meaning.written lead gaps e) <= Calc.fragment_max_len ->
        Meaning.value e = Some z ->
        Meaning.in_range e = true ->
        calculator_tool E (Meaning.written lead gaps e) w = (Ret (PyStr.decimal z), w))
  /\ (forall a b lead gaps x,
        Syntax.fits 0 (Calc.Bin Calc.ODiv a b) = true ->
        String.length (Meaning.written lead gaps (Calc.Bin Calc.ODiv a b))
        <= Calc.fragment_max_len ->
        Meaning.value a = Some x -> Meaning.in_range a = true ->
        Meaning.value b = Some 0%Z -> Meaning.in_range b = true ->
        calculator_tool E (Meaning.written lead gaps (Calc.Bin Calc.ODiv a b)) w
        = (Ret "Error: division by zero", w))
  /\ (calculator_tool E "15 * 23 + 45" w = (Ret "390", w)
      /\ calculator_tool E "15*23+45" w = (Ret "390", w)
      /\ calculator_tool E "7 - 2 * 3" w = (Ret "1", w)
      /\ calculator_tool E "(7 - 2) * 3" w = (Ret "15", w)
      /\ calculator_tool E "2 ** 3 ** 2" w = (Ret "512", w)
      /\ calculator_tool E "-2 ** 2" w = (Ret "-4", w)
      /\ calculator_tool E "7 // -2" w = (Ret "-4", w)
      /\ calculator_tool E "1/0" w = (Ret "Error: division by zero", w)
      /\ calculator_tool E "import os" w
         = (Ret "Error: Invalid characters in mathematical expression", w)).
Proof.
  assert (Hfrag : forall s v, Calc.eval_fragment s = Some v ->
            calculator_tool E s w
            = (Ret (match v with
                    | Calc.VInt z => PyStr.decimal z
                    | Calc.VRaise x => ("Error: " ++ exn_msg x)%string
                    | Calc.VOutside =>
                        match host_eval E s with
                        | Ret r => r
                        | Raise x => ("Error: " ++ exn_msg x)%string
                        end
                    end), w)).
  { intros s v H. rewrite calculator_tool_unfold.
    pose proof (eval_fragment_safe s _ H) as Hs.
    rewrite Hs, (safe_has_no_dangerous_word s Hs). unfold eval_and_print. rewrite H.
    destruct v; reflexivity. }
  split; [|split; [|split; [|split; [|split; [|split]]]]].
  - intros s. rewrite calculator_tool_unfold. eauto.
  - intros s c Hin Hc. apply calculator_tool_invalid.
    eapply all_safe_chars_false; eauto using space_not_outside.
  - intros s k Hk Hc. eexists; split.
    + apply calculator_tool_invalid. eapply dangerous_word_unsafe; eauto.
    + reflexivity.
  - intros s e Hs He. split; [|apply prefix_append].
    rewrite calculator_tool_unfold.
    rewrite Hs, (safe_has_no_dangerous_word s Hs), He. reflexivity.
  - intros e lead gaps z Hfit Hlen Hz Hr.
    rewrite (Hfrag _ _ (LayoutFacts.eval_fragment_written lead gaps e Hfit Hlen)).
    rewrite (LayoutFacts.eval_value e z Hz Hr). reflexivity.
  - intros a b lead gaps x Hfit Hlen Ha Hra Hb Hrb.
    rewrite (Hfrag _ _ (LayoutFacts.eval_fragment_written lead gaps _ Hfit Hlen)).
    cbn [Calc.eval].
    rewrite (LayoutFacts.eval_value a x Ha Hra), (LayoutFacts.eval_value b 0%Z Hb Hrb).
    reflexivity.
  - repeat (split; [erewrite Hfrag by (vm_compute; reflexivity); reflexivity|]).
    apply calculator_tool_invalid. reflexivity.
Qed.

Lemma calculator_tool_arithmetic_witness :
  calculator_tool sample_env "15*23+45" world0 = (Ret "390", world0)
  /\ calculator_tool sample_env "  ( 1+2 )*3" world0 = (Ret "9", world0).
Proof.
  destruct (calculator_tool_arithmetic sample_env world0)
    as (_ & _ & _ & _ & Hvalue & _).
  split.
  - apply (Hvalue sample_sum 0 [] 390%Z);
      [reflexivity | vm_compute; lia | reflexivity | vm_compute; reflexivity].
  - apply (Hvalue
             (Calc.Bin Calc.OMul
                (Calc.Paren (Calc.Bin Calc.OAdd (Calc.Num 1) (Calc.Num 2))) (Calc.Num 3))
             2 [1; 0; 0; 1] 9%Z);
      [reflexivity | vm_compute; lia | reflexivity | vm_compute; reflexivity].
Defined.

(* ================================================================== *)
(** * Further properties of the pipeline *)
(* ================================================================== *)

Lemma retrieve_session_history_role_missing_witness :
  fst (retrieve_session_history sample_env "demo" None fact_world) = Ret [].
Proof.
  apply (retrieve_session_history_role_missing sample_env "demo" fact_world
           (mkDoc "demo" None (Some "MongoDB acquired Voyage AI") 0%Z None
                  (Some "important_fact") None));
    [left; reflexivity | reflexivity | reflexivity].
Defined.

(** A selection costs one generation request, and the selector returns. *)
Theorem tool_selector_single_request
    (E : env) (user_input : string) (session_history : list turn) (w : world) :
  exists tool tool_input w',
    tool_selector E user_input session_history w = (Ret (tool, tool_input), w')
    /\ w_chat_log w' = w_chat_log w ++ [selector_request E user_input session_history]
    /\ w_tick w' = S (w_tick w)
    /\ w_memory w' = w_memory w.
Proof.
  rewrite tool_selector_unfold. cbv zeta.
  destruct (chat_reply E (w_tick w) _) as [r|e].
  - destruct (model_choice E r user_input) as [[t i]|e]; eauto 8.
    destruct (keyword_fallback user_input) as [t i]; eauto 8.
  - destruct (keyword_fallback user_input) as [t i]; eauto 8.
Qed.

Lemma untagged_has_no_type tag results :
  (forall d, In d results -> d_search_type d = None) ->
  filter (has_type tag) results = [].
Proof.
  induction results as [|d rest IH]; intros H; [reflexivity|]. cbn [filter].
  unfold has_type at 1. rewrite (H d (or_introl eq_refl)).
  apply IH. intros x Hx. apply H. right; exact Hx.
Qed.

(** On the fallback path the results of the hybrid search carry no
    [search_type]: neither of the two groups [process_hybrid_search_response]
    renders holds any of them, and the instruction it sends has an empty
    context, however many documents came back. *)
Theorem hybrid_search_tool_fallback_untagged
    (E : env) (user_input : string) (limit : nat) (w w1 : world) (e : exn)
    (Hraise : hybrid_combine E user_input limit w = (Raise e, w1)) :
  exists results w',
    hybrid_search_tool E user_input limit w = (Ret results, w')
    /\ (forall d, In d results -> d_search_type d = None)
    /\ filter (has_type Vector) results = []
    /\ filter (has_type Text) results = []
    /\ forall messages asked w2,
         process_hybrid_search_response E messages results asked w2
         = match results with
           | [] => (Ret (Some "I couldn't find relevant information to answer your question."),
                    w2)
           | _ :: _ => get_llm_response E messages (hybrid_system_message "") w2
           end.
Proof.
  unfold hybrid_search_tool, try_except. rewrite Hraise.
  destruct (vector_search_tool_never_raises E user_input limit w1) as [results [w' Hv]].
  exists results, w'. split; [exact Hv|].
  assert (Hnone : forall d, In d results -> d_search_type d = None)
    by (intros d; eapply vector_search_tool_untagged; eauto).
  split; [exact Hnone|].
  split; [apply untagged_has_no_type, Hnone|].
  split; [apply untagged_has_no_type, Hnone|].
  intros messages asked w2. unfold process_hybrid_search_response.
  destruct results as [|d rest]; [reflexivity|]. cbv zeta.
  rewrite !(untagged_has_no_type _ _ Hnone). reflexivity.
Qed.

Lemma hybrid_search_tool_fallback_untagged_witness :
  exists results w',
    hybrid_search_tool no_text_index_env "voyage" 5 world0 = (Ret results, w')
    /\ (forall d, In d results -> d_search_type d = None)
    /\ filter (has_type Vector) results = []
    /\ filter (has_type Text) results = []
    /\ forall messages asked w2,
         process_hybrid_search_response no_text_index_env messages results asked w2
         = match results with
           | [] => (Ret (Some "I couldn't find relevant information to answer your question."),
                    w2)
           | _ :: _ => get_llm_response no_text_index_env messages (hybrid_system_message "") w2
           end.
Proof.
  apply (hybrid_search_tool_fallback_untagged no_text_index_env "voyage" 5 world0
           (mkWorld [] [] 3)
           (mkExn ServiceError "text index required for $text query") eq_refl).
Defined.

(** At the sample corpus, with the text index out of reach, the two
    documents of the vector search come back and the instruction sent
    holds neither. *)
Example hybrid_fallback_renders_nothing :
  fst (hybrid_search_tool no_text_index_env "voyage" 5 world0)
  = Ret [doc_atlas; doc_voyage]
  /\ forall messages asked w2,
       process_hybrid_search_response no_text_index_env messages
         [doc_atlas; doc_voyage] asked w2
       = get_llm_response no_text_index_env messages (hybrid_system_message "") w2.
Proof. split; reflexivity. Qed.

(* ================================================================== *)
(** * The memory store: facts, long-term notes, clearing *)
(* ================================================================== *)




Lemma insert_by_timestamp_desc_In d l x :
  In x (insert_by_timestamp_desc d l) <-> x = d \/ In x l.
Proof.
  induction l as [|a l IH]; simpl; [intuition|].
  destruct (Z.leb (m_timestamp a) (m_timestamp d)); simpl; [intuition|].
  rewrite IH; intuition.
Qed.

Lemma sort_by_timestamp_desc_In l x : In x (sort_by_timestamp_desc l) <-> In x l.
Proof.
  induction l as [|a l IH]; simpl; [tauto|].
  rewrite insert_by_timestamp_desc_In, IH. intuition.
Qed.

Lemma insert_by_timestamp_desc_sorted d l :
  StronglySorted newest_first l -> StronglySorted newest_first (insert_by_timestamp_desc d l).
Proof.
  induction 1 as [|a l Hs IH Ha]; simpl.
  - constructor; constructor.
  - destruct (Z.leb (m_timestamp a) (m_timestamp d)) eqn:Hle.
    + apply Z.leb_le in Hle. constructor; [constructor; assumption|].
      constructor; [exact Hle|].
      rewrite Forall_forall in *. intros y Hy. specialize (Ha y Hy).
      unfold newest_first in *. lia.
    + apply Z.leb_gt in Hle. constructor; [exact IH|].
      rewrite Forall_forall in *. intros y Hy.
      apply insert_by_timestamp_desc_In in Hy as [->|Hy]; [unfold newest_first; lia|auto].
Qed.

Lemma sort_by_timestamp_desc_sorted l : StronglySorted newest_first (sort_by_timestamp_desc l).
Proof.
  induction l as [|a l IH]; simpl; [constructor|].
  apply insert_by_timestamp_desc_sorted, IH.
Qed.

(** A record newer than all the others comes first. *)
Lemma sort_by_timestamp_desc_newest l d :
  (forall x, In x l -> (m_timestamp x < m_timestamp d)%Z) ->
  sort_by_timestamp_desc (l ++ [d]) = d :: sort_by_timestamp_desc l.
Proof.
  intros H. unfold sort_by_timestamp_desc. rewrite fold_right_app. simpl.
  induction l as [|a l IH]; [reflexivity|]. simpl.
  rewrite IH by (intros; apply H; simpl; auto). simpl.
  rewrite (proj2 (Z.leb_gt _ _)); [reflexivity|]. apply H; left; reflexivity.
Qed.

Lemma apply_limit_In {A} limit (l : list A) x : In x (apply_limit limit l) -> In x l.
Proof.
  destruct limit as [[|n]|]; simpl; auto. destruct l as [|a l]; simpl; auto.
  intros [->|H]; auto. right. eapply firstn_In; eauto.
Qed.

Lemma apply_limit_length {A} limit (l : list A) :
  0 < limit -> length (apply_limit (Some limit) l) <= limit.
Proof.
  destruct limit as [|n]; [lia|]. intros _. cbn [apply_limit]. apply firstn_le_length.
Qed.

Lemma append_inj_l (p a b : string) : (p ++ a = p ++ b)%string -> a = b.
Proof. induction p as [|c p IH]; simpl; [auto|]. intros H; inversion H; auto. Qed.

Lemma without_session_none session_id l :
  filter (in_session session_id) (filter (fun d => negb (in_session session_id d)) l) = [].
Proof.
  induction l as [|d l IH]; [reflexivity|]. cbn [filter].
  destruct (in_session session_id d) eqn:Hd; cbn [negb filter]; [exact IH|].
  rewrite Hd. exact IH.
Qed.

Lemma without_session_other session_id other l :
  other <> session_id ->
  filter (in_session other) (filter (fun d => negb (in_session session_id d)) l)
  = filter (in_session other) l.
Proof.
  intros Hne. induction l as [|d l IH]; [reflexivity|]. cbn [filter].
  destruct (in_session session_id d) eqn:Hd; cbn [negb filter].
  - assert (in_session other d = false) as ->; [|exact IH].
    unfold in_session in *. apply String.eqb_eq in Hd. apply String.eqb_neq. congruence.
  - destruct (in_session other d); [rewrite IH|]; auto.
Qed.

Lemma without_session_no_fact session_id l :
  filter (is_important_fact session_id) (filter (fun d => negb (in_session session_id d)) l)
  = [].
Proof.
  induction l as [|d l IH]; [reflexivity|]. cbn [filter].
  destruct (in_session session_id d) eqn:Hd; cbn [negb filter]; [exact IH|].
  unfold is_important_fact. fold (in_session session_id d). rewrite Hd. exact IH.
Qed.

Lemma session_count_positive session_id l :
  Nat.ltb 0 (length (filter (in_session session_id) l)) = existsb (in_session session_id) l.
Proof.
  induction l as [|d l IH]; [reflexivity|]. cbn [filter existsb].
  destruct (in_session session_id d); [reflexivity | exact IH].
Qed.

Section MemoryStoreFacts.

Variable E : env.

Lemma store_facts_loop_cons session_id fact rest w :
  store_facts_loop E session_id (fact :: rest) w =
  if db_down E (S (w_tick w))
  then (Raise (mkExn ServiceError "memory collection unreachable"),
        mkWorld (w_memory w) (w_chat_log w) (S (S (w_tick w))))
  else store_facts_loop E session_id rest
         (mkWorld (w_memory w ++ [fact_doc E session_id fact (w_tick w)])
                  (w_chat_log w) (S (S (w_tick w)))).
Proof.
  cbn [store_facts_loop]. unfold bind, datetime_now, insert_one, called. cbn.
  destruct (db_down E (S (w_tick w))); reflexivity.
Qed.

(** The loop stores the facts that come before the first insert that
    fails, and stops there. *)
Lemma store_facts_loop_spec session_id facts : forall w,
  exists k,
    k <= length facts
    /\ (forall j, j < k -> db_down E (w_tick w + 2 * j + 1) = false)
    /\ (k < length facts -> db_down E (w_tick w + 2 * k + 1) = true)
    /\ w_memory (snd (store_facts_loop E session_id facts w))
       = w_memory w ++ fact_docs E session_id (firstn k facts) (w_tick w)
    /\ w_chat_log (snd (store_facts_loop E session_id facts w)) = w_chat_log w
    /\ w_tick (snd (store_facts_loop E session_id facts w))
       = w_tick w + 2 * k + (if Nat.ltb k (length facts) then 2 else 0)
    /\ (k = length facts <-> fst (store_facts_loop E session_id facts w) = Ret tt).
Proof.
  induction facts as [|fact rest IH]; intros w.
  - exists 0. cbn. rewrite app_nil_r. repeat split; try lia; auto.
  - rewrite store_facts_loop_cons.
    destruct (db_down E (S (w_tick w))) eqn:Hd.
    + exists 0. cbn. rewrite app_nil_r.
      replace (w_tick w + 0 + 1) with (S (w_tick w)) by lia.
      repeat split; try lia; auto; try discriminate.
    + destruct (IH (mkWorld (w_memory w ++ [fact_doc E session_id fact (w_tick w)])
                    (w_chat_log w) (S (S (w_tick w)))))
        as (k & Hk & Hlt & Hge & Hm & Hl & Ht & Hr).
      cbn [w_tick w_memory w_chat_log] in *.
      exists (S k). split; [cbn; lia|]. split; [|split; [|split; [|split; [|split]]]].
      * intros [|j] Hj.
        -- replace (w_tick w + 2 * 0 + 1) with (S (w_tick w)) by lia. exact Hd.
        -- replace (w_tick w + 2 * S j + 1) with (S (S (w_tick w)) + 2 * j + 1) by lia.
           apply Hlt; lia.
      * intros Hj. replace (w_tick w + 2 * S k + 1) with (S (S (w_tick w)) + 2 * k + 1) by lia.
        apply Hge. cbn in Hj; lia.
      * rewrite Hm. cbn [firstn fact_docs]. rewrite <- app_assoc. reflexivity.
      * exact Hl.
      * rewrite Ht. cbn [length].
        change (Nat.ltb (S k) (S (length rest))) with (Nat.ltb k (length rest)).
        destruct (Nat.ltb k (length rest)); lia.
      * rewrite <- Hr. cbn [length]. split; intros; lia.
Qed.

End MemoryStoreFacts.
Section MemoryStoreClaims.

Variable E : env.

Lemma retrieve_important_facts_unfold session_id w :
  retrieve_important_facts E session_id w =
  (if db_down E (w_tick w) then Ret []
   else Ret (map m_content
               (sort_by_timestamp (filter (is_important_fact session_id) (w_memory w)))),
   called w).
Proof.
  unfold retrieve_important_facts, try_except, bind, find_important_facts, ret.
  destruct (db_down E (w_tick w)); reflexivity.
Qed.

Lemma clear_session_memory_unfold session_id w :
  clear_session_memory E session_id w =
  if db_down E (w_tick w) then (Ret false, called w)
  else (Ret (Nat.ltb 0 (length (filter (in_session session_id) (w_memory w)))),
        mkWorld (filter (fun d => negb (in_session session_id d)) (w_memory w))
                (w_chat_log w) (S (w_tick w))).
Proof.
  unfold clear_session_memory, try_except, bind, delete_many, ret.
  destruct (db_down E (w_tick w)); reflexivity.
Qed.

Lemma retrieve_long_term_memory_unfold memory_type limit w :
  retrieve_long_term_memory E memory_type limit w =
  (if db_down E (w_tick w) then Ret []
   else Ret (apply_limit (Some limit)
               (sort_by_timestamp_desc (filter (is_long_term memory_type) (w_memory w)))),
   called w).
Proof.
  unfold retrieve_long_term_memory, try_except, find_long_term, ret.
  destruct (db_down E (w_tick w)); reflexivity.
Qed.

Lemma store_long_term_memory_unfold session_id memory_type content w :
  store_long_term_memory E session_id memory_type content w =
  (Ret tt,
   if db_down E (S (w_tick w))
   then mkWorld (w_memory w) (w_chat_log w) (S (S (w_tick w)))
   else mkWorld (w_memory w ++ [long_term_doc E session_id memory_type content (w_tick w)])
                (w_chat_log w) (S (S (w_tick w)))).
Proof.
  unfold store_long_term_memory, try_except, bind, datetime_now, insert_one, ret, called.
  cbn. destruct (db_down E (S (w_tick w))); reflexivity.
Qed.





Lemma store_important_facts_spec session_id facts w :
  exists k,
    k <= length facts
    /\ (forall j, j < k -> db_down E (w_tick w + 2 * j + 1) = false)
    /\ (k < length facts -> db_down E (w_tick w + 2 * k + 1) = true)
    /\ store_important_facts E session_id facts w
       = (Ret tt,
          mkWorld (w_memory w ++ fact_docs E session_id (firstn k facts) (w_tick w))
                  (w_chat_log w)
                  (w_tick w + 2 * k + (if Nat.ltb k (length facts) then 2 else 0))).
Proof.
  destruct (store_facts_loop_spec E session_id facts w)
    as (k & Hk & Hlt & Hge & Hm & Hl & Ht & _).
  exists k. repeat (split; [assumption|]).
  unfold store_important_facts, try_except.
  destruct (store_facts_loop E session_id facts w) as [[[]|e] [m l t]];
    cbn [snd w_memory w_chat_log w_tick] in *; subst; reflexivity.
Qed.

(** [store_important_facts] returns in every world.  It stores the facts
    that come before the first insert the collection refuses, in the
    order given, and drops the others without a sign; it issues no
    generation request. *)
Theorem store_important_facts_keeps_prefix
    (session_id : string) (facts : list string) (w : world) :
  exists k,
    k <= length facts
    /\ (forall j, j < k -> db_down E (w_tick w + 2 * j + 1) = false)
    /\ (k < length facts -> db_down E (w_tick w + 2 * k + 1) = true)
    /\ store_important_facts E session_id facts w
       = (Ret tt,
          mkWorld (w_memory w ++ fact_docs E session_id (firstn k facts) (w_tick w))
                  (w_chat_log w)
                  (w_tick w + 2 * k + (if Nat.ltb k (length facts) then 2 else 0))).
Proof. apply store_important_facts_spec. Qed.


(** What [retrieve_important_facts] returns: the contents of the records
    of the session that are typed [important_fact], and of no other
    record; the empty list when the collection is out of reach.  It
    never raises and writes nothing. *)
Theorem retrieve_important_facts_selects (session_id : string) (w : world) :
  exists contents,
    retrieve_important_facts E session_id w = (Ret contents, called w)
    /\ (db_down E (w_tick w) = true -> contents = [])
    /\ (db_down E (w_tick w) = false ->
        forall c, In c contents <->
                  exists d, In d (w_memory w) /\ m_session_id d = session_id
                            /\ m_type d = Some "important_fact" /\ m_content d = c).
Proof.
  rewrite retrieve_important_facts_unfold.
  destruct (db_down E (w_tick w)).
  - eexists; split; [reflexivity|]. split; [reflexivity | discriminate].
  - eexists; split; [reflexivity|]. split; [discriminate|]. intros _ c.
    rewrite in_map_iff. split.
    + intros (d & <- & Hd). apply sort_by_timestamp_In, filter_In in Hd as [Hin Hf].
      unfold is_important_fact in Hf. apply andb_prop in Hf as [Hs Ht].
      apply String.eqb_eq in Hs.
      destruct (m_type d) as [t|] eqn:Hty; [|discriminate].
      apply String.eqb_eq in Ht. subst t. exists d; auto.
    + intros (d & Hin & Hs & Ht & Hc). exists d. split; [exact Hc|].
      apply sort_by_timestamp_In, filter_In. split; [exact Hin|].
      unfold is_important_fact. rewrite Hs, Ht, !String.eqb_refl. reflexivity.
Qed.

(** When the delete reaches the collection, [clear_session_memory]
    answers whether the session held a record, leaves none of the
    session, keeps the records of the other sessions in their order, and
    logs no request.  After it the history and the facts of the session
    read as empty, and a second clearing answers [False]. *)
Theorem clear_session_memory_effect
    (session_id : string) (w : world)
    (Hup : db_down E (w_tick w) = false) :
  let w' := snd (clear_session_memory E session_id w) in
  fst (clear_session_memory E session_id w)
  = Ret (existsb (in_session session_id) (w_memory w))
  /\ filter (in_session session_id) (w_memory w') = []
  /\ (forall other, other <> session_id ->
        filter (in_session other) (w_memory w') = filter (in_session other) (w_memory w))
  /\ w_chat_log w' = w_chat_log w
  /\ (forall limit, fst (retrieve_session_history E session_id limit w') = Ret [])
  /\ fst (retrieve_important_facts E session_id w') = Ret []
  /\ fst (clear_session_memory E session_id w') = Ret false.
Proof.
  cbv zeta. rewrite clear_session_memory_unfold, Hup. cbn [fst snd w_memory w_chat_log].
  pose proof (without_session_none session_id (w_memory w)) as Hnone.
  split; [|split; [exact Hnone|split; [|split; [reflexivity|split; [|split]]]]].
  - f_equal. apply session_count_positive.
  - intros other Hne. apply without_session_other. exact Hne.
  - intros limit. rewrite retrieve_session_history_unfold. cbn [w_tick w_memory].
    destruct (db_down E (S (w_tick w))); [reflexivity|].
    fold (in_session session_id). rewrite Hnone.
    destruct limit as [[|n]|]; reflexivity.
  - rewrite retrieve_important_facts_unfold. cbn [w_tick w_memory fst].
    destruct (db_down E (S (w_tick w))); [reflexivity|].
    rewrite without_session_no_fact. reflexivity.
  - rewrite clear_session_memory_unfold. cbn [w_tick w_memory].
    destruct (db_down E (S (w_tick w))); [reflexivity|]. rewrite Hnone. reflexivity.
Qed.

(** Clearing a session also deletes the long-term notes stored under
    its id, marked persistent as they are: a later
    [retrieve_long_term_memory] returns no note of that session. *)
Theorem clear_session_memory_forgets_long_term
    (session_id memory_type content : string) (limit : nat) (w : world)
    (Hinsert : db_down E (S (w_tick w)) = false)
    (Hdelete : db_down E (S (S (w_tick w))) = false) :
  let w1 := snd (store_long_term_memory E session_id memory_type content w) in
  let w2 := snd (clear_session_memory E session_id w1) in
  In (long_term_doc E session_id memory_type content (w_tick w)) (w_memory w1)
  /\ m_persistent (long_term_doc E session_id memory_type content (w_tick w)) = Some true
  /\ exists notes,
       fst (retrieve_long_term_memory E memory_type limit w2) = Ret notes
       /\ forall d, In d notes -> m_session_id d <> session_id.
Proof.
  cbv zeta. rewrite store_long_term_memory_unfold, Hinsert. cbn [snd].
  rewrite clear_session_memory_unfold. cbn [w_tick w_memory w_chat_log]. rewrite Hdelete.
  cbn [snd]. split; [apply in_or_app; right; left; reflexivity|]. split; [reflexivity|].
  rewrite retrieve_long_term_memory_unfold. cbn [w_tick w_memory fst].
  destruct (db_down E (S (S (S (w_tick w))))).
  - eexists; split; [reflexivity|]. intros d [].
  - eexists; split; [reflexivity|]. intros d Hd.
    apply apply_limit_In, sort_by_timestamp_desc_In, filter_In in Hd as [Hd _].
    apply filter_In in Hd as [_ Hd]. apply negb_true_iff in Hd.
    unfold in_session in Hd. apply String.eqb_neq in Hd. exact Hd.
Qed.

(** A note stored while no note of its type is as recent as the clock
    comes back first from [retrieve_long_term_memory], whatever the
    limit and whichever session stored it; the notes after it are older
    notes of the same type. *)
Theorem long_term_memory_round_trip
    (session_id memory_type content : string) (limit : nat) (w : world)
    (Hinsert : db_down E (S (w_tick w)) = false)
    (Hfind : db_down E (S (S (w_tick w))) = false)
    (Hnewest : forall d, In d (w_memory w) -> is_long_term memory_type d = true ->
                         (m_timestamp d < now E (w_tick w))%Z) :
  exists older,
    fst (bind (store_long_term_memory E session_id memory_type content)
              (fun _ => retrieve_long_term_memory E memory_type limit) w)
    = Ret (long_term_doc E session_id memory_type content (w_tick w) :: older)
    /\ (forall d, In d older -> In d (w_memory w) /\ is_long_term memory_type d = true)
    /\ (0 < limit -> S (length older) <= limit).
Proof.
  unfold bind. rewrite store_long_term_memory_unfold, Hinsert.
  rewrite retrieve_long_term_memory_unfold. cbn [w_tick w_memory fst]. rewrite Hfind.
  rewrite filter_app. cbn [filter].
  assert (is_long_term memory_type
            (long_term_doc E session_id memory_type content (w_tick w)) = true) as ->.
  { unfold is_long_term, long_term_doc. cbn. rewrite String.eqb_refl. reflexivity. }
  rewrite sort_by_timestamp_desc_newest.
  - set (old := sort_by_timestamp_desc (filter (is_long_term memory_type) (w_memory w))).
    assert (Hold : forall d, In d old -> In d (w_memory w) /\ is_long_term memory_type d = true).
    { intros d Hd. apply sort_by_timestamp_desc_In, filter_In in Hd. exact Hd. }
    destruct limit as [|n]; cbn [apply_limit firstn].
    + exists old. split; [reflexivity|]. split; [exact Hold | lia].
    + exists (firstn n old). split; [reflexivity|]. split.
      * intros d Hd. apply Hold. eapply firstn_In; eauto.
      * intros _. pose proof (firstn_le_length n old). lia.
  - intros x Hx. apply filter_In in Hx as [Hx Hl]. cbn [long_term_doc m_timestamp].
    apply Hnewest; assumption.
Qed.

(** [retrieve_long_term_memory] never raises and writes nothing.  The
    notes it returns are records of the collection marked persistent
    whose type is the one asked for, newest first, at most [limit] of
    them when [limit] is positive; a record returned for one type is
    returned for no other. *)
Theorem retrieve_long_term_memory_selects (memory_type : string) (limit : nat) (w : world) :
  exists notes,
    retrieve_long_term_memory E memory_type limit w = (Ret notes, called w)
    /\ StronglySorted newest_first notes
    /\ (0 < limit -> length notes <= limit)
    /\ forall d, In d notes ->
         In d (w_memory w)
         /\ m_type d = Some ("long_term_" ++ memory_type)%string
         /\ m_persistent d = Some true
         /\ forall other, is_long_term other d = true -> other = memory_type.
Proof.
  rewrite retrieve_long_term_memory_unfold.
  destruct (db_down E (w_tick w)).
  - exists []. split; [reflexivity|]. split; [constructor|]. split; [simpl; lia|].
    intros d [].
  - eexists. split; [reflexivity|]. split; [|split].
    + destruct limit as [|n]; cbn [apply_limit].
      * apply sort_by_timestamp_desc_sorted.
      * apply firstn_sorted, sort_by_timestamp_desc_sorted.
    + apply apply_limit_length.
    + intros d Hd. apply apply_limit_In, sort_by_timestamp_desc_In, filter_In in Hd as [Hin Hl].
      unfold is_long_term in Hl. apply andb_prop in Hl as [Ht Hp].
      destruct (m_type d) as [t|] eqn:Hty; [|discriminate].
      apply String.eqb_eq in Ht. subst t.
      destruct (m_persistent d) as [[|]|] eqn:Hpe; try discriminate.
      repeat split; auto.
      intros other Ho. unfold is_long_term in Ho. rewrite Hty in Ho.
      apply andb_prop in Ho as [Ho _]. apply String.eqb_eq in Ho.
      symmetry. eapply append_inj_l; eauto.
Qed.

End MemoryStoreClaims.

(* ================================================================== *)
(** * Splitting text *)
(* ================================================================== *)

Lemma split_nonempty sep s : PyStr.split sep s <> [].
Proof.
  destruct s as [|c t]; cbn [PyStr.split]; [discriminate|].
  destruct (Ascii.eqb c sep); [discriminate|].
  destruct (PyStr.split sep t); discriminate.
Qed.

Lemma concat_cons sep x y l :
  String.concat sep (x :: y :: l) = (x ++ sep ++ String.concat sep (y :: l))%string.
Proof. reflexivity. Qed.

(** [sep.join(s.split(sep)) == s] *)
Lemma split_join sep s :
  PyStr.join (String sep "") (PyStr.split sep s) = s.
Proof.
  unfold PyStr.join. induction s as [|c t IH]; [reflexivity|].
  cbn [PyStr.split]. pose proof (split_nonempty sep t) as Hne.
  destruct (Ascii.eqb c sep) eqn:Hc.
  - apply Ascii.eqb_eq in Hc. subst c.
    destruct (PyStr.split sep t) as [|y l]; [contradiction|].
    rewrite concat_cons, IH. reflexivity.
  - destruct (PyStr.split sep t) as [|y l]; [contradiction|].
    destruct l as [|z l]; cbn [String.concat] in *; rewrite <- IH; reflexivity.
Qed.

Lemma split_pieces sep s piece :
  In piece (PyStr.split sep s) -> ~ In sep (PyStr.chars piece).
Proof.
  revert piece. induction s as [|c t IH]; intros piece; cbn [PyStr.split].
  - intros [<-|[]] [].
  - destruct (Ascii.eqb c sep) eqn:Hc.
    + intros [<-|H]; [intros [] | auto].
    + pose proof (split_nonempty sep t) as Hne.
      destruct (PyStr.split sep t) as [|y l]; [contradiction|].
      intros [<-|H].
      * cbn [PyStr.chars]. intros [->|Hin].
        -- rewrite Ascii.eqb_refl in Hc. discriminate.
        -- apply (IH y); [left; reflexivity | exact Hin].
      * apply IH. right; exact H.
Qed.

Lemma split_whitespace_started s : forall word,
  word <> "" -> 1 <= length (PyStr.split_whitespace s word).
Proof.
  induction s as [|c t IH]; intros word Hw; cbn [PyStr.split_whitespace].
  - destruct word; [contradiction | simpl; lia].
  - destruct (PyStr.is_space c).
    + destruct word; [contradiction | simpl; lia].
    + apply IH. destruct word; discriminate.
Qed.

Lemma split_whitespace_bound s : forall word,
  2 * length (PyStr.split_whitespace s word)
  <= String.length s + (match word with EmptyString => 1 | _ => 2 end).
Proof.
  induction s as [|c t IH]; intros word; cbn [PyStr.split_whitespace String.length].
  - destruct word; simpl; lia.
  - destruct (PyStr.is_space c).
    + destruct word; [specialize (IH ""); simpl in IH; lia|].
      specialize (IH ""). cbn [length]. simpl in IH. lia.
    + specialize (IH (word ++ String c "")%string).
      destruct word; simpl in IH |- *; lia.
Qed.

Lemma split_whitespace_none s :
  length (PyStr.split_whitespace s "") = 0 <-> all_space s = true.
Proof.
  unfold all_space. induction s as [|c t IH]; cbn [PyStr.split_whitespace PyStr.chars forallb].
  - split; reflexivity.
  - destruct (PyStr.is_space c); cbn [andb]; [exact IH|].
    split; [|discriminate]. intros H.
    pose proof (split_whitespace_started t (String c "")) as Hs.
    cbn [append] in H. rewrite H in Hs. assert (String c "" <> "") by discriminate.
    specialize (Hs H0). lia.
Qed.

Lemma rstrip_all_space s : all_space s = true -> PyStr.rstrip s = "".
Proof.
  unfold all_space. induction s as [|c t IH]; [reflexivity|].
  cbn [PyStr.chars forallb PyStr.rstrip]. intros H. apply andb_prop in H as [Hc Ht].
  rewrite (IH Ht), Hc. reflexivity.
Qed.

Lemma strip_not_all_space s : all_space s = false -> PyStr.strip s <> "".
Proof.
  unfold all_space, PyStr.strip. induction s as [|c t IH]; [discriminate|].
  cbn [PyStr.chars forallb PyStr.rstrip]. destruct (PyStr.is_space c) eqn:Hc; cbn [andb].
  - intros Ht. specialize (IH Ht).
    destruct (PyStr.rstrip t) as [|a r] eqn:Hr; [contradiction IH; reflexivity|].
    cbn [PyStr.lstrip]. rewrite Hc. exact IH.
  - intros _. destruct (PyStr.rstrip t) as [|a r]; cbn [PyStr.lstrip]; rewrite Hc; discriminate.
Qed.

(** A text strips to nothing exactly when it is made of whitespace. *)
Lemma strip_empty s : PyStr.strip s = "" <-> all_space s = true.
Proof.
  split.
  - intros H. destruct (all_space s) eqn:Ha; [reflexivity|].
    exfalso. exact (strip_not_all_space s Ha H).
  - intros H. unfold PyStr.strip. rewrite (rstrip_all_space s H). reflexivity.
Qed.

(* ================================================================== *)
(** * Conversation analytics *)
(* ================================================================== *)

Lemma question_types_loop_labels user_messages : forall acc,
  (forall msg, In msg user_messages -> t_content msg <> None) ->
  question_types_loop user_messages acc = Ret (acc ++ question_labels user_messages).
Proof.
  induction user_messages as [|msg rest IH]; intros acc H; cbn [question_types_loop].
  - cbn. rewrite app_nil_r. reflexivity.
  - destruct (t_content msg) as [content|] eqn:Hc;
      [|exfalso; exact (H msg (or_introl eq_refl) Hc)].
    rewrite IH by (intros; apply H; right; assumption).
    unfold question_labels. cbn [flat_map]. rewrite Hc.
    destruct (question_type content); cbn [app]; [rewrite <- app_assoc|]; reflexivity.
Qed.

Lemma question_types_loop_no_content user_messages : forall acc msg,
  In msg user_messages -> t_content msg = None ->
  question_types_loop user_messages acc
  = Raise (mkExn AttributeError "'NoneType' object has no attribute 'lower'").
Proof.
  induction user_messages as [|m rest IH]; intros acc msg; [intros []|].
  cbn [question_types_loop]. intros [->|Hin] Hn.
  - rewrite Hn. reflexivity.
  - destruct (t_content m); [|reflexivity]. eapply IH; eauto.
Qed.

Lemma question_labels_length user_messages :
  length (question_labels user_messages) <= length user_messages.
Proof.
  unfold question_labels. induction user_messages as [|msg rest IH]; [simpl; lia|].
  cbn [flat_map length]. rewrite length_app.
  destruct (t_content msg) as [c|]; [destruct (question_type c)|]; simpl; lia.
Qed.

Lemma question_labels_known user_messages label :
  In label (question_labels user_messages) ->
  In label ["factual"; "procedural"; "explanatory"; "general"].
Proof.
  unfold question_labels. rewrite in_flat_map. intros (msg & _ & H).
  destruct (t_content msg) as [c|]; [|destruct H].
  unfold question_type in H.
  destruct (PyStr.contains "?" (PyStr.lower c)); [|destruct H].
  destruct H as [<-|[]].
  destruct (PyStr.contains "what" (PyStr.lower c)); [simpl; auto|].
  destruct (PyStr.contains "how" (PyStr.lower c)); [simpl; auto|].
  destruct (PyStr.contains "why" (PyStr.lower c)); simpl; auto.
Qed.

Lemma max_by_spec key candidates : forall best,
  let m := max_by key best candidates in
  (m = best \/ In m candidates)
  /\ key best <= key m
  /\ forall x, In x candidates -> key x <= key m.
Proof.
  induction candidates as [|x rest IH]; intros best; cbn [max_by].
  - cbv zeta. split; [auto|]. split; [lia | intros x []].
  - cbv zeta. destruct (Nat.ltb (key best) (key x)) eqn:Hlt.
    + apply Nat.ltb_lt in Hlt. destruct (IH x) as (Hin & Hle & Hall). cbv zeta in *.
      split; [destruct Hin as [->|Hin]; simpl; auto|]. split; [lia|].
      intros y [<-|Hy]; auto.
    + apply Nat.ltb_ge in Hlt. destruct (IH best) as (Hin & Hle & Hall). cbv zeta in *.
      split; [destruct Hin as [->|Hin]; simpl; auto|]. split; [lia|].
      intros y [<-|Hy]; [lia | auto].
Qed.

Lemma count_not_in l x : ~ In x l -> count l x = 0.
Proof.
  unfold count. induction l as [|a l IH]; [reflexivity|]. intros H. cbn [filter].
  destruct (String.eqb x a) eqn:Hx.
  - apply String.eqb_eq in Hx. subst. exfalso. apply H; left; reflexivity.
  - apply IH. intros Hin. apply H; right; exact Hin.
Qed.

Lemma has_role_counts history :
  length (filter (has_role "user") history) + length (filter (has_role "assistant") history)
  <= length history.
Proof.
  induction history as [|msg rest IH]; [simpl; lia|]. cbn [filter length].
  destruct (has_role "user" msg) eqn:Hu; destruct (has_role "assistant" msg) eqn:Ha;
    cbn [length]; try lia.
  unfold has_role in Hu, Ha. apply String.eqb_eq in Hu, Ha. rewrite Hu in Ha. discriminate.
Qed.

Lemma has_role_counts_all history :
  (forall msg, In msg history -> t_role msg = "user" \/ t_role msg = "assistant") ->
  length (filter (has_role "user") history) + length (filter (has_role "assistant") history)
  = length history.
Proof.
  induction history as [|msg rest IH]; [reflexivity|]. intros H. cbn [filter length].
  specialize (IH (fun m Hm => H m (or_intror Hm))).
  assert (Hu : has_role "user" msg = String.eqb (t_role msg) "user") by reflexivity.
  assert (Ha : has_role "assistant" msg = String.eqb (t_role msg) "assistant") by reflexivity.
  destruct (H msg (or_introl eq_refl)) as [Hr|Hr]; rewrite Hr in Hu, Ha; rewrite Hu, Ha;
    cbn; lia.
Qed.

Section AnalyticsClaims.

Variable E : env.
Variable set_iter : list string -> list string.

Lemma extract_topics_unfold messages w :
  extract_topics E messages w =
  (match chat_reply E (w_tick w) (topics_request messages) with
   | Ret (Some s) => Ret (PyStr.split (ascii_of_nat 10) s)
   | _ => Ret ["Unable to extract topics"]
   end,
   mkWorld (w_memory w) (w_chat_log w ++ [topics_request messages]) (S (w_tick w))).
Proof.
  unfold extract_topics, try_except, bind, chat_create, raise, ret.
  destruct (chat_reply E (w_tick w) (topics_request messages)) as [[s|]|e]; reflexivity.
Qed.

(** [extract_topics] never raises and costs one generation request.  Its
    answer is never the empty list: the lines of the reply, which joined
    by newlines give the reply back and none of which holds a newline, or
    the one fixed entry when the service fails or answers without a
    content. *)
Theorem extract_topics_lines (messages : list turn) (w : world) :
  exists topics,
    extract_topics E messages w
    = (Ret topics,
       mkWorld (w_memory w) (w_chat_log w ++ [topics_request messages]) (S (w_tick w)))
    /\ topics <> []
    /\ (forall s, chat_reply E (w_tick w) (topics_request messages) = Ret (Some s) ->
          PyStr.join PyStr.newline topics = s
          /\ forall t, In t topics -> PyStr.contains PyStr.newline t = false)
    /\ (chat_reply E (w_tick w) (topics_request messages) = Ret None ->
          topics = ["Unable to extract topics"])
    /\ (forall e, chat_reply E (w_tick w) (topics_request messages) = Raise e ->
          topics = ["Unable to extract topics"]).
Proof.
  rewrite extract_topics_unfold.
  destruct (chat_reply E (w_tick w) (topics_request messages)) as [[s|]|e].
  - eexists; split; [reflexivity|]. split; [apply split_nonempty|].
    split; [|split; [discriminate | intros; discriminate]].
    intros s' H; inversion H; subst s'. split; [apply split_join|].
    intros t Ht. destruct (PyStr.contains PyStr.newline t) eqn:Hc; [|reflexivity].
    exfalso. apply (split_pieces _ _ _ Ht).
    apply (contains_chars PyStr.newline t); [exact Hc | left; reflexivity].
  - eexists; split; [reflexivity|]. split; [discriminate|].
    split; [discriminate|]. split; reflexivity.
  - eexists; split; [reflexivity|]. split; [discriminate|].
    split; [discriminate|]. split; [discriminate | reflexivity].
Qed.

(** For user messages that all have a content, in whatever order the set
    of labels is iterated: the question count is the number of messages
    whose lowercased content holds a question mark, at most the number of
    messages; every label is one of the four; and the most common type is
    [none] without a question, else a label no other label occurs more
    often than. *)
Theorem analyze_question_patterns_counts
    (user_messages : list turn)
    (Hiter : forall l x, In x (set_iter l) <-> In x l)
    (Hcontents : forall msg, In msg user_messages -> t_content msg <> None)
    (Hsome : user_messages <> []) :
  exists most_common,
    analyze_question_patterns set_iter user_messages
    = Ret (PDict
             [("total_questions", PInt (Z.of_nat (length (question_labels user_messages))));
              ("question_types", PList (map PStr (question_labels user_messages)));
              ("most_common_type", PStr most_common)])
    /\ length (question_labels user_messages) <= length user_messages
    /\ (forall label, In label (question_labels user_messages) ->
          In label ["factual"; "procedural"; "explanatory"; "general"])
    /\ (question_labels user_messages = [] -> most_common = "none")
    /\ (question_labels user_messages <> [] ->
          In most_common (question_labels user_messages)
          /\ forall x, count (question_labels user_messages) x
                       <= count (question_labels user_messages) most_common).
Proof.
  unfold analyze_question_patterns.
  destruct user_messages as [|m0 rest] eqn:Hum; [contradiction|]. rewrite <- Hum in *.
  rewrite question_types_loop_labels by assumption. cbn [app obind].
  set (labels := question_labels user_messages).
  destruct labels as [|l0 ls] eqn:Hl.
  - exists "none". cbn [obind]. split; [reflexivity|]. split; [simpl; lia|].
    split; [intros ? []|]. split; [reflexivity|]. intros H; contradiction.
  - rewrite <- Hl. unfold most_common_type.
    destruct (set_iter labels) as [|first others] eqn:Hs.
    + exfalso. assert (In l0 (set_iter labels)) as Hin
        by (apply Hiter; rewrite Hl; left; reflexivity).
      rewrite Hs in Hin. destruct Hin.
    + cbn [obind]. eexists. split; [reflexivity|].
      split; [apply question_labels_length|].
      split; [apply question_labels_known|].
      split; [intros H; rewrite Hl in H; discriminate|]. intros _.
      destruct (max_by_spec (count labels) others first) as (Hin & Hle & Hall).
      cbv zeta in *. split.
      * apply Hiter. rewrite Hs. destruct Hin as [->|Hin]; simpl; auto.
      * intros x. destruct (in_dec string_dec x labels) as [Hx|Hx].
        -- apply Hiter in Hx. rewrite Hs in Hx. destruct Hx as [<-|Hx]; auto.
        -- rewrite (count_not_in _ _ Hx). lia.
Qed.

(** [analyze_conversation_context] never raises and writes nothing to
    the collection.  Its report is the [no_history] status, with no
    generation request, when the history reads as empty: so for a session
    that holds a record without a role, whatever its turns; or an error;
    or the counts of a non-empty history, where the user and assistant
    counts add up to at most the total, and to the total when every turn
    is a user's or an assistant's. *)
Theorem analyze_conversation_context_report (session_id : string) (w : world) :
  exists report w',
    analyze_conversation_context E set_iter session_id w = (Ret report, w')
    /\ w_memory w' = w_memory w
    /\ (fst (retrieve_session_history E session_id None w) = Ret [] ->
        report = PDict [("status", PStr "no_history")] /\ w_chat_log w' = w_chat_log w)
    /\ ((exists d, In d (w_memory w) /\ in_session session_id d = true /\ m_role d = None) ->
        report = PDict [("status", PStr "no_history")])
    /\ (forall history, fst (retrieve_session_history E session_id None w) = Ret history ->
        history <> [] ->
        (exists msg, report = PDict [("error", PStr msg)])
        \/ exists users assistants topics patterns,
             report = PDict
                        [("total_messages", PInt (Z.of_nat (length history)));
                         ("user_messages", PInt (Z.of_nat users));
                         ("assistant_messages", PInt (Z.of_nat assistants));
                         ("conversation_topics", PList (map PStr topics));
                         ("user_question_patterns", patterns)]
             /\ users + assistants <= length history
             /\ ((forall msg, In msg history ->
                    t_role msg = "user" \/ t_role msg = "assistant") ->
                 users + assistants = length history)).
Proof.
  unfold analyze_conversation_context, try_except, bind.
  destruct (retrieve_session_history_never_raises E session_id None w) as [history [w1 Hh]].
  assert (Hm1 : w_memory w1 = w_memory w /\ w_chat_log w1 = w_chat_log w).
  { rewrite retrieve_session_history_unfold in Hh.
    destruct (db_down E (w_tick w)); [inversion Hh; subst; split; reflexivity|].
    destruct (project_turns _); inversion Hh; subst; split; reflexivity. }
  destruct Hm1 as [Hm1 Hl1].
  assert (Hfact : (exists d, In d (w_memory w) /\ in_session session_id d = true
                             /\ m_role d = None) -> history = []).
  { intros (d & Hin & Hs & Hr).
    pose proof (retrieve_session_history_role_missing E session_id w d Hin Hs Hr) as H.
    rewrite Hh in H. cbn in H. inversion H; reflexivity. }
  rewrite Hh. cbn [fst].
  destruct history as [|h0 hs] eqn:Hhist.
  - unfold ret. eexists _, _. split; [reflexivity|]. split; [exact Hm1|].
    split; [intros _; split; [reflexivity | exact Hl1]|].
    split; [reflexivity|]. intros history' H; inversion H; subst. contradiction.
  - rewrite <- Hhist in *. rewrite extract_topics_unfold. unfold lift, ret.
    set (topics := match chat_reply E (w_tick w1) (topics_request history) with
                   | Ret (Some s) => Ret (PyStr.split (ascii_of_nat 10) s)
                   | _ => Ret ["Unable to extract topics"]
                   end).
    assert (exists t, topics = Ret t) as [t Ht].
    { unfold topics. destruct (chat_reply E (w_tick w1) _) as [[s|]|e]; eauto. }
    rewrite Ht.
    destruct (analyze_question_patterns set_iter (filter (has_role "user") history))
      as [patterns|e] eqn:Hp.
    + eexists _, _. split; [reflexivity|]. split; [exact Hm1|].
      split; [intros H; inversion H; subst; discriminate|].
      split; [intros H; apply Hfact in H; subst; discriminate|].
      intros history' H Hne; inversion H; subst history'. right.
      eexists _, _, _, _. split; [reflexivity|].
      split; [apply has_role_counts | apply has_role_counts_all].
    + eexists _, _. split; [reflexivity|]. split; [exact Hm1|].
      split; [intros H; inversion H; subst; discriminate|].
      split; [intros H; apply Hfact in H; subst; discriminate|].
      intros history' H Hne. left. eexists; reflexivity.
Qed.

End AnalyticsClaims.

(* ================================================================== *)
(** * Document analysis *)
(* ================================================================== *)

(** [document_analysis_tool] never raises, costs one generation request
    and writes nothing to the collection.  On a failure of the service
    its report holds the one key [error]; otherwise the analysis with the
    two counts, where the word count is zero exactly for a text made of
    whitespace and twice the word count is at most the character count
    plus one. *)
Theorem document_analysis_tool_counts (E : env) (document_text : string) (w : world) :
  exists report,
    document_analysis_tool E document_text w
    = (Ret report,
       mkWorld (w_memory w) (w_chat_log w ++ [analysis_request document_text])
               (S (w_tick w)))
    /\ (forall e, chat_reply E (w_tick w) (analysis_request document_text) = Raise e ->
          report = PDict [("error", PStr ("Analysis failed: " ++ exn_msg e)%string)])
    /\ (forall analysis,
          chat_reply E (w_tick w) (analysis_request document_text) = Ret analysis ->
          exists words,
            report = PDict [("analysis", content_value analysis);
                            ("word_count", PInt (Z.of_nat words));
                            ("char_count", PInt (Z.of_nat (String.length document_text)))]
            /\ 2 * words <= String.length document_text + 1
            /\ (words = 0 <-> PyStr.strip document_text = "")).
Proof.
  unfold document_analysis_tool, try_except, bind, chat_create, ret.
  destruct (chat_reply E (w_tick w) (analysis_request document_text)) as [analysis|e].
  - eexists. split; [reflexivity|]. split; [discriminate|].
    intros a H; inversion H; subst a. eexists. split; [reflexivity|]. split.
    + apply (split_whitespace_bound document_text "").
    + rewrite strip_empty. apply split_whitespace_none.
  - eexists. split; [reflexivity|]. split; [|discriminate].
    intros e' H; inversion H; reflexivity.
Qed.

(* ================================================================== *)
(** * Embeddings and custom documents *)
(* ================================================================== *)

Lemma lstrip_length s : String.length (PyStr.lstrip s) <= String.length s.
Proof.
  induction s as [|c t IH]; [simpl; lia|]. cbn [PyStr.lstrip].
  destruct (PyStr.is_space c); cbn [String.length]; lia.
Qed.

Lemma rstrip_length s : String.length (PyStr.rstrip s) <= String.length s.
Proof.
  induction s as [|c t IH]; [simpl; lia|]. cbn [PyStr.rstrip].
  destruct (PyStr.rstrip t) as [|a r].
  - destruct (PyStr.is_space c); cbn [String.length]; lia.
  - cbn [String.length] in *. lia.
Qed.

Lemma strip_length s : String.length (PyStr.strip s) <= String.length s.
Proof.
  unfold PyStr.strip. pose proof (lstrip_length (PyStr.rstrip s)).
  pose proof (rstrip_length s). lia.
Qed.

Lemma substring_length n : forall s, String.length (String.substring 0 n s) <= n.
Proof.
  induction n as [|n IH]; intros [|c t]; cbn [String.substring String.length]; try lia.
  specialize (IH t). lia.
Qed.

Lemma rstrip_idempotent s : PyStr.rstrip (PyStr.rstrip s) = PyStr.rstrip s.
Proof.
  induction s as [|c t IH]; [reflexivity|]. cbn [PyStr.rstrip].
  destruct (PyStr.rstrip t) as [|a r] eqn:Hr.
  - destruct (PyStr.is_space c) eqn:Hc; [reflexivity|].
    cbn [PyStr.rstrip]. rewrite Hc. reflexivity.
  - cbn [PyStr.rstrip]. cbn [PyStr.rstrip] in IH.
    destruct (match PyStr.rstrip r with
              | "" => if PyStr.is_space a then "" else String a ""
              | String a0 s0 => String a (String a0 s0)
              end) as [|b u] eqn:Hm; [discriminate IH|].
    rewrite IH. reflexivity.
Qed.

Lemma lstrip_idempotent s : PyStr.lstrip (PyStr.lstrip s) = PyStr.lstrip s.
Proof.
  induction s as [|c t IH]; [reflexivity|]. cbn [PyStr.lstrip].
  destruct (PyStr.is_space c) eqn:Hc; [exact IH|]. cbn [PyStr.lstrip]. rewrite Hc. reflexivity.
Qed.

Lemma rstrip_lstrip s : PyStr.rstrip s = s -> PyStr.rstrip (PyStr.lstrip s) = PyStr.lstrip s.
Proof.
  induction s as [|c t IH]; [reflexivity|]. intros H. cbn [PyStr.lstrip].
  destruct (PyStr.is_space c) eqn:Hc; [|exact H].
  apply IH. cbn [PyStr.rstrip] in H. rewrite Hc in H.
  destruct (PyStr.rstrip t) as [|a r]; [discriminate|]. inversion H; reflexivity.
Qed.

(** [s.strip().strip() == s.strip()] *)
Lemma strip_idempotent s : PyStr.strip (PyStr.strip s) = PyStr.strip s.
Proof.
  unfold PyStr.strip.
  rewrite (rstrip_lstrip (PyStr.rstrip s) (rstrip_idempotent s)).
  apply lstrip_idempotent.
Qed.

Lemma is_blank_strip s : PyStr.is_blank s = false -> PyStr.strip s <> "".
Proof.
  unfold PyStr.is_blank. intros H. apply orb_false_iff in H as [_ H].
  apply String.eqb_neq in H. exact H.
Qed.

Section IngestFacts.

Variable E : env.

(** For a text that is not blank [get_embedding] makes one call, on the
    text cut to 8000 characters and stripped: a text of at most 8000
    characters with no whitespace at either end, and not empty when the
    text given was not longer than that.  It never raises: a failure of
    the service gives [None]. *)
Theorem get_embedding_sends_embedded_text (text : string) (w : world)
    (Htext : PyStr.is_blank text = false) :
  get_embedding E text w
  = (match embedding_reply E (w_tick w) (embedded_text text) with
     | Ret embedding => Ret (Some embedding)
     | Raise _ => Ret None
     end, called w)
  /\ String.length (embedded_text text) <= N.to_nat 8000
  /\ PyStr.strip (embedded_text text) = embedded_text text
  /\ (String.length text <= N.to_nat 8000 -> embedded_text text <> "")
  /\ (N.to_nat 8000 < String.length text ->
      all_space (String.substring 0 (N.to_nat 8000) text) = true ->
      embedded_text text = "").
Proof.
  split; [|split; [|split; [|split]]].
  - unfold get_embedding. rewrite Htext.
    unfold try_except, bind, embeddings_create, ret, embedded_text.
    destruct (embedding_reply E (w_tick w) _); reflexivity.
  - unfold embedded_text.
    destruct (N.ltb 8000 (N.of_nat (String.length text))) eqn:Hlen.
    + pose proof (strip_length (String.substring 0 (N.to_nat 8000) text)).
      pose proof (substring_length (N.to_nat 8000) text). lia.
    + apply N.ltb_ge in Hlen. pose proof (strip_length text). lia.
  - apply strip_idempotent.
  - intros Hlen. unfold embedded_text.
    assert (N.ltb 8000 (N.of_nat (String.length text)) = false) as ->
      by (apply N.ltb_ge; lia).
    apply is_blank_strip, Htext.
  - intros Hlen Hspace. unfold embedded_text.
    assert (N.ltb 8000 (N.of_nat (String.length text)) = true) as ->
      by (apply N.ltb_lt; lia).
    apply strip_empty, Hspace.
Qed.

Lemma get_embedding_effect text w :
  exists embedding,
    get_embedding E text w
    = (Ret embedding, if PyStr.is_blank text then w else called w)
    /\ (PyStr.is_blank text = true -> embedding = None).
Proof.
  unfold get_embedding. destruct (PyStr.is_blank text).
  - exists None. split; reflexivity.
  - unfold try_except, bind, embeddings_create, ret.
    destruct (embedding_reply E (w_tick w) _); eexists; split; try reflexivity;
      discriminate.
Qed.

Variable insert_many_reply : nat -> list vdoc -> outcome nat.

(** What the loop of [add_custom_documents] adds to [docs_to_insert],
    started at index [i]. *)
Lemma custom_docs_to_insert_spec documents : forall i docs_to_insert w,
  exists added,
    custom_docs_to_insert E i documents docs_to_insert w
    = (Ret (docs_to_insert ++ added),
       mkWorld (w_memory w) (w_chat_log w)
               (w_tick w + length (filter (fun t => negb (PyStr.is_blank t)) documents)))
    /\ length added <= length documents
    /\ StronglySorted chunk_ids_increase added
    /\ forall d, In d added ->
         i <= v_chunk_id d
         /\ nth_error documents (v_chunk_id d - i) = Some (v_text d)
         /\ PyStr.is_blank (v_text d) = false
         /\ v_embedding d <> []
         /\ v_source d = "custom_document".
Proof.
  induction documents as [|doc_text rest IH]; intros i docs_to_insert w.
  - exists []. cbn. rewrite app_nil_r, Nat.add_0_r. destruct w.
    split; [reflexivity|]. split; [lia|]. split; [constructor | intros d []].
  - cbn [custom_docs_to_insert]. unfold bind at 1.
    destruct (get_embedding_effect doc_text w) as (embedding & -> & Hblank).
    set (w1 := if PyStr.is_blank doc_text then w else called w).
    assert (Hw1 : w_memory w1 = w_memory w /\ w_chat_log w1 = w_chat_log w
                  /\ w_tick w1 = w_tick w + (if PyStr.is_blank doc_text then 0 else 1)).
    { unfold w1. destruct (PyStr.is_blank doc_text); cbn; repeat split; lia. }
    destruct Hw1 as (Hm & Hl & Ht).
    assert (Hcount : w_tick w1
                     + length (filter (fun t => negb (PyStr.is_blank t)) rest)
                     = w_tick w
                       + length (filter (fun t => negb (PyStr.is_blank t)) (doc_text :: rest))).
    { cbn [filter]. rewrite Ht. destruct (PyStr.is_blank doc_text); cbn [negb length]; lia. }
    pose (step := match embedding with
                  | Some (x :: v) => [mkVdoc doc_text (x :: v) "custom_document" i]
                  | _ => []
                  end).
    assert (Hstep : match embedding with
                    | Some (x :: v) =>
                        docs_to_insert ++ [mkVdoc doc_text (x :: v) "custom_document" i]
                    | _ => docs_to_insert
                    end = docs_to_insert ++ step).
    { unfold step. destruct embedding as [[|x v]|]; rewrite ?app_nil_r; reflexivity. }
    rewrite Hstep.
    destruct (IH (S i) (docs_to_insert ++ step) w1) as (added & -> & Hlen & Hsorted & Hall).
    exists (step ++ added). rewrite Hm, Hl, Hcount, <- app_assoc.
    split; [reflexivity|].
    assert (Hstep_len : length step <= 1)
      by (unfold step; destruct embedding as [[|x v]|]; simpl; lia).
    split; [rewrite length_app; cbn [length]; lia|].
    assert (Hrest : forall d, In d added ->
              i <= v_chunk_id d
              /\ nth_error (doc_text :: rest) (v_chunk_id d - i) = Some (v_text d)
              /\ PyStr.is_blank (v_text d) = false
              /\ v_embedding d <> []
              /\ v_source d = "custom_document").
    { intros d Hd. destruct (Hall d Hd) as (Hi & Hn & Hb & He & Hs).
      split; [lia|]. split; [|auto].
      replace (v_chunk_id d - i) with (S (v_chunk_id d - S i)) by lia. exact Hn. }
    split.
    + unfold step. destruct embedding as [[|x v]|]; cbn [app]; try exact Hsorted.
      constructor; [exact Hsorted|]. apply Forall_forall. intros d Hd.
      destruct (Hall d Hd) as (Hi & _). unfold chunk_ids_increase. cbn. lia.
    + intros d Hd. apply in_app_or in Hd as [Hd|Hd]; [|auto].
      unfold step in Hd. destruct embedding as [[|x v]|] eqn:He; try (destruct Hd; fail).
      destruct Hd as [Hd|[]]. subst d. cbn. rewrite Nat.sub_diag. cbn.
      split; [lia|]. split; [reflexivity|]. split; [|split; [discriminate | reflexivity]].
      destruct (PyStr.is_blank doc_text); [|reflexivity].
      specialize (Hblank eq_refl). discriminate.
Qed.

Lemma get_embedding_unfold text w :
  get_embedding E text w
  = if PyStr.is_blank text then (Ret None, w)
    else (match embedding_reply E (w_tick w) (embedded_text text) with
          | Ret embedding => Ret (Some embedding)
          | Raise _ => Ret None
          end, called w).
Proof.
  unfold get_embedding. destruct (PyStr.is_blank text); [reflexivity|].
  unfold try_except, bind, embeddings_create, ret, embedded_text.
  destruct (embedding_reply E (w_tick w) _); reflexivity.
Qed.

Lemma calls_before_cons doc_text rest k :
  calls_before (doc_text :: rest) (S k)
  = (if PyStr.is_blank doc_text then 0 else 1) + calls_before rest k.
Proof.
  unfold calls_before. cbn [firstn filter].
  destruct (PyStr.is_blank doc_text); reflexivity.
Qed.

(** The records the loop adds are those of the documents that got a
    non-empty embedding, no more and no less. *)
Lemma custom_docs_to_insert_records documents : forall i docs_to_insert w,
  exists added w',
    custom_docs_to_insert E i documents docs_to_insert w
    = (Ret (docs_to_insert ++ added), w')
    /\ forall d, In d added <->
         exists k doc_text e,
           embedded_at E (w_tick w) documents k doc_text e
           /\ d = mkVdoc doc_text e "custom_document" (i + k).
Proof.
  induction documents as [|doc_text rest IH]; intros i docs_to_insert w.
  - exists [], w. cbn. rewrite app_nil_r. split; [reflexivity|].
    intros d; split; [intros []|].
    intros (k & t & e & (Hk & _) & _). destruct k; discriminate.
  - cbn [custom_docs_to_insert]. unfold bind at 1. rewrite get_embedding_unfold.
    pose (embedding := if PyStr.is_blank doc_text then None
                       else match embedding_reply E (w_tick w) (embedded_text doc_text) with
                            | Ret e => Some e
                            | Raise _ => None
                            end).
    pose (w1 := if PyStr.is_blank doc_text then w else called w).
    assert (Hrun : (if PyStr.is_blank doc_text then (Ret None, w)
                    else (match embedding_reply E (w_tick w) (embedded_text doc_text) with
                          | Ret e => Ret (Some e)
                          | Raise _ => Ret None
                          end, called w))
                   = (Ret embedding, w1)).
    { unfold embedding, w1. destruct (PyStr.is_blank doc_text); [reflexivity|].
      destruct (embedding_reply E (w_tick w) _); reflexivity. }
    rewrite Hrun. clear Hrun.
    pose (step := match embedding with
                  | Some (x :: v) => [mkVdoc doc_text (x :: v) "custom_document" i]
                  | _ => []
                  end).
    assert (Hstep : match embedding with
                    | Some (x :: v) =>
                        docs_to_insert ++ [mkVdoc doc_text (x :: v) "custom_document" i]
                    | _ => docs_to_insert
                    end = docs_to_insert ++ step).
    { unfold step. destruct embedding as [[|x v]|]; rewrite ?app_nil_r; reflexivity. }
    rewrite Hstep. clear Hstep.
    destruct (IH (S i) (docs_to_insert ++ step) w1) as (added & w' & -> & Hall).
    exists (step ++ added), w'. rewrite <- app_assoc. split; [reflexivity|].
    assert (Ht : w_tick w1 = w_tick w + (if PyStr.is_blank doc_text then 0 else 1)).
    { unfold w1. destruct (PyStr.is_blank doc_text); cbn; lia. }
    assert (Hhead : forall d, In d step <->
              exists e, embedded_at E (w_tick w) (doc_text :: rest) 0 doc_text e
                        /\ d = mkVdoc doc_text e "custom_document" i).
    { intros d. unfold embedded_at, at_index, calls_before. cbn [firstn filter length nth_error].
      rewrite Nat.add_0_r. unfold step, embedding.
      destruct (PyStr.is_blank doc_text).
      - split; [intros []|]. intros (e & (_ & Hb & _) & _). discriminate.
      - destruct (embedding_reply E (w_tick w) (embedded_text doc_text)) as [[|x v]|err].
        + split; [intros []|]. intros (e & (_ & _ & He & Hne) & _).
          inversion He; subst e. contradiction.
        + split.
          * intros [<-|[]]. exists (x :: v). repeat split; discriminate.
          * intros (e & (_ & _ & He & _) & ->). inversion He; subst e. left; reflexivity.
        + split; [intros []|]. intros (e & (_ & _ & He & _) & _). discriminate. }
    intros d. rewrite in_app_iff, Hhead, Hall. split.
    + intros [(e & He & ->)|(k & t & e & (Hk & Hb & He & Hne) & ->)].
      * exists 0, doc_text, e. rewrite Nat.add_0_r. split; [exact He | reflexivity].
      * exists (S k), t, e. split.
        -- unfold embedded_at. rewrite calls_before_cons.
           split; [exact Hk|]. split; [exact Hb|]. split; [|exact Hne].
           rewrite <- He, Ht. f_equal. lia.
        -- f_equal. lia.
    + intros (k & t & e & (Hk & Hb & He & Hne) & ->). destruct k as [|k].
      * left. cbn in Hk. inversion Hk; subst t. exists e. rewrite Nat.add_0_r.
        split; [|reflexivity]. repeat split; assumption.
      * right. exists k, t, e. split.
        -- rewrite calls_before_cons in He.
           split; [exact Hk|]. split; [exact Hb|]. split; [|exact Hne].
           rewrite <- He, Ht. f_equal. lia.
        -- f_equal. lia.
Qed.

(** [add_custom_documents] embeds the documents in order, making one
    call for each document that is not blank and none for the others.
    The records it hands to [insert_many] are those of the documents that
    got a non-empty embedding, no more and no less: each keeps the text,
    the embedding returned for it and the position of its document in the
    list given, in increasing positions.  It answers [False], calling no
    insert, exactly when no document got a non-empty embedding; otherwise
    it answers [True], or raises what the insert raises. *)
Theorem add_custom_documents_chunks (documents : list string) (w : world) :
  exists docs_to_insert,
    let w1 := mkWorld (w_memory w) (w_chat_log w)
                (w_tick w + length (filter (fun t => negb (PyStr.is_blank t)) documents)) in
    custom_docs_to_insert E 0 documents [] w = (Ret docs_to_insert, w1)
    /\ add_custom_documents E insert_many_reply documents w
       = match docs_to_insert with
         | [] => (Ret false, w1)
         | _ => (match insert_many_reply (w_tick w1) docs_to_insert with
                 | Ret _ => Ret true
                 | Raise e => Raise e
                 end, called w1)
         end
    /\ length docs_to_insert <= length documents
    /\ StronglySorted chunk_ids_increase docs_to_insert
    /\ (forall d, In d docs_to_insert ->
         at_index documents (v_chunk_id d) = Some (v_text d)
         /\ PyStr.is_blank (v_text d) = false
         /\ v_embedding d <> []
         /\ v_source d = "custom_document")
    /\ (forall d, In d docs_to_insert <->
         exists k doc_text e,
           embedded_at E (w_tick w) documents k doc_text e
           /\ d = mkVdoc doc_text e "custom_document" k)
    /\ (fst (add_custom_documents E insert_many_reply documents w) = Ret false <->
        forall k doc_text e, ~ embedded_at E (w_tick w) documents k doc_text e).
Proof.
  destruct (custom_docs_to_insert_spec documents 0 [] w) as (added & Hrun & Hlen & Hs & Hall).
  destruct (custom_docs_to_insert_records documents 0 [] w) as (added' & w' & Hrun' & Hiff).
  rewrite Hrun in Hrun'. cbn [app] in Hrun, Hrun'. inversion Hrun'; subst added'. clear Hrun'.
  assert (Hadd : add_custom_documents E insert_many_reply documents w
                 = match added with
                   | [] => (Ret false,
                            mkWorld (w_memory w) (w_chat_log w)
                              (w_tick w
                               + length (filter (fun t => negb (PyStr.is_blank t)) documents)))
                   | _ => (match insert_many_reply
                                   (w_tick w
                                    + length (filter (fun t => negb (PyStr.is_blank t))
                                                     documents)) added with
                           | Ret _ => Ret true
                           | Raise e => Raise e
                           end,
                           called (mkWorld (w_memory w) (w_chat_log w)
                                     (w_tick w
                                      + length (filter (fun t => negb (PyStr.is_blank t))
                                                       documents))))
                   end).
  { unfold add_custom_documents, bind. rewrite Hrun.
    destruct added as [|d l]; [reflexivity|].
    unfold insert_many, ret. cbn [w_tick]. destruct (insert_many_reply _ _); reflexivity. }
  exists added. cbv zeta. split; [exact Hrun|].
  split; [exact Hadd|]. split; [exact Hlen|]. split; [exact Hs|].
  split; [|split].
  - intros d Hd. destruct (Hall d Hd) as (_ & Hn & Hrest).
    rewrite Nat.sub_0_r in Hn. split; [exact Hn | exact Hrest].
  - exact Hiff.
  - rewrite Hadd. destruct added as [|d l]; cbn [fst].
    + split; [|reflexivity]. intros _ k t e He.
      apply (proj2 (Hiff (mkVdoc t e "custom_document" k))). eauto.
    + split.
      * destruct (insert_many_reply _ _); discriminate.
      * intros Hnone. destruct (proj1 (Hiff d) (or_introl eq_refl)) as (k & t & e & He & _).
        destruct (Hnone k t e He).
Qed.

End IngestFacts.

Lemma add_custom_documents_chunks_witness :
  exists docs_to_insert,
    fst (custom_docs_to_insert corpus_env 0 ["Atlas"; "   "; "Voyage"] [] world0)
    = Ret docs_to_insert
    /\ In (mkVdoc "Atlas" [PrimFloat.one] "custom_document" 0) docs_to_insert
    /\ In (mkVdoc "Voyage" [PrimFloat.one] "custom_document" 2) docs_to_insert
    /\ length docs_to_insert = 2
    /\ fst (add_custom_documents corpus_env (fun _ docs => Ret (length docs))
              ["Atlas"; "   "; "Voyage"] world0) = Ret true.
Proof.
  destruct (add_custom_documents_chunks corpus_env (fun _ docs => Ret (length docs))
              ["Atlas"; "   "; "Voyage"] world0)
    as (docs_to_insert & Hrun & _ & _ & _ & _ & Hiff & _).
  exists docs_to_insert. split; [rewrite Hrun; reflexivity|].
  split; [|split].
  - apply Hiff. exists 0, "Atlas", [PrimFloat.one]. split; [|reflexivity].
    repeat split; discriminate.
  - apply Hiff. exists 2, "Voyage", [PrimFloat.one]. split; [|reflexivity].
    repeat split; discriminate.
  - cbv zeta in Hrun. vm_compute in Hrun. inversion Hrun. split; reflexivity.
Defined.

(* ================================================================== *)
(** * A whole turn: what it writes, what it asks, when it returns *)
(* ================================================================== *)

Lemma reads_only_refl w : reads_only w w [].
Proof. split; [reflexivity | rewrite app_nil_r; reflexivity]. Qed.

Lemma reads_only_called w : reads_only w (called w) [].
Proof. split; [reflexivity | cbn; rewrite app_nil_r; reflexivity]. Qed.

Lemma reads_only_trans w1 w2 w3 l1 l2 :
  reads_only w1 w2 l1 -> reads_only w2 w3 l2 -> reads_only w1 w3 (l1 ++ l2).
Proof.
  intros [Hm1 Hl1] [Hm2 Hl2]. split; [congruence|].
  rewrite Hl2, Hl1, app_assoc. reflexivity.
Qed.

Lemma document_blocks_total context : forall i,
  (forall d, In d context -> d_text d <> None) ->
  exists blocks, document_blocks i context = Ret blocks.
Proof.
  induction context as [|doc rest IH]; intros i H; cbn [document_blocks]; [eauto|].
  destruct (d_text doc) as [t|] eqn:Ht; [|exfalso; exact (H doc (or_introl eq_refl) Ht)].
  destruct (IH (S i)) as [blocks ->]; [intros; apply H; right; assumption|].
  cbn [obind]. eauto.
Qed.

Lemma insert_by_timestamp_length d l :
  length (insert_by_timestamp d l) = S (length l).
Proof.
  induction l as [|x r IH]; [reflexivity|]. simpl.
  destruct (Z.leb (m_timestamp d) (m_timestamp x)); simpl; [reflexivity|].
  rewrite IH. reflexivity.
Qed.

Lemma sort_by_timestamp_length l : length (sort_by_timestamp l) = length l.
Proof.
  induction l as [|x r IH]; [reflexivity|]. unfold sort_by_timestamp in *. simpl.
  rewrite insert_by_timestamp_length, IH. reflexivity.
Qed.

Section TurnFacts.

Variable E : env.

Lemma chat_create_effect rq w :
  chat_create E rq w
  = (chat_reply E (w_tick w) rq,
     mkWorld (w_memory w) (w_chat_log w ++ [rq]) (S (w_tick w))).
Proof. reflexivity. Qed.

Lemma get_llm_response_effect messages system_message w :
  exists response,
    get_llm_response E messages system_message w
    = (Ret response,
       mkWorld (w_memory w)
               (w_chat_log w ++ [mkReq OPENAI_MODEL
                                   (with_system_message messages system_message) 7])
               (S (w_tick w))).
Proof.
  unfold get_llm_response, try_except, chat_create, ret.
  destruct (chat_reply E (w_tick w) _); eauto.
Qed.

Lemma retrieve_session_history_effect session_id limit w :
  exists history, retrieve_session_history E session_id limit w = (Ret history, called w).
Proof.
  rewrite retrieve_session_history_unfold.
  destruct (db_down E (w_tick w)); [eauto|]. destruct (project_turns _); eauto.
Qed.

Lemma get_session_summary_effect session_id w :
  exists summary w' requests,
    get_session_summary E session_id w = (Ret summary, w')
    /\ reads_only w w' requests /\ length requests <= 1.
Proof.
  unfold get_session_summary, try_except, bind.
  destruct (retrieve_session_history_effect session_id None w) as [history ->].
  destruct history as [|h hs].
  - unfold ret. eexists _, _, []. split; [reflexivity|].
    split; [apply reads_only_called | simpl; lia].
  - rewrite chat_create_effect. cbn [w_tick w_memory w_chat_log called].
    destruct (chat_reply E _ _); unfold ret;
      (eexists _, _, [_]; split; [reflexivity|]; split; [split; reflexivity | simpl; lia]).
Qed.

Lemma get_user_preferences_effect session_id w :
  exists preferences w' requests,
    get_user_preferences E session_id w = (Ret preferences, w')
    /\ reads_only w w' requests /\ length requests <= 1.
Proof.
  unfold get_user_preferences, try_except, bind.
  destruct (retrieve_session_history_effect session_id None w) as [history ->].
  destruct history as [|h hs].
  - unfold ret. eexists _, _, []. split; [reflexivity|].
    split; [apply reads_only_called | simpl; lia].
  - rewrite chat_create_effect. cbn [w_tick w_memory w_chat_log called].
    destruct (chat_reply E _ _) as [text|e]; unfold ret, lift.
    + destruct (decode_preferences E text);
        (eexists _, _, [_]; split; [reflexivity|]; split; [split; reflexivity | simpl; lia]).
    + eexists _, _, [_]; split; [reflexivity|]; split; [split; reflexivity | simpl; lia].
Qed.

Lemma replace_blank_str tool_input user_input v :
  replace_blank tool_input user_input = Ret v -> exists s, v = PStr s.
Proof.
  unfold replace_blank. destruct (negb (Py.truthy tool_input)).
  - intros H; inversion H; eauto.
  - destruct tool_input; try discriminate.
    destruct (String.eqb (PyStr.strip s) ""); intros H; inversion H; eauto.
Qed.

(** At the end of lines 103-146 a tool other than [none] comes with a
    string. *)
Lemma model_choice_input_str tool_response user_input tool tool_input :
  model_choice E tool_response user_input = Ret (tool, tool_input) ->
  Py.eq_str tool "none" = false ->
  exists s, tool_input = PStr s.
Proof.
  unfold model_choice. destruct tool_response as [text|]; [|discriminate].
  destruct (decode_choice E text user_input) as [[t i]|e] eqn:Hd.
  - intros H Hn; inversion H; subst. unfold decode_choice in Hd.
    destruct (json_loads E text) as [tool_call|]; [|discriminate]. cbn [obind] in Hd.
    destruct (Py.get tool_call "tool" (PStr "none")) as [t0|]; [|discriminate].
    cbn [obind] in Hd.
    destruct (Py.get tool_call "input" (PStr user_input)) as [i0|]; [|discriminate].
    cbn [obind] in Hd.
    destruct (negb (Py.eq_str t0 "none")) eqn:Hneg.
    + destruct (replace_blank (normalize_input E i0) user_input) as [v|] eqn:Hr;
        [|discriminate].
      cbn [obind] in Hd. inversion Hd; subst. eapply replace_blank_str; eauto.
    + inversion Hd; subst. apply negb_false_iff in Hneg. congruence.
  - destruct (exn_cls e); try discriminate.
    unfold fallback_parsing.
    repeat match goal with
           | |- context [if ?b then _ else _] => destruct b
           end; intros H _; inversion H; eauto.
Qed.

Lemma apply_overrides_takes_str user_input selected_tool :
  takes_str (apply_overrides user_input selected_tool) = true ->
  Py.eq_str selected_tool "none" = false.
Proof.
  destruct (Py.eq_str selected_tool "none") eqn:Hn; [|reflexivity].
  destruct selected_tool; cbn in Hn; try discriminate Hn.
  apply String.eqb_eq in Hn. subst s. unfold apply_overrides.
  cbn [Py.eq_str]. cbn [String.eqb Ascii.eqb Bool.eqb andb].
  destruct (PyStr.any_in general_knowledge_keywords (PyStr.lower user_input));
    cbn; discriminate.
Qed.

(** The selector hands a string to the tools that take one. *)
Lemma tool_selector_takes_str user_input session_history w tool tool_input :
  fst (tool_selector E user_input session_history w) = Ret (tool, tool_input) ->
  takes_str tool = true -> exists s, tool_input = PStr s.
Proof.
  rewrite tool_selector_unfold. cbv zeta.
  assert (Hfb : forall t i, keyword_fallback user_input = (t, i) -> exists s, i = PStr s).
  { unfold keyword_fallback. intros t i.
    repeat match goal with
           | |- context [if ?b then _ else _] => destruct b
           end; intros H; inversion H; eauto. }
  destruct (chat_reply E (w_tick w) _) as [r|e].
  - destruct (model_choice E r user_input) as [[t i]|e] eqn:Hm; cbn [fst].
    + intros H Ht; inversion H; subst.
      eapply model_choice_input_str; eauto.
      eapply apply_overrides_takes_str; eauto.
    + intros H _; inversion H. eapply Hfb; eauto.
  - cbn [fst]. intros H _; inversion H. eapply Hfb; eauto.
Qed.

Lemma tool_selector_effect user_input session_history w :
  exists tool tool_input w',
    tool_selector E user_input session_history w = (Ret (tool, tool_input), w')
    /\ w_chat_log w' = w_chat_log w ++ [selector_request E user_input session_history]
    /\ w_memory w' = w_memory w.
Proof.
  rewrite tool_selector_unfold. cbv zeta.
  destruct (chat_reply E (w_tick w) _) as [r|e].
  - destruct (model_choice E r user_input) as [[t i]|e]; eauto 8.
    destruct (keyword_fallback user_input) as [t i]; eauto 8.
  - destruct (keyword_fallback user_input) as [t i]; eauto 8.
Qed.

Lemma vector_search_tool_effect user_input limit w :
  exists results w',
    vector_search_tool E user_input limit w = (Ret results, w')
    /\ reads_only w w' []
    /\ (forall d, In d results -> d_search_type d = None)
    /\ (vector_index_has_texts E -> forall d, In d results -> d_text d <> None).
Proof.
  destruct (vector_search_tool_never_raises E user_input limit w) as [results [w' Hv]].
  exists results, w'. split; [exact Hv|]. split; [|split].
  - revert Hv. unfold vector_search_tool. destruct (PyStr.is_blank user_input).
    + unfold ret; intros H; inversion H; subst. apply reads_only_refl.
    + unfold try_except, bind.
      destruct (get_embedding_effect E user_input w) as (embedding & -> & _).
      set (w1 := if PyStr.is_blank user_input then w else called w).
      assert (H1 : reads_only w w1 [])
        by (unfold w1; destruct (PyStr.is_blank user_input);
            [apply reads_only_refl | apply reads_only_called]).
      destruct embedding as [[|f q]|]; unfold ret;
        try (intros H; inversion H; subst; exact H1).
      unfold aggregate. destruct (vector_reply E (w_tick w1) (f :: q) limit);
        intros H; inversion H; subst;
        exact (reads_only_trans _ _ _ [] [] H1 (reads_only_called w1)).
  - intros d. eapply vector_search_tool_untagged; eauto.
  - intros Htexts d. revert Hv. unfold vector_search_tool.
    destruct (PyStr.is_blank user_input).
    + unfold ret; intros H; inversion H; subst; intros [].
    + unfold try_except, bind.
      destruct (get_embedding E user_input w) as [[[[|f q]|]|e] w1];
        unfold ret; try (intros H; inversion H; subst; intros []).
      unfold aggregate.
      destruct (vector_reply E (w_tick w1) (f :: q) limit) as [r|e] eqn:Hr;
        intros H; inversion H; subst; [|intros []].
      intros Hd. apply in_map_iff in Hd as [x [<- Hx]]. cbn.
      exact (Htexts _ _ _ _ Hr x Hx).
Qed.

Lemma add_results_pure tag results acc w :
  snd (lift (add_results tag results acc) w) = w.
Proof. reflexivity. Qed.

Lemma hybrid_combine_effect user_input limit w :
  reads_only w (snd (hybrid_combine E user_input limit w)) [].
Proof.
  unfold hybrid_combine. unfold bind at 1.
  destruct (vector_search_tool_effect user_input limit w) as (vs & w1 & -> & H1 & _).
  unfold bind at 1, lift.
  destruct (add_results Vector vs ([], [])) as [with_vector|e]; [|exact H1].
  unfold bind at 1, text_find.
  assert (H2 : reads_only w (called w1) [])
    by exact (reads_only_trans _ _ _ [] [] H1 (reads_only_called w1)).
  destruct (text_reply E (w_tick w1) user_input limit) as [ts|e]; [|exact H2].
  unfold bind. destruct (add_results Text _ with_vector); exact H2.
Qed.

Lemma hybrid_search_tool_effect user_input limit w :
  exists results w',
    hybrid_search_tool E user_input limit w = (Ret results, w')
    /\ reads_only w w' []
    /\ forall d, In d results -> d_search_type d <> None -> d_text d <> None.
Proof.
  unfold hybrid_search_tool, try_except.
  pose proof (hybrid_combine_effect user_input limit w) as H1.
  destruct (hybrid_combine E user_input limit w) as [[results|e] w1] eqn:Hc; cbn [snd] in H1.
  - exists results, w1. split; [reflexivity|]. split; [exact H1|].
    intros d Hd _. apply hybrid_combine_ret in Hc as (vs & ts & w0 & _ & _ & ->).
    apply firstn_In, first_by_text_In in Hd as (_ & t & Ht & _). congruence.
  - destruct (vector_search_tool_effect user_input limit w1) as (results & w' & -> & H2 & Hu & _).
    exists results, w'. split; [reflexivity|].
    split; [exact (reads_only_trans _ _ _ [] [] H1 H2)|].
    intros d Hd Hty. exfalso. exact (Hty (Hu d Hd)).
Qed.

Lemma get_llm_response_reads messages system_message w :
  exists response w' requests,
    get_llm_response E messages system_message w = (Ret response, w')
    /\ reads_only w w' requests /\ length requests = 1.
Proof.
  destruct (get_llm_response_effect messages system_message w) as [response ->].
  eexists _, _, [_]. split; [reflexivity|]. split; [split; reflexivity | reflexivity].
Qed.

Lemma process_vector_search_response_effect messages context user_input w :
  exists o w' requests,
    process_vector_search_response E messages context user_input w = (o, w')
    /\ reads_only w w' requests /\ length requests <= 1
    /\ ((forall d, In d context -> d_text d <> None) -> exists response, o = Ret response).
Proof.
  unfold process_vector_search_response. destruct context as [|d0 rest] eqn:Hctx.
  - eexists _, _, []. split; [reflexivity|]. split; [apply reads_only_refl|].
    split; [simpl; lia | eauto].
  - rewrite <- Hctx. unfold bind, lift.
    destruct (document_blocks 0 context) as [blocks|e] eqn:Hb.
    + destruct (get_llm_response_reads messages
                  (vector_system_message (PyStr.join blank_line blocks)) w)
        as (r & w' & l & -> & Hr & Hl).
      eexists _, _, l. split; [reflexivity|]. split; [exact Hr|]. split; [lia | eauto].
    + eexists _, _, []. split; [reflexivity|]. split; [apply reads_only_refl|].
      split; [simpl; lia|]. intros H.
      destruct (document_blocks_total context 0 H) as [blocks Hb']. congruence.
Qed.

Lemma process_hybrid_search_response_effect messages context user_input w :
  exists o w' requests,
    process_hybrid_search_response E messages context user_input w = (o, w')
    /\ reads_only w w' requests /\ length requests <= 1
    /\ ((forall d, In d context -> d_search_type d <> None -> d_text d <> None) ->
        exists response, o = Ret response).
Proof.
  unfold process_hybrid_search_response. destruct context as [|d0 rest] eqn:Hctx.
  - eexists _, _, []. split; [reflexivity|]. split; [apply reads_only_refl|].
    split; [simpl; lia | eauto].
  - rewrite <- Hctx. clear Hctx d0 rest.
    assert (Hblocks : forall tag,
              (forall d, In d context -> d_search_type d <> None -> d_text d <> None) ->
              exists blocks, document_blocks 0 (filter (has_type tag) context) = Ret blocks).
    { intros tag H. apply document_blocks_total. intros d Hd.
      apply filter_In in Hd as [Hd Ht]. apply H; [exact Hd|].
      unfold has_type in Ht. destruct (d_search_type d); [discriminate | destruct tag; discriminate]. }
    unfold bind at 1.
    destruct (filter (has_type Vector) context) as [|v vs] eqn:Hv.
    + unfold ret at 1. unfold bind at 1.
      destruct (filter (has_type Text) context) as [|t ts] eqn:Ht.
      * unfold ret at 1.
        destruct (get_llm_response_reads messages (hybrid_system_message ("" ++ "")) w)
          as (r & w' & l & -> & Hr & Hl).
        eexists _, _, l. split; [reflexivity|]. split; [exact Hr|]. split; [lia | eauto].
      * rewrite <- Ht. unfold bind at 1, lift.
        destruct (document_blocks 0 (filter (has_type Text) context)) as [blocks|e] eqn:Hb.
        -- unfold ret at 1.
           destruct (get_llm_response_reads messages
                       (hybrid_system_message
                          ("" ++ (blank_line ++ "Keyword Search Results:" ++ PyStr.newline
                                  ++ PyStr.join blank_line blocks))) w)
             as (r & w' & l & -> & Hr & Hl).
           eexists _, _, l. split; [reflexivity|]. split; [exact Hr|]. split; [lia | eauto].
        -- eexists _, _, []. split; [reflexivity|]. split; [apply reads_only_refl|].
           split; [simpl; lia|]. intros H. destruct (Hblocks Text H) as [b Hb']. congruence.
    + rewrite <- Hv. unfold bind at 1, lift.
      destruct (document_blocks 0 (filter (has_type Vector) context)) as [vblocks|e] eqn:Hvb.
      * unfold ret at 1. unfold bind at 1.
        destruct (filter (has_type Text) context) as [|t ts] eqn:Ht.
        -- unfold ret at 1.
           destruct (get_llm_response_reads messages
                       (hybrid_system_message
                          (("Semantic Search Results:" ++ PyStr.newline
                            ++ PyStr.join blank_line vblocks) ++ "")) w)
             as (r & w' & l & -> & Hr & Hl).
           eexists _, _, l. split; [reflexivity|]. split; [exact Hr|]. split; [lia | eauto].
        -- rewrite <- Ht. unfold bind at 1, lift.
           destruct (document_blocks 0 (filter (has_type Text) context)) as [blocks|e] eqn:Hb.
           ++ unfold ret at 1.
              destruct (get_llm_response_reads messages
                          (hybrid_system_message
                             (("Semantic Search Results:" ++ PyStr.newline
                               ++ PyStr.join blank_line vblocks)
                              ++ (blank_line ++ "Keyword Search Results:" ++ PyStr.newline
                                  ++ PyStr.join blank_line blocks))) w)
                as (r & w' & l & -> & Hr & Hl).
              eexists _, _, l. split; [reflexivity|]. split; [exact Hr|]. split; [lia | eauto].
           ++ eexists _, _, []. split; [reflexivity|]. split; [apply reads_only_refl|].
              split; [simpl; lia|]. intros H. destruct (Hblocks Text H) as [b Hb']. congruence.
      * eexists _, _, []. split; [reflexivity|]. split; [apply reads_only_refl|].
        split; [simpl; lia|]. intros H. destruct (Hblocks Vector H) as [b Hb']. congruence.
Qed.

End TurnFacts.
Section TurnClaims.

Variable E : env.

Lemma filter_turn_doc session_id role content tick :
  filter (in_session session_id) [turn_doc E session_id role content tick]
  = [turn_doc E session_id role content tick].
Proof. cbn. unfold in_session. cbn. rewrite String.eqb_refl. reflexivity. Qed.

Lemma dispatch_effect tool tool_input llm_input user_input w :
  exists o w' requests,
    dispatch E tool tool_input llm_input user_input w = (o, w')
    /\ reads_only w w' requests /\ length requests <= 1
    /\ ((takes_str tool = true -> exists s, tool_input = PStr s) ->
        vector_index_has_texts E ->
        exists response, o = Ret response).
Proof.
  unfold dispatch, takes_str.
  destruct (Py.eq_str tool "vector_search_tool") eqn:Hv.
  { destruct tool_input as [| | | |q| |];
      try (eexists _, _, []; split; [reflexivity|]; split; [apply reads_only_refl|];
           split; [simpl; lia|]; intros H; destruct (H eq_refl) as [s Hs]; discriminate).
    unfold bind at 1, str_arg, ret at 1. unfold bind.
    destruct (vector_search_tool_effect E q 5 w) as (context & w1 & -> & H1 & _ & Ht).
    destruct (process_vector_search_response_effect E llm_input context user_input w1)
      as (o & w' & l & -> & H2 & Hl & Hret).
    exists o, w', l. split; [reflexivity|].
    split; [exact (reads_only_trans _ _ _ [] l H1 H2)|]. split; [exact Hl|].
    intros _ Htexts. apply Hret. apply Ht, Htexts. }
  destruct (Py.eq_str tool "calculator_tool") eqn:Hc.
  { destruct tool_input as [| | | |q| |];
      try (eexists _, _, []; split; [reflexivity|]; split; [apply reads_only_refl|];
           split; [simpl; lia|]; intros H; destruct (H eq_refl) as [s Hs]; discriminate).
    unfold bind, str_arg, ret. rewrite calculator_tool_unfold.
    eexists _, _, []. split; [reflexivity|]. split; [apply reads_only_refl|].
    split; [simpl; lia | eauto]. }
  destruct (Py.eq_str tool "web_search_tool") eqn:Hw.
  { unfold process_web_search_response.
    destruct (get_llm_response_reads E llm_input
                (web_system_message (web_search_tool (format_arg E tool_input))) w)
      as (r & w' & l & -> & Hr & Hl).
    eexists _, _, l. split; [reflexivity|]. split; [exact Hr|]. split; [lia | eauto]. }
  destruct (Py.eq_str tool "document_analysis_tool") eqn:Hd.
  { eexists _, _, []. split; [reflexivity|]. split; [apply reads_only_refl|].
    split; [simpl; lia | eauto]. }
  destruct (Py.eq_str tool "hybrid_search_tool") eqn:Hh.
  { destruct tool_input as [| | | |q| |];
      try (eexists _, _, []; split; [reflexivity|]; split; [apply reads_only_refl|];
           split; [simpl; lia|]; intros H; destruct (H eq_refl) as [s Hs]; discriminate).
    unfold bind at 1, str_arg, ret at 1. unfold bind.
    destruct (hybrid_search_tool_effect E q 5 w) as (context & w1 & -> & H1 & Ht).
    destruct (process_hybrid_search_response_effect E llm_input context user_input w1)
      as (o & w' & l & -> & H2 & Hl & Hret).
    exists o, w', l. split; [reflexivity|].
    split; [exact (reads_only_trans _ _ _ [] l H1 H2)|]. split; [exact Hl|].
    intros _ _. apply Hret, Ht. }
  destruct (get_llm_response_reads E llm_input
              "You are a helpful AI assistant. Respond to the user's prompt based on the conversation history." w)
    as (r & w' & l & -> & Hr & Hl).
  eexists _, _, l. split; [reflexivity|]. split; [exact Hr|]. split; [lia | eauto].
Qed.

(** What [gather_turn] leaves behind: the user's turn in the collection
    when the insert went through, and up to three requests, the last
    of them the selection request. *)
Lemma gather_turn_effect session_id user_input w :
  exists tool tool_input llm_input w1 requests history,
    gather_turn E session_id user_input w = (Ret (tool, tool_input, llm_input), w1)
    /\ w_memory w1
       = w_memory w ++ (if db_down E (S (w_tick w)) then []
                        else [turn_doc E session_id "user" (Some user_input) (w_tick w)])
    /\ w_chat_log w1
       = w_chat_log w ++ requests ++ [selector_request E user_input history]
    /\ length requests <= 2
    /\ (takes_str tool = true -> exists s, tool_input = PStr s).
Proof.
  unfold gather_turn. unfold bind at 1.
  rewrite store_chat_message_unfold. cbv zeta.
  set (w0 := if db_down E (S (w_tick w))
             then mkWorld (w_memory w) (w_chat_log w) (S (S (w_tick w)))
             else mkWorld (w_memory w ++ [turn_doc E session_id "user" (Some user_input) (w_tick w)])
                          (w_chat_log w) (S (S (w_tick w)))).
  assert (Hw0 : (if db_down E (S (w_tick w))
                 then (Ret tt, mkWorld (w_memory w) (w_chat_log w) (S (S (w_tick w))))
                 else (Ret tt,
                        mkWorld (w_memory w ++
                                   [mkDoc session_id (Some "user") (Some user_input)
                                          (now E (w_tick w)) (Some []) None None])
                                (w_chat_log w) (S (S (w_tick w)))))
                = (Ret tt, w0))
    by (unfold w0, turn_doc; destruct (db_down E (S (w_tick w))); reflexivity).
  rewrite Hw0. clear Hw0.
  assert (Hm0 : w_memory w0
                = w_memory w ++ (if db_down E (S (w_tick w)) then []
                                 else [turn_doc E session_id "user" (Some user_input) (w_tick w)])
                /\ w_chat_log w0 = w_chat_log w).
  { unfold w0. destruct (db_down E (S (w_tick w))); cbn; rewrite ?app_nil_r; auto. }
  destruct Hm0 as [Hm0 Hl0]. clearbody w0.
  unfold bind at 1.
  destruct (retrieve_session_history_effect E session_id None w0) as [history ->].
  unfold bind at 1.
  destruct (get_session_summary_effect E session_id (called w0))
    as (summary & w2 & l2 & -> & [Hm2 Hl2] & Hn2).
  unfold bind at 1.
  destruct (get_user_preferences_effect E session_id w2)
    as (prefs & w3 & l3 & -> & [Hm3 Hl3] & Hn3).
  unfold bind at 1.
  destruct (tool_selector_effect E user_input history w3)
    as (tool & tool_input & w4 & Hsel & Hl4 & Hm4).
  rewrite Hsel. unfold ret.
  eexists tool, tool_input, _, w4, (l2 ++ l3), history.
  split; [reflexivity|]. split; [|split; [|split]].
  - rewrite Hm4, Hm3, Hm2. cbn [called w_memory]. exact Hm0.
  - rewrite Hl4, Hl3, Hl2. cbn [called w_chat_log]. rewrite Hl0, <- !app_assoc. reflexivity.
  - rewrite length_app. lia.
  - apply (tool_selector_takes_str E user_input history w3). rewrite Hsel. reflexivity.
Qed.

(** Whatever the services do, a turn deletes and rewrites nothing: it
    appends at most two records to the collection, both turns of its own
    session, the user's with the utterance and, only when the turn
    returns, the assistant's with the answer returned.  It issues between
    one and four generation requests, the selection request among them. *)
Theorem generate_response_effect (session_id user_input : string) (w : world) :
  exists o w' stored requests history,
    generate_response E session_id user_input w = (o, w')
    /\ w_memory w' = w_memory w ++ stored
    /\ length stored <= 2
    /\ (forall d, In d stored ->
          m_session_id d = session_id /\ m_type d = None
          /\ ((m_role d = Some "user" /\ m_content d = Some user_input)
              \/ (m_role d = Some "assistant" /\ o = Ret (m_content d))))
    /\ w_chat_log w' = w_chat_log w ++ requests
    /\ 1 <= length requests <= 4
    /\ In (selector_request E user_input history) requests.
Proof.
  unfold generate_response. unfold bind at 1.
  destruct (gather_turn_effect session_id user_input w)
    as (tool & tool_input & llm_input & w1 & l1 & history & -> & Hm1 & Hl1 & Hn1 & _).
  unfold bind at 1.
  destruct (dispatch_effect tool tool_input llm_input user_input w1)
    as (o & w2 & l2 & -> & [Hm2 Hl2] & Hn2 & _).
  set (user_part := if db_down E (S (w_tick w)) then []
                    else [turn_doc E session_id "user" (Some user_input) (w_tick w)]) in *.
  assert (Huser : length user_part <= 1
                  /\ forall d, In d user_part ->
                       m_session_id d = session_id /\ m_type d = None
                       /\ m_role d = Some "user" /\ m_content d = Some user_input).
  { unfold user_part. destruct (db_down E (S (w_tick w))).
    - split; [simpl; lia | intros d []].
    - split; [simpl; lia|]. intros d [<-|[]]. cbn. auto. }
  destruct Huser as [Hun Hud].
  assert (Hreq : w_chat_log w2 = w_chat_log w ++ (l1 ++ [selector_request E user_input history] ++ l2)).
  { rewrite Hl2, Hl1, <- !app_assoc. reflexivity. }
  assert (Hlen : 1 <= length (l1 ++ [selector_request E user_input history] ++ l2) <= 4)
    by (rewrite !length_app; cbn [length]; lia).
  assert (Hin : In (selector_request E user_input history)
                   (l1 ++ [selector_request E user_input history] ++ l2))
    by (apply in_or_app; right; left; reflexivity).
  destruct o as [response|e].
  - unfold bind. rewrite store_chat_message_unfold. cbv zeta. unfold ret.
    destruct (db_down E (S (w_tick w2))).
    + eexists _, _, user_part, _, history. split; [reflexivity|]. cbn [w_memory w_chat_log].
      split; [congruence|]. split; [lia|]. split; [|split; [exact Hreq|split; assumption]].
      intros d Hd. destruct (Hud d Hd) as (? & ? & ? & ?). auto.
    + eexists _, _, (user_part ++ [turn_doc E session_id "assistant" response (w_tick w2)]),
        _, history.
      split; [reflexivity|]. cbn [w_memory w_chat_log].
      split; [rewrite Hm2, Hm1, <- app_assoc; reflexivity|].
      split; [rewrite length_app; cbn [length]; lia|].
      split; [|split; [exact Hreq|split; assumption]].
      intros d Hd. apply in_app_or in Hd as [Hd|[<-|[]]].
      * destruct (Hud d Hd) as (? & ? & ? & ?). auto.
      * cbn. auto.
  - eexists _, _, user_part, _, history. split; [reflexivity|].
    split; [congruence|]. split; [lia|]. split; [|split; [exact Hreq|split; assumption]].
    intros d Hd. destruct (Hud d Hd) as (? & ? & ? & ?). auto.
Qed.

Lemma generate_response_total session_id user_input w :
  vector_index_has_texts E ->
  exists response w', generate_response E session_id user_input w = (Ret response, w').
Proof.
  intros Htexts. unfold generate_response. unfold bind at 1.
  destruct (gather_turn_effect session_id user_input w)
    as (tool & tool_input & llm_input & w1 & l1 & history & -> & _ & _ & _ & Hstr).
  unfold bind at 1.
  destruct (dispatch_effect tool tool_input llm_input user_input w1)
    as (o & w2 & l2 & -> & _ & _ & Hret).
  destruct (Hret Hstr Htexts) as [response ->].
  unfold bind. rewrite store_chat_message_unfold. cbv zeta. unfold ret.
  destruct (db_down E (S (w_tick w2))); eauto.
Qed.

(** When every document the vector index hands out has a text, a turn
    returns: no failure of the generation service, of the embedding
    service or of the database, and no answer of the model, makes
    [generate_response] raise. *)
Theorem generate_response_returns
    (session_id user_input : string) (w : world)
    (Htexts : vector_index_has_texts E) :
  exists response w', generate_response E session_id user_input w = (Ret response, w').
Proof. apply generate_response_total, Htexts. Qed.

(** With the collection reachable, in a session that holds chat turns
    only, a turn is on record once it returns: the history read next
    holds the user's turn with the utterance and the assistant's turn
    with the answer returned. *)
Theorem generate_response_records_turn
    (session_id user_input : string) (w : world)
    (Hup : forall n, db_down E n = false)
    (Htexts : vector_index_has_texts E)
    (Hturns : turns_only session_id (w_memory w)) :
  exists response w' history asked answered,
    generate_response E session_id user_input w = (Ret response, w')
    /\ fst (retrieve_session_history E session_id None w') = Ret history
    /\ In (mkTurn "user" (Some user_input) asked []) history
    /\ In (mkTurn "assistant" response answered []) history
    /\ length (filter (in_session session_id) (w_memory w)) + 2 = length history.
Proof.
  destruct (generate_response_total session_id user_input w Htexts) as (response & w' & Hg).
  unfold generate_response in Hg. unfold bind at 1 in Hg.
  destruct (gather_turn_effect session_id user_input w)
    as (tool & tool_input & llm_input & w1 & l1 & h1 & Hgt & Hm1 & _ & _ & _).
  rewrite Hgt in Hg. unfold bind at 1 in Hg.
  destruct (dispatch_effect tool tool_input llm_input user_input w1)
    as (o & w2 & l2 & Hd & [Hm2 _] & _ & _).
  rewrite Hd in Hg. destruct o as [r|e]; [|discriminate].
  unfold bind in Hg. rewrite store_chat_message_unfold in Hg. cbv zeta in Hg.
  rewrite Hup in Hg. unfold ret in Hg. inversion Hg; subst response w'. clear Hg.
  rewrite Hup in Hm1.
  exists r. eexists. exists (map as_turn
                 (sort_by_timestamp
                    (filter (in_session session_id)
                       (w_memory w ++ [turn_doc E session_id "user" (Some user_input) (w_tick w)]
                        ++ [turn_doc E session_id "assistant" r (w_tick w2)])))).
  exists (now E (w_tick w)), (now E (w_tick w2)).
  split; [unfold generate_response, bind; rewrite Hgt, Hd, store_chat_message_unfold;
          cbv zeta; rewrite Hup; reflexivity|].
  assert (Hmem : w_memory w2 ++ [mkDoc session_id (Some "assistant") r (now E (w_tick w2))
                                       (Some []) None None]
                 = w_memory w ++ [turn_doc E session_id "user" (Some user_input) (w_tick w)]
                   ++ [turn_doc E session_id "assistant" r (w_tick w2)]).
  { rewrite Hm2, Hm1, <- app_assoc. reflexivity. }
  split; [|split; [|split]].
  - rewrite retrieve_session_history_unfold. cbn [w_tick w_memory]. rewrite Hup.
    cbn [apply_limit]. rewrite Hmem. rewrite project_turns_all; [reflexivity|].
    intros d Hin. apply sort_by_timestamp_In, filter_In in Hin as [Hin Hs].
    apply in_app_or in Hin as [Hin|[<-|[<-|[]]]]; [exact (Hturns d Hin Hs)| |]; discriminate.
  - change (mkTurn "user" (Some user_input) (now E (w_tick w)) [])
      with (as_turn (turn_doc E session_id "user" (Some user_input) (w_tick w))).
    apply in_map, sort_by_timestamp_In, filter_In. split.
    + apply in_or_app; right; left; reflexivity.
    + unfold in_session, turn_doc; cbn. apply String.eqb_refl.
  - change (mkTurn "assistant" r (now E (w_tick w2)) [])
      with (as_turn (turn_doc E session_id "assistant" r (w_tick w2))).
    apply in_map, sort_by_timestamp_In, filter_In. split.
    + apply in_or_app; right; right; left; reflexivity.
    + unfold in_session, turn_doc; cbn. apply String.eqb_refl.
  - rewrite length_map, sort_by_timestamp_length, !filter_app, !length_app.
    rewrite !filter_turn_doc. cbn [length]. lia.
Qed.

End TurnClaims.

Section SummaryFailure.

Variable E : env.

(** When the summary request fails in a session whose history is not
    empty, the failure text is taken for a summary: the conversation
    list handed on starts with a system message that says the summary
    could not be generated. *)
Theorem gather_turn_summary_failure
    (session_id user_input : string) (w : world) (e : exn)
    (Hup : forall n, db_down E n = false)
    (Hturns : turns_only session_id (w_memory w))
    (Hfail : forall rq, chat_reply E (4 + w_tick w) rq = Raise e) :
  exists tool tool_input history w',
    gather_turn E session_id user_input w
    = (Ret (tool, tool_input,
            mkMsg "system"
              (Some "Previous conversation summary: Unable to generate session summary.")
            :: clean_session_history history ++ [mkMsg "user" (Some user_input)]), w')
    /\ history <> [].
Proof.
  unfold gather_turn. unfold bind at 1.
  rewrite store_chat_message_unfold. cbv zeta. rewrite Hup.
  set (doc := mkDoc session_id (Some "user") (Some user_input) (now E (w_tick w))
                    (Some []) None None).
  set (docs := sort_by_timestamp (filter (in_session session_id) (w_memory w ++ [doc]))).
  assert (Hall : forall d, In d docs -> m_role d <> None).
  { intros d Hd. apply sort_by_timestamp_In, filter_In in Hd as [Hin Hs].
    apply in_app_or in Hin as [Hin|[<-|[]]]; [exact (Hturns d Hin Hs) | discriminate]. }
  assert (Hdoc : In doc docs).
  { apply sort_by_timestamp_In, filter_In. split.
    - apply in_or_app; right; left; reflexivity.
    - unfold in_session, doc; cbn. apply String.eqb_refl. }
  assert (Hne : map as_turn docs <> []).
  { destruct docs; [destruct Hdoc | discriminate]. }
  unfold bind at 1. rewrite retrieve_session_history_unfold.
  cbn [w_tick w_memory apply_limit]. rewrite Hup. fold docs.
  rewrite (project_turns_all docs Hall).
  unfold bind at 1. unfold get_session_summary, try_except. unfold bind at 1.
  rewrite retrieve_session_history_unfold.
  cbn [called w_tick w_memory w_chat_log apply_limit]. rewrite Hup. fold docs.
  rewrite (project_turns_all docs Hall).
  destruct (map as_turn docs) as [|h hs] eqn:Hh; [contradiction|]. rewrite <- Hh.
  rewrite chat_create_effect. cbn [w_tick w_memory w_chat_log].
  change (S (S (S (S (w_tick w))))) with (4 + w_tick w). rewrite Hfail.
  unfold ret at 1. unfold bind at 1.
  match goal with
  | |- context [get_user_preferences E session_id ?w2] =>
      destruct (get_user_preferences_effect E session_id w2)
        as (prefs & w3 & l3 & -> & _ & _)
  end.
  unfold bind at 1.
  destruct (tool_selector_effect E user_input (map as_turn docs) w3)
    as (tool & tool_input & w4 & -> & _ & _).
  unfold ret. exists tool, tool_input, (map as_turn docs), w4.
  split; [reflexivity | rewrite Hh; discriminate].
Qed.

End SummaryFailure.

(* ================================================================== *)
(** * The theorems above at sample inputs *)
(* ================================================================== *)

Lemma corpus_env_has_texts : vector_index_has_texts corpus_env.
Proof.
  intros n query limit docs H d Hd. cbn in H. inversion H; subst docs.
  apply firstn_In in Hd. destruct Hd as [<-|[<-|[]]]; discriminate.
Qed.


Lemma clear_session_memory_effect_witness :
  let w' := snd (clear_session_memory sample_env "demo" fact_world) in
  fst (clear_session_memory sample_env "demo" fact_world)
  = Ret (existsb (in_session "demo") (w_memory fact_world))
  /\ filter (in_session "demo") (w_memory w') = []
  /\ (forall other, other <> "demo" ->
        filter (in_session other) (w_memory w')
        = filter (in_session other) (w_memory fact_world))
  /\ w_chat_log w' = w_chat_log fact_world
  /\ (forall limit, fst (retrieve_session_history sample_env "demo" limit w') = Ret [])
  /\ fst (retrieve_important_facts sample_env "demo" w') = Ret []
  /\ fst (clear_session_memory sample_env "demo" w') = Ret false.
Proof. exact (clear_session_memory_effect sample_env "demo" fact_world eq_refl). Defined.

Lemma clear_session_memory_forgets_long_term_witness :
  let w1 := snd (store_long_term_memory sample_env "demo" "preference"
                   "prefers short answers" world0) in
  let w2 := snd (clear_session_memory sample_env "demo" w1) in
  In (long_term_doc sample_env "demo" "preference" "prefers short answers" 0) (w_memory w1)
  /\ m_persistent (long_term_doc sample_env "demo" "preference" "prefers short answers" 0)
     = Some true
  /\ exists notes,
       fst (retrieve_long_term_memory sample_env "preference" 10 w2) = Ret notes
       /\ forall d, In d notes -> m_session_id d <> "demo".
Proof.
  exact (clear_session_memory_forgets_long_term sample_env "demo" "preference"
           "prefers short answers" 10 world0 eq_refl eq_refl).
Defined.

Lemma long_term_memory_round_trip_witness :
  exists older,
    fst (bind (store_long_term_memory sample_env "demo" "preference" "likes examples")
              (fun _ => retrieve_long_term_memory sample_env "preference" 1) note_world)
    = Ret (long_term_doc sample_env "demo" "preference" "likes examples" 2 :: older)
    /\ (forall d, In d older ->
          In d (w_memory note_world) /\ is_long_term "preference" d = true)
    /\ (0 < 1 -> S (length older) <= 1).
Proof.
  apply (long_term_memory_round_trip sample_env "demo" "preference" "likes examples" 1
           note_world); [reflexivity | reflexivity |].
  intros d [<-|[]] _. reflexivity.
Defined.

Lemma analyze_question_patterns_counts_witness :
  exists most_common,
    analyze_question_patterns (nodup string_dec) sample_questions
    = Ret (PDict
             [("total_questions", PInt (Z.of_nat (length (question_labels sample_questions))));
              ("question_types", PList (map PStr (question_labels sample_questions)));
              ("most_common_type", PStr most_common)])
    /\ length (question_labels sample_questions) <= length sample_questions
    /\ (forall label, In label (question_labels sample_questions) ->
          In label ["factual"; "procedural"; "explanatory"; "general"])
    /\ (question_labels sample_questions = [] -> most_common = "none")
    /\ (question_labels sample_questions <> [] ->
          In most_common (question_labels sample_questions)
          /\ forall x, count (question_labels sample_questions) x
                       <= count (question_labels sample_questions) most_common).
Proof.
  apply (analyze_question_patterns_counts (nodup string_dec) sample_questions).
  - intros l x. apply nodup_In.
  - intros msg [<-|[<-|[<-|[<-|[]]]]]; discriminate.
  - discriminate.
Defined.

Lemma get_embedding_sends_embedded_text_witness :
  get_embedding corpus_env "  atlas search " world0
  = (match embedding_reply corpus_env 0 (embedded_text "  atlas search ") with
     | Ret embedding => Ret (Some embedding)
     | Raise _ => Ret None
     end, called world0)
  /\ String.length (embedded_text "  atlas search ") <= N.to_nat 8000
  /\ PyStr.strip (embedded_text "  atlas search ") = embedded_text "  atlas search "
  /\ (String.length "  atlas search " <= N.to_nat 8000 ->
      embedded_text "  atlas search " <> "")
  /\ (N.to_nat 8000 < String.length "  atlas search " ->
      all_space (String.substring 0 (N.to_nat 8000) "  atlas search ") = true ->
      embedded_text "  atlas search " = "").
Proof.
  exact (get_embedding_sends_embedded_text corpus_env "  atlas search " world0 eq_refl).
Defined.

Lemma generate_response_returns_witness :
  exists response w',
    generate_response corpus_env "demo" "What was MongoDB's latest acquisition?" world0
    = (Ret response, w').
Proof.
  exact (generate_response_returns corpus_env "demo"
           "What was MongoDB's latest acquisition?" world0 corpus_env_has_texts).
Defined.

Lemma generate_response_records_turn_witness :
  exists response w' history asked answered,
    generate_response corpus_env "demo" "What was MongoDB's latest acquisition?" world0
    = (Ret response, w')
    /\ fst (retrieve_session_history corpus_env "demo" None w') = Ret history
    /\ In (mkTurn "user" (Some "What was MongoDB's latest acquisition?") asked []) history
    /\ In (mkTurn "assistant" response answered []) history
    /\ length (filter (in_session "demo") (w_memory world0)) + 2 = length history.
Proof.
  apply (generate_response_records_turn corpus_env "demo"
           "What was MongoDB's latest acquisition?" world0).
  - intros n; reflexivity.
  - exact corpus_env_has_texts.
  - intros d [].
Defined.

Lemma gather_turn_summary_failure_witness :
  exists tool tool_input history w',
    gather_turn offline_env "demo" "hello" world0
    = (Ret (tool, tool_input,
            mkMsg "system"
              (Some "Previous conversation summary: Unable to generate session summary.")
            :: clean_session_history history ++ [hello]), w')
    /\ history <> [].
Proof.
  apply (gather_turn_summary_failure offline_env "demo" "hello" world0
           (mkExn ServiceError "connection refused")).
  - intros n; reflexivity.
  - intros d [].
  - intros rq; reflexivity.
Defined.

(* ================================================================== *)
(** * A limit on the history keeps the oldest turns *)
(* ================================================================== *)

(** In a session that holds chat turns only, with the collection
    reachable, a history read under a positive limit is the first
    [limit] entries of the full history, which is ordered oldest first:
    the limit keeps the oldest turns and leaves out the latest.  A limit
    of [0] is no limit. *)
Theorem retrieve_session_history_limit_keeps_oldest
    (E : env) (session_id : string) (limit : nat) (w : world)
    (Hup : db_down E (w_tick w) = false)
    (Hturns : turns_only session_id (w_memory w)) :
  exists history,
    fst (retrieve_session_history E session_id None w) = Ret history
    /\ StronglySorted by_timestamp history
    /\ fst (retrieve_session_history E session_id (Some limit) w)
       = Ret (match limit with
              | 0 => history
              | _ => firstn limit history
              end).
Proof.
  set (docs := sort_by_timestamp (filter (in_session session_id) (w_memory w))).
  assert (Hall : forall d, In d docs -> m_role d <> None).
  { intros d Hd. apply sort_by_timestamp_In, filter_In in Hd as [Hin Hs].
    exact (Hturns d Hin Hs). }
  exists (map as_turn docs). split; [|split].
  - rewrite retrieve_session_history_unfold, Hup. cbn [apply_limit]. fold docs.
    rewrite (project_turns_all docs Hall). reflexivity.
  - apply map_as_turn_sorted, sort_by_timestamp_sorted.
  - rewrite retrieve_session_history_unfold, Hup. fold docs.
    destruct limit as [|n]; cbn [apply_limit].
    + rewrite (project_turns_all docs Hall). reflexivity.
    + rewrite project_turns_all.
      * rewrite firstn_map. reflexivity.
      * intros d Hd. apply Hall. eapply firstn_In; eauto.
Qed.

Lemma retrieve_session_history_limit_keeps_oldest_witness :
  (exists history,
     fst (retrieve_session_history sample_env "demo" None three_turn_world) = Ret history
     /\ StronglySorted by_timestamp history
     /\ fst (retrieve_session_history sample_env "demo" (Some 2) three_turn_world)
        = Ret (firstn 2 history))
  /\ fst (retrieve_session_history sample_env "demo" None three_turn_world)
     = Ret [mkTurn "user" (Some "hello") 0 [];
            mkTurn "assistant" (Some "Hello!") 2 [];
            mkTurn "user" (Some "What is Atlas?") 4 []]
  /\ fst (retrieve_session_history sample_env "demo" (Some 2) three_turn_world)
     = Ret [mkTurn "user" (Some "hello") 0 [];
            mkTurn "assistant" (Some "Hello!") 2 []].
Proof.
  split; [|split; reflexivity].
  apply (retrieve_session_history_limit_keeps_oldest sample_env "demo" 2 three_turn_world);
    [reflexivity|].
  intros d [<-|[<-|[<-|[]]]] _; discriminate.
Defined.

(* ================================================================== *)
(** * The requests of a turn before it dispatches *)
(* ================================================================== *)

Section Requests.

Variable E : env.

Lemma get_session_summary_request session_id w history :
  retrieve_session_history E session_id None w = (Ret history, called w) ->
  history <> [] ->
  exists summary,
    get_session_summary E session_id w
    = (Ret summary,
       mkWorld (w_memory w) (w_chat_log w ++ [summary_request history])
               (S (S (w_tick w)))).
Proof.
  intros Hh Hne. unfold get_session_summary, try_except, bind. rewrite Hh.
  destruct history as [|h hs]; [contradiction|].
  rewrite chat_create_effect. cbn [called w_tick w_memory w_chat_log].
  destruct (chat_reply E _ _); unfold ret; eauto.
Qed.

Lemma get_user_preferences_request session_id w history :
  retrieve_session_history E session_id None w = (Ret history, called w) ->
  history <> [] ->
  exists preferences,
    get_user_preferences E session_id w
    = (Ret preferences,
       mkWorld (w_memory w) (w_chat_log w ++ [preferences_request history])
               (S (S (w_tick w)))).
Proof.
  intros Hh Hne. unfold get_user_preferences, try_except, bind. rewrite Hh.
  destruct history as [|h hs]; [contradiction|].
  rewrite chat_create_effect. cbn [called w_tick w_memory w_chat_log].
  destruct (chat_reply E _ _) as [text|e]; unfold lift, ret; [|eauto].
  destruct (decode_preferences E text); eauto.
Qed.

Lemma retrieve_session_history_turns session_id w :
  db_down E (w_tick w) = false ->
  turns_only session_id (w_memory w) ->
  retrieve_session_history E session_id None w
  = (Ret (map as_turn
            (sort_by_timestamp (filter (in_session session_id) (w_memory w)))),
     called w).
Proof.
  intros Hup Hturns. rewrite retrieve_session_history_unfold, Hup. cbn [apply_limit].
  rewrite project_turns_all; [reflexivity|].
  intros d Hd. apply sort_by_timestamp_In, filter_In in Hd as [Hin Hs].
  exact (Hturns d Hin Hs).
Qed.

(** With the collection reachable, in a session that holds chat turns
    only, every turn issues three generation requests before it
    dispatches: for a summary, for the preferences and for the selection,
    all three over one history, which already holds the utterance.  So
    the first turn of a new session asks for a summary too, of the
    utterance alone. *)
Theorem gather_turn_requests
    (session_id user_input : string) (w : world)
    (Hup : forall n, db_down E n = false)
    (Hturns : turns_only session_id (w_memory w)) :
  exists tool tool_input llm_input w' history,
    gather_turn E session_id user_input w = (Ret (tool, tool_input, llm_input), w')
    /\ In (mkTurn "user" (Some user_input) (now E (w_tick w)) []) history
    /\ w_chat_log w'
       = w_chat_log w ++ [summary_request history; preferences_request history;
                          selector_request E user_input history].
Proof.
  unfold gather_turn. unfold bind at 1.
  rewrite store_chat_message_unfold. cbv zeta. rewrite Hup.
  set (doc := mkDoc session_id (Some "user") (Some user_input) (now E (w_tick w))
                    (Some []) None None).
  set (w0 := mkWorld (w_memory w ++ [doc]) (w_chat_log w) (S (S (w_tick w)))).
  set (history := map as_turn
                    (sort_by_timestamp (filter (in_session session_id) (w_memory w0)))).
  assert (Hturns0 : turns_only session_id (w_memory w0)).
  { intros d Hin Hs. apply in_app_or in Hin as [Hin|[<-|[]]];
      [exact (Hturns d Hin Hs) | discriminate]. }
  assert (Hturn : In (mkTurn "user" (Some user_input) (now E (w_tick w)) []) history).
  { change (mkTurn "user" (Some user_input) (now E (w_tick w)) []) with (as_turn doc).
    apply in_map, sort_by_timestamp_In, filter_In. split.
    - apply in_or_app; right; left; reflexivity.
    - unfold in_session, doc; cbn. apply String.eqb_refl. }
  assert (Hne : history <> []) by (intros H; rewrite H in Hturn; destruct Hturn).
  assert (Hread : forall w1, w_memory w1 = w_memory w0 ->
            retrieve_session_history E session_id None w1 = (Ret history, called w1)).
  { intros w1 Hm. rewrite retrieve_session_history_turns;
      [unfold history; rewrite Hm; reflexivity | apply Hup | rewrite Hm; exact Hturns0]. }
  unfold bind at 1. rewrite (Hread w0 eq_refl).
  unfold bind at 1.
  destruct (get_session_summary_request session_id (called w0) history
              (Hread (called w0) eq_refl) Hne) as [summary ->].
  unfold bind at 1.
  match goal with
  | |- context [get_user_preferences E session_id ?w3] =>
      destruct (get_user_preferences_request session_id w3 history (Hread w3 eq_refl) Hne)
        as [preferences ->]
  end.
  unfold bind at 1.
  match goal with
  | |- context [tool_selector E user_input history ?w4] =>
      destruct (tool_selector_effect E user_input history w4)
        as (tool & tool_input & w5 & -> & Hlog & _)
  end.
  unfold ret. eexists tool, tool_input, _, w5, history.
  split; [reflexivity|]. split; [exact Hturn|].
  rewrite Hlog. cbn [called w0 w_chat_log]. rewrite <- !app_assoc. reflexivity.
Qed.

End Requests.

Lemma gather_turn_requests_witness :
  exists tool tool_input llm_input w' history,
    gather_turn sample_env "demo" "hello" world0 = (Ret (tool, tool_input, llm_input), w')
    /\ In (mkTurn "user" (Some "hello") 0%Z []) history
    /\ w_chat_log w'
       = w_chat_log world0 ++ [summary_request history; preferences_request history;
                               selector_request sample_env "hello" history].
Proof.
  apply (gather_turn_requests sample_env "demo" "hello" world0).
  - intros n; reflexivity.
  - intros d [].
Defined.

(* ================================================================== *)
(** * The preferences of a turn are asked for and not used *)
(* ================================================================== *)

Lemma bind_agree {A B} (c1 c2 : M A) (k1 k2 : A -> M B) w :
  c1 w = c2 w -> (forall a w', k1 a w' = k2 a w') -> bind c1 k1 w = bind c2 k2 w.
Proof.
  intros Hc Hk. unfold bind. rewrite Hc. destruct (c2 w) as [[a|e] w']; [apply Hk | reflexivity].
Qed.

Lemma bind_same_world {A A' B} (c1 : M A) (c2 : M A') (k1 k2 : M B) w :
  (exists a1 a2 w', c1 w = (Ret a1, w') /\ c2 w = (Ret a2, w')) ->
  (forall w', k1 w' = k2 w') ->
  bind c1 (fun _ => k1) w = bind c2 (fun _ => k2) w.
Proof.
  intros (a1 & a2 & w' & H1 & H2) Hk. unfold bind. rewrite H1, H2. apply Hk.
Qed.

Section Preferences.

Variable E : env.
Variables chat1 chat2 : nat -> request -> outcome (option string).

Hypothesis Hchat :
  forall n rq, is_preferences_request rq = false -> chat1 n rq = chat2 n rq.

Lemma chat_create_agree rq w :
  is_preferences_request rq = false ->
  chat_create (with_chat_reply chat1 E) rq w = chat_create (with_chat_reply chat2 E) rq w.
Proof.
  intros H. unfold chat_create. cbn [chat_reply with_chat_reply].
  rewrite (Hchat _ _ H). reflexivity.
Qed.

Lemma get_llm_response_agree messages system_message w :
  get_llm_response (with_chat_reply chat1 E) messages system_message w
  = get_llm_response (with_chat_reply chat2 E) messages system_message w.
Proof.
  unfold get_llm_response, try_except. rewrite chat_create_agree; reflexivity.
Qed.

Lemma get_session_summary_agree session_id w :
  get_session_summary (with_chat_reply chat1 E) session_id w
  = get_session_summary (with_chat_reply chat2 E) session_id w.
Proof.
  unfold get_session_summary, try_except.
  rewrite (bind_agree (retrieve_session_history (with_chat_reply chat1 E) session_id None)
             (retrieve_session_history (with_chat_reply chat2 E) session_id None) _
             (fun messages => match messages with
                              | [] => ret (Some "No previous conversation history.")
                              | _ => chat_create (with_chat_reply chat2 E)
                                                 (summary_request messages)
                              end) w); [reflexivity | reflexivity |].
  intros [|h hs] w'; [reflexivity|]. apply chat_create_agree. reflexivity.
Qed.

Lemma get_user_preferences_same_world session_id w :
  exists p1 p2 w',
    get_user_preferences (with_chat_reply chat1 E) session_id w = (Ret p1, w')
    /\ get_user_preferences (with_chat_reply chat2 E) session_id w = (Ret p2, w').
Proof.
  unfold get_user_preferences, try_except, bind.
  change (retrieve_session_history (with_chat_reply chat2 E) session_id None w)
    with (retrieve_session_history (with_chat_reply chat1 E) session_id None w).
  destruct (retrieve_session_history_effect (with_chat_reply chat1 E) session_id None w)
    as [history ->].
  destruct history as [|h hs]; [unfold ret; eauto|].
  rewrite !chat_create_effect. cbn [chat_reply with_chat_reply].
  destruct (chat1 _ _) as [t1|e1]; destruct (chat2 _ _) as [t2|e2]; unfold lift, ret;
    try destruct (decode_preferences (with_chat_reply chat1 E) t1);
    try destruct (decode_preferences (with_chat_reply chat2 E) t2); eauto.
Qed.

Lemma tool_selector_agree user_input session_history w :
  tool_selector (with_chat_reply chat1 E) user_input session_history w
  = tool_selector (with_chat_reply chat2 E) user_input session_history w.
Proof.
  rewrite !tool_selector_unfold. cbv zeta.
  change (selector_request (with_chat_reply chat2 E) user_input session_history)
    with (selector_request (with_chat_reply chat1 E) user_input session_history).
  cbn [chat_reply with_chat_reply].
  rewrite (Hchat _ (selector_request (with_chat_reply chat1 E) user_input session_history))
    by reflexivity.
  destruct (chat2 _ _) as [r|e]; reflexivity.
Qed.

Lemma process_vector_search_response_agree messages context user_input w :
  process_vector_search_response (with_chat_reply chat1 E) messages context user_input w
  = process_vector_search_response (with_chat_reply chat2 E) messages context user_input w.
Proof.
  unfold process_vector_search_response. destruct context; [reflexivity|].
  apply bind_agree; [reflexivity|]. intros; apply get_llm_response_agree.
Qed.

Lemma process_hybrid_search_response_agree messages context user_input w :
  process_hybrid_search_response (with_chat_reply chat1 E) messages context user_input w
  = process_hybrid_search_response (with_chat_reply chat2 E) messages context user_input w.
Proof.
  unfold process_hybrid_search_response. destruct context; [reflexivity|].
  apply bind_agree; [reflexivity|]. intros semantic w1.
  apply bind_agree; [reflexivity|]. intros keyword w2.
  apply get_llm_response_agree.
Qed.

Lemma dispatch_agree tool tool_input llm_input user_input w :
  dispatch (with_chat_reply chat1 E) tool tool_input llm_input user_input w
  = dispatch (with_chat_reply chat2 E) tool tool_input llm_input user_input w.
Proof.
  unfold dispatch.
  destruct (Py.eq_str tool "vector_search_tool").
  { apply bind_agree; [reflexivity|]. intros q w1.
    apply bind_agree; [reflexivity|]. intros context w2.
    apply process_vector_search_response_agree. }
  destruct (Py.eq_str tool "calculator_tool"); [reflexivity|].
  destruct (Py.eq_str tool "web_search_tool").
  { unfold process_web_search_response. apply get_llm_response_agree. }
  destruct (Py.eq_str tool "document_analysis_tool"); [reflexivity|].
  destruct (Py.eq_str tool "hybrid_search_tool").
  { apply bind_agree; [reflexivity|]. intros q w1.
    apply bind_agree; [reflexivity|]. intros context w2.
    apply process_hybrid_search_response_agree. }
  apply get_llm_response_agree.
Qed.

Lemma generate_response_agree session_id user_input w :
  generate_response (with_chat_reply chat1 E) session_id user_input w
  = generate_response (with_chat_reply chat2 E) session_id user_input w.
Proof.
  unfold generate_response.
  apply bind_agree.
  - unfold gather_turn.
    apply bind_agree; [reflexivity|]. intros _ w1.
    apply bind_agree; [reflexivity|]. intros session_history w2.
    apply bind_agree; [apply get_session_summary_agree|]. intros session_summary w3.
    apply bind_same_world; [apply get_user_preferences_same_world|]. intros w4.
    apply bind_agree; [apply tool_selector_agree|]. intros [tool tool_input] w5.
    reflexivity.
  - intros [[tool tool_input] llm_input] w1.
    apply bind_agree; [apply dispatch_agree|]. intros response w2. reflexivity.
Qed.

End Preferences.

(** The answer to the preferences request has no part in a turn: two
    environments that differ only in what the generation service answers
    to requests carrying the preferences instruction give the same
    outcome and leave the same collection, log and call count.  The
    request is issued all the same. *)
Theorem generate_response_ignores_preferences
    (E1 E2 : env) (session_id user_input : string) (w : world)
    (Hsame : same_but_preferences E1 E2) :
  generate_response E1 session_id user_input w
  = generate_response E2 session_id user_input w.
Proof.
  destruct E1 as [c1 e1 v1 t1 d1 n1 j1 p1 h1 s1], E2 as [c2 e2 v2 t2 d2 n2 j2 p2 h2 s2].
  destruct Hsame as (Hc & He & Hv & Ht & Hd & Hn & Hj & Hp & Hh & Hs). cbn in *. subst.
  exact (generate_response_agree (mkEnv c2 e2 v2 t2 d2 n2 j2 p2 h2 s2) c1 c2 Hc
           session_id user_input w).
Qed.

Lemma generate_response_ignores_preferences_witness :
  generate_response corpus_env "demo" "hello" hello_world
  = generate_response no_preferences_env "demo" "hello" hello_world.
Proof.
  apply (generate_response_ignores_preferences corpus_env no_preferences_env
           "demo" "hello" hello_world).
  split; [|repeat split].
  intros n rq H. cbn. rewrite H. reflexivity.
Defined.

(* ================================================================== *)
(** * From one turn to the next *)
(* ================================================================== *)

Section Continuity.

Variable E : env.

Lemma generate_response_memory session_id user_input w :
  (forall n, db_down E n = false) ->
  vector_index_has_texts E ->
  exists response w' answered,
    generate_response E session_id user_input w = (Ret response, w')
    /\ w_memory w'
       = w_memory w ++ [turn_doc E session_id "user" (Some user_input) (w_tick w);
                        turn_doc E session_id "assistant" response answered].
Proof.
  intros Hup Htexts.
  destruct (generate_response_total E session_id user_input w Htexts) as (response & w' & Hg).
  pose proof Hg as Hrun.
  unfold generate_response in Hrun. unfold bind at 1 in Hrun.
  destruct (gather_turn_effect E session_id user_input w)
    as (tool & tool_input & llm_input & w1 & l1 & h1 & Hgt & Hm1 & _ & _ & _).
  rewrite Hgt in Hrun. unfold bind at 1 in Hrun.
  destruct (dispatch_effect E tool tool_input llm_input user_input w1)
    as (o & w2 & l2 & Hd & [Hm2 _] & _ & _).
  rewrite Hd in Hrun. destruct o as [r|e]; [|discriminate].
  unfold bind in Hrun. rewrite store_chat_message_unfold in Hrun. cbv zeta in Hrun.
  rewrite Hup in Hrun. unfold ret in Hrun.
  exists response, w', (w_tick w2). split; [exact Hg|].
  inversion Hrun; subst response w'. cbn [w_memory].
  rewrite Hm2, Hm1, Hup, <- app_assoc. reflexivity.
Qed.

(** With the collection reachable, in a session that holds chat turns
    only, what a turn asked and what it answered are part of the
    conversation list of the next turn of the session. *)
Theorem next_turn_sees_previous_turn
    (session_id first_input second_input : string) (w : world)
    (Hup : forall n, db_down E n = false)
    (Htexts : vector_index_has_texts E)
    (Hturns : turns_only session_id (w_memory w)) :
  exists response w1 tool tool_input llm_input w2,
    generate_response E session_id first_input w = (Ret response, w1)
    /\ gather_turn E session_id second_input w1 = (Ret (tool, tool_input, llm_input), w2)
    /\ In (mkMsg "user" (Some first_input)) llm_input
    /\ In (mkMsg "assistant" response) llm_input.
Proof.
  destruct (generate_response_memory session_id first_input w Hup Htexts)
    as (response & w1 & answered & Hg & Hm).
  destruct (gather_turn_llm_input E session_id second_input w1)
    as (tool & tool_input & summary_part & history & w2 & Hgt & _ & Hh).
  exists response, w1, tool, tool_input,
    (summary_part ++ clean_session_history history ++ [mkMsg "user" (Some second_input)]), w2.
  split; [exact Hg|]. split; [exact Hgt|].
  rewrite store_chat_message_unfold in Hh. cbv zeta in Hh. rewrite Hup in Hh.
  cbn [snd] in Hh. rewrite retrieve_session_history_unfold in Hh.
  cbn [w_tick w_memory apply_limit] in Hh. rewrite Hup in Hh.
  set (docs := sort_by_timestamp (filter (in_session session_id) _)) in Hh.
  assert (Hin : forall d,
            In d [turn_doc E session_id "user" (Some first_input) (w_tick w);
                  turn_doc E session_id "assistant" response answered] ->
            In d docs).
  { intros d Hd. apply sort_by_timestamp_In, filter_In. split.
    - apply in_or_app; left. rewrite Hm. apply in_or_app; right. exact Hd.
    - destruct Hd as [<-|[<-|[]]]; unfold in_session, turn_doc; cbn; apply String.eqb_refl. }
  rewrite project_turns_all in Hh.
  - inversion Hh as [Hhist]. clear Hh. subst history.
    assert (Hmsg : forall d, In d docs ->
              In (mkMsg (t_role (as_turn d)) (t_content (as_turn d)))
                 (summary_part ++ clean_session_history (map as_turn docs)
                  ++ [mkMsg "user" (Some second_input)])).
    { intros d Hd. apply in_or_app; right. apply in_or_app; left.
      unfold clean_session_history. rewrite map_map.
      apply in_map_iff. exists d. split; [reflexivity | exact Hd]. }
    split.
    + apply (Hmsg (turn_doc E session_id "user" (Some first_input) (w_tick w))).
      apply Hin. left; reflexivity.
    + apply (Hmsg (turn_doc E session_id "assistant" response answered)).
      apply Hin. right; left; reflexivity.
  - intros d Hd. apply sort_by_timestamp_In, filter_In in Hd as [Hd Hs].
    apply in_app_or in Hd as [Hd|[<-|[]]]; [|discriminate].
    rewrite Hm in Hd. apply in_app_or in Hd as [Hd|[<-|[<-|[]]]];
      [exact (Hturns d Hd Hs) | discriminate | discriminate].
Qed.

End Continuity.

Lemma next_turn_sees_previous_turn_witness :
  exists response w1 tool tool_input llm_input w2,
    generate_response corpus_env "demo" "What was MongoDB's latest acquisition?" world0
    = (Ret response, w1)
    /\ gather_turn corpus_env "demo" "When was it announced?" w1
       = (Ret (tool, tool_input, llm_input), w2)
    /\ In (mkMsg "user" (Some "What was MongoDB's latest acquisition?")) llm_input
    /\ In (mkMsg "assistant" response) llm_input.
Proof.
  apply (next_turn_sees_previous_turn corpus_env "demo"
           "What was MongoDB's latest acquisition?" "When was it announced?" world0).
  - intros n; reflexivity.
  - exact corpus_env_has_texts.
  - intros d [].
Defined.

(* ================================================================== *)
(** * A turn answered without the synthesizer *)
(* ================================================================== *)

Lemma eq_str_true v s : Py.eq_str v s = true -> v = PStr s.
Proof.
  destruct v; cbn; try discriminate. intros H. apply String.eqb_eq in H. congruence.
Qed.

(** A turn whose selection is the calculator or the document analysis is
    answered without the synthesizer: after the selection request no
    generation request is issued, the answer is the calculator's text on
    the string the selector handed over, respectively the fixed prompt,
    and the assistant's turn put on record holds that answer. *)
Theorem generate_response_without_synthesis
    (E : env) (session_id user_input : string) (w w1 : world)
    (tool tool_input : pyval) (llm_input : list message)
    (Hgather : gather_turn E session_id user_input w
               = (Ret (tool, tool_input, llm_input), w1))
    (Htool : (Py.eq_str tool "calculator_tool"
              || Py.eq_str tool "document_analysis_tool")%bool = true) :
  exists response w',
    generate_response E session_id user_input w = (Ret (Some response), w')
    /\ w_chat_log w' = w_chat_log w1
    /\ w_memory w'
       = w_memory w1 ++ (if db_down E (S (w_tick w1)) then []
                         else [turn_doc E session_id "assistant" (Some response)
                                        (w_tick w1)])
    /\ (if Py.eq_str tool "calculator_tool"
        then exists q, tool_input = PStr q
                       /\ calculator_tool E q w1 = (Ret response, w1)
        else response
             = "Please provide a document to analyze. You can paste the text content here.").
Proof.
  destruct (gather_turn_effect E session_id user_input w)
    as (tool' & tool_input' & llm_input' & w1' & l1 & history & Hg & _ & _ & _ & Hstr).
  rewrite Hgather in Hg. inversion Hg; subst tool' tool_input' llm_input' w1'. clear Hg.
  assert (Hstore : forall r,
            store_chat_message E session_id "assistant" (Some r) None w1
            = (Ret tt,
               mkWorld (w_memory w1 ++ (if db_down E (S (w_tick w1)) then []
                                        else [turn_doc E session_id "assistant" (Some r)
                                                       (w_tick w1)]))
                       (w_chat_log w1) (S (S (w_tick w1))))).
  { intros r. rewrite store_chat_message_unfold. cbv zeta. unfold turn_doc.
    destruct (db_down E (S (w_tick w1))); rewrite ?app_nil_r; reflexivity. }
  unfold generate_response. unfold bind at 1. rewrite Hgather.
  destruct (Py.eq_str tool "calculator_tool") eqn:Hc.
  - destruct (Hstr) as [q ->].
    { unfold takes_str. rewrite Hc, Bool.orb_true_r. reflexivity. }
    apply eq_str_true in Hc. subst tool.
    pose proof (calculator_tool_unfold E q w1) as Hq.
    set (r := if negb (all_safe_chars q) then _ else _) in Hq.
    exists r. eexists.
    unfold dispatch. cbn [Py.eq_str]. cbn [String.eqb Ascii.eqb Bool.eqb andb].
    unfold str_arg. unfold bind, ret. rewrite Hq, Hstore.
    split; [reflexivity|]. cbn [w_chat_log w_memory].
    split; [reflexivity|]. split; [reflexivity|]. eauto.
  - cbn [orb] in Htool. apply eq_str_true in Htool. subst tool.
    eexists _, _.
    unfold dispatch. cbn [Py.eq_str]. cbn [String.eqb Ascii.eqb Bool.eqb andb].
    unfold bind, ret. rewrite Hstore.
    split; [reflexivity|]. cbn [w_chat_log w_memory]. auto.
Qed.

Lemma generate_response_without_synthesis_witness :
  (exists response w',
     generate_response calculator_env "demo" "15*23+45" world0 = (Ret (Some response), w')
     /\ w_chat_log w' = w_chat_log sum_selected
     /\ w_memory w'
        = w_memory sum_selected
          ++ [turn_doc calculator_env "demo" "assistant" (Some response)
                       (w_tick sum_selected)]
     /\ exists q, PStr "15*23+45" = PStr q
                  /\ calculator_tool calculator_env q sum_selected
                     = (Ret response, sum_selected))
  /\ fst (generate_response calculator_env "demo" "15*23+45" world0) = Ret (Some "390").
Proof.
  split; [|vm_compute; reflexivity].
  apply (generate_response_without_synthesis calculator_env "demo" "15*23+45" world0
           sum_selected (PStr "calculator_tool") (PStr "15*23+45")
           [mkMsg "system" (Some "Previous conversation summary: calculator_tool");
            mkMsg "user" (Some "15*23+45"); mkMsg "user" (Some "15*23+45")]);
    vm_compute; reflexivity.
Defined.
